(** * setup-cuda: version discovery, resolution and installer location

    A shallow embedding of [src/cuda.ts], [src/utils.ts] and [src/const.ts]
    and the properties their specification states about them.

    Conventions of the embedding.
    - A JavaScript string is a [string]: a sequence of code units, each
      below 256.
    - A JavaScript number is a [jsnum]: NaN, the two infinities, or a finite
      IEEE 754 double.  [Number], [parseInt] and the subtraction round to
      the nearest double, a tie going to the even significand, and overflow
      to an infinity.  Negative zero is identified with zero (it is falsy
      and [===] to zero, and the code below never divides).
    - A promise is an [outcome] threaded through a log of the URLs that were
      requested; a rejected promise is [Throw]. *)

From Stdlib Require Import Bool Arith ZArith QArith Qreduction Lia List.
From Stdlib Require Import Ascii String Sorted Permutation.
Import ListNotations.

Local Open Scope string_scope.
Local Open Scope list_scope.
Local Open Scope Z_scope.

(** ** JavaScript strings *)

Module JSString.

(** [s.split(sep)] for a one-character separator: never empty. *)
Fixpoint split (sep : ascii) (s : string) : list string :=
  match s with
  | EmptyString => [EmptyString]
  | String c s' =>
      if Ascii.eqb c sep then EmptyString :: split sep s'
      else match split sep s' with
           | h :: t => String c h :: t
           | [] => [String c EmptyString]
           end
  end.

(** [parts.join(sep)]. *)
Definition join (sep : string) (parts : list string) : string :=
  String.concat sep parts.

(** [s.startsWith(p)]. *)
Definition startsWith (s p : string) : bool := String.prefix p s.

(** [s.endsWith(p)]. *)
Fixpoint endsWith (s p : string) : bool :=
  if (String.length s =? String.length p)%nat then String.eqb s p
  else match s with
       | EmptyString => false
       | String _ s' => endsWith s' p
       end.

(** [arr.slice(0, n)]. *)
Definition slice0 {A} (n : nat) (arr : list A) : list A := firstn n arr.

(** [arr.includes(x)] on an array of strings. *)
Definition includes (arr : list string) (x : string) : bool :=
  existsb (String.eqb x) arr.

(** [arr[arr.length - 1]]: the last element, [undefined] on the empty
    array. *)
Fixpoint lastOf {A} (arr : list A) : option A :=
  match arr with
  | [] => None
  | [x] => Some x
  | _ :: t => lastOf t
  end.

(** WhiteSpace and LineTerminator code units below 256: TAB, LF, VT, FF,
    CR, SP and NBSP. *)
Definition isWhite (c : ascii) : bool :=
  let n := nat_of_ascii c in
  ((9 <=? n) && (n <=? 13) || (n =? 32) || (n =? 160))%nat.

Definition isDigit (c : ascii) : bool :=
  let n := nat_of_ascii c in ((48 <=? n) && (n <=? 57))%nat.

Fixpoint trimStart (s : string) : string :=
  match s with
  | String c s' => if isWhite c then trimStart s' else s
  | EmptyString => EmptyString
  end.

Fixpoint trimEnd (s : string) : string :=
  match s with
  | EmptyString => EmptyString
  | String c s' =>
      let t := trimEnd s' in
      if isWhite c && String.eqb t EmptyString then EmptyString
      else String c t
  end.

(** ASCII upper-casing, the canonicalisation of the [i] flag on code
    units below 128. *)
Definition upper (c : ascii) : ascii :=
  let n := nat_of_ascii c in
  if ((97 <=? n) && (n <=? 122))%nat then ascii_of_nat (n - 32) else c.

End JSString.
Import JSString.

(** ** JavaScript numbers *)

(** An IEEE 754 double.  Every finite double is an integer multiple of
    2^-1074, the least positive one: [Fin n] is the double [n * 2^-1074]. *)
Inductive jsnum : Type :=
| NaN
| Inf (negative : bool)
| Fin (n : Z).

Module JSNumber.

(** The number one, and the least magnitude that is no longer finite
    (2^1024), both counted in multiples of 2^-1074. *)
Definition scale : Z := Eval vm_compute in 2 ^ 1074.
Definition infinite : Z := Eval vm_compute in 2 ^ 2098.

(** The integer nearest to [n / d], a tie going to the even one. *)
Definition nearestEven (n d : Z) : Z :=
  let q := n / d in
  match 2 * (n mod d) ?= d with
  | Lt => q
  | Gt => q + 1
  | Eq => if Z.even q then q else q + 1
  end.

(** The magnitude nearest to [n / d] that has 53 significant bits, a tie
    going to the even significand, for [0 <= n] and [0 < d].  Below 2^53
    these magnitudes are the integers.  From there on the integer part [q]
    of [n / d] holds the significand [h] in its leading 53 bits; the [j]
    bits below it, with whatever the division left over, say whether [h]
    or [h + 1] is the nearer. *)
Definition nearestDouble (n d : Z) : Z :=
  let q := n / d in
  if q <? 2 ^ 53 then nearestEven n d
  else
    let j := Z.log2 q - 52 in
    let h := Z.shiftr q j in
    let low := q - Z.shiftl h j in
    let up :=
      match low ?= Z.shiftl 1 (j - 1) with
      | Lt => false
      | Gt => true
      | Eq => negb (n mod d =? 0) || Z.odd h
      end in
    Z.shiftl (if up then h + 1 else h) j.

(** The double nearest to [n / d] multiples of 2^-1074, for [0 < d]. *)
Definition round (n d : Z) : jsnum :=
  let m := nearestDouble (Z.abs n) d in
  if infinite <=? m then Inf (n <? 0)
  else Fin (if n <? 0 then - m else m).

(** The Number value for an integer and for a rational. *)
Definition ofZ (z : Z) : jsnum := round (z * scale) 1.
Definition ofQ (q : Q) : jsnum := round (Qnum q * scale) (Zpos (Qden q)).

(** ToBoolean on a number. *)
Definition truthy (x : jsnum) : bool :=
  match x with
  | NaN => false
  | Inf _ => true
  | Fin n => negb (n =? 0)
  end.

(** [x || 0] where [x] may be [undefined] (an index past the end). *)
Definition orZero (x : option jsnum) : jsnum :=
  match x with
  | Some v => if truthy v then v else ofZ 0
  | None => ofZ 0
  end.

(** [a !== b]. *)
Definition strictNe (a b : jsnum) : bool :=
  match a, b with
  | Fin p, Fin q => negb (p =? q)
  | Inf m, Inf n => negb (Bool.eqb m n)
  | _, _ => true
  end.

(** [a - b]: the exact difference, rounded. *)
Definition sub (a b : jsnum) : jsnum :=
  match a, b with
  | NaN, _ | _, NaN => NaN
  | Inf m, Inf n => if Bool.eqb m n then NaN else Inf m
  | Inf m, Fin _ => Inf m
  | Fin _, Inf n => Inf (negb n)
  | Fin p, Fin q => round (p - q) 1
  end.

(** The sign of a number; [None] for NaN, on which every relational
    operator answers false. *)
Definition sign (x : jsnum) : option comparison :=
  match x with
  | NaN => None
  | Inf true => Some Lt
  | Inf false => Some Gt
  | Fin n => Some (n ?= 0)
  end.

(** [x < 0], [x > 0], [x >= 0], [x <= 0]. *)
Definition ltZero (x : jsnum) : bool :=
  match sign x with Some Lt => true | _ => false end.
Definition gtZero (x : jsnum) : bool :=
  match sign x with Some Gt => true | _ => false end.
Definition geZero (x : jsnum) : bool :=
  match sign x with Some Gt | Some Eq => true | _ => false end.
Definition leZero (x : jsnum) : bool :=
  match sign x with Some Lt | Some Eq => true | _ => false end.

(** [x <= n] and [x >= n] against an integer literal. *)
Definition leInt (x : jsnum) (n : Z) : bool := leZero (sub x (ofZ n)).
Definition geInt (x : jsnum) (n : Z) : bool := geZero (sub x (ofZ n)).

Definition isNaN (x : jsnum) : bool :=
  match x with NaN => true | _ => false end.

(** The value of a digit in radix 36. *)
Definition digitValue (c : ascii) : option Z :=
  let n := nat_of_ascii c in
  if ((48 <=? n) && (n <=? 57))%nat then Some (Z.of_nat n - 48)
  else if ((97 <=? n) && (n <=? 122))%nat then Some (Z.of_nat n - 87)
  else if ((65 <=? n) && (n <=? 90))%nat then Some (Z.of_nat n - 55)
  else None.

Definition radixDigit (radix : Z) (c : ascii) : option Z :=
  match digitValue c with
  | Some d => if d <? radix then Some d else None
  | None => None
  end.

(** The longest prefix of radix digits, most significant first, and what
    follows it. *)
Fixpoint takeDigits (radix : Z) (s : string) : list Z * string :=
  match s with
  | EmptyString => ([], EmptyString)
  | String c s' =>
      match radixDigit radix c with
      | Some d => let '(ds, rest) := takeDigits radix s' in (d :: ds, rest)
      | None => ([], s)
      end
  end.

Definition digitsValue (radix : Z) (ds : list Z) : Z :=
  fold_left (fun acc d => acc * radix + d) ds 0.

(** A run of digits that must reach the end of the string. *)
Definition wholeDigits (radix : Z) (s : string) : option Z :=
  match takeDigits radix s with
  | (d :: ds, EmptyString) => Some (digitsValue radix (d :: ds))
  | _ => None
  end.

Definition stripSign (s : string) : bool * string :=
  match s with
  | String c s' =>
      if Ascii.eqb c "-" then (true, s')
      else if Ascii.eqb c "+" then (false, s')
      else (false, s)
  | EmptyString => (false, s)
  end.

(** ExponentPart, optional: the exponent, or [None] when what is left is
    not an exponent part reaching the end of the string. *)
Definition exponentPart (s : string) : option Z :=
  match s with
  | EmptyString => Some 0
  | String c s' =>
      if Ascii.eqb (upper c) "E" then
        let '(neg, s'') := stripSign s' in
        match wholeDigits 10 s'' with
        | Some e => Some (if neg then - e else e)
        | None => None
        end
      else None
  end.

(** StrUnsignedDecimalLiteral other than [Infinity]: digits, an optional
    fraction, an optional exponent.  The result is the mathematical value
    of the literal. *)
Definition unsignedDecimal (s : string) : option Q :=
  let '(ip, s1) := takeDigits 10 s in
  let '(fp, s2) :=
    match s1 with
    | String c s1' => if Ascii.eqb c "." then takeDigits 10 s1' else ([], s1)
    | EmptyString => ([], s1)
    end in
  match ip ++ fp with
  | [] => None
  | ds =>
      match exponentPart s2 with
      | Some e =>
          Some (Qred (inject_Z (digitsValue 10 ds)
                      * Qpower (inject_Z 10) (e - Z.of_nat (List.length fp))))
      | None => None
      end
  end.

Definition nonDecimal (s : string) : option (option Z) :=
  match s with
  | String z (String c s') =>
      if negb (Ascii.eqb z "0") then None
      else if Ascii.eqb (upper c) "X" then Some (wholeDigits 16 s')
      else if Ascii.eqb (upper c) "O" then Some (wholeDigits 8 s')
      else if Ascii.eqb (upper c) "B" then Some (wholeDigits 2 s')
      else None
  | _ => None
  end.

(** [Number(s)]: StringToNumber, the mathematical value of the literal
    rounded to the nearest double.  (From the 21st significant digit on
    ECMAScript lets an engine round a shortened literal instead; the
    engines round the value itself.) *)
Definition Number (s : string) : jsnum :=
  let t := trimEnd (trimStart s) in
  if String.eqb t EmptyString then ofZ 0
  else
    match nonDecimal t with
    | Some (Some z) => ofZ z
    | Some None => NaN
    | None =>
        let '(neg, u) := stripSign t in
        if String.eqb u "Infinity" then Inf neg
        else match unsignedDecimal u with
             | Some q => ofQ (if neg then - q else q)
             | None => NaN
             end
    end.

(** [parseInt(s, radix)]; [radix = None] is an omitted radix.  The integer
    that the digits denote is rounded to the nearest double. *)
Definition parseInt (s : string) (radix : option Z) : jsnum :=
  let '(neg, t) := stripSign (trimStart s) in
  let r := match radix with Some r => r | None => 0 end in
  if negb (r =? 0) && ((r <? 2) || (36 <? r)) then NaN
  else
    let stripPrefix := (r =? 0) || (r =? 16) in
    let r := if r =? 0 then 10 else r in
    let '(r, t) :=
      match t with
      | String z (String c t') =>
          if stripPrefix && Ascii.eqb z "0" && Ascii.eqb (upper c) "X"
          then (16, t') else (r, t)
      | _ => (r, t)
      end in
    match fst (takeDigits r t) with
    | [] => NaN
    | ds => ofZ (if neg then - digitsValue r ds else digitsValue r ds)
    end.

End JSNumber.
Import JSNumber.

(** ** src/utils.ts *)

(** The [for] loop of [compareVersions]: [n] iterations are left and [i]
    is the loop index. *)
Fixpoint compareLoop (aParts bParts : list jsnum) (n i : nat) : jsnum :=
  match n with
  | O => ofZ 0
  | S n' =>
      let aVal := orZero (nth_error aParts i) in
      let bVal := orZero (nth_error bParts i) in
      if strictNe aVal bVal then sub aVal bVal
      else compareLoop aParts bParts n' (S i)
  end.

Definition compareVersions (a b : string) : jsnum :=
  let aParts := map Number (split "." a) in
  let bParts := map Number (split "." b) in
  compareLoop aParts bParts (Nat.max (List.length aParts) (List.length bParts)) 0.

(** [versions.sort(compareVersions)].  [Array.prototype.sort] is stable and,
    for a consistent comparator, yields the ordered permutation of its
    input; it is embedded as the stable insertion sort.  An element moves
    past another one only when the comparator answers a positive number. *)
Fixpoint sortInsert (cmp : string -> string -> jsnum) (x : string)
    (sorted : list string) : list string :=
  match sorted with
  | [] => [x]
  | y :: rest =>
      if gtZero (cmp x y) then y :: sortInsert cmp x rest
      else x :: y :: rest
  end.

Definition arraySort (cmp : string -> string -> jsnum) (arr : list string)
    : list string :=
  fold_right (sortInsert cmp) [] arr.

Definition sortVersions (versions : list string) : list string :=
  arraySort compareVersions versions.

(** ** src/const.ts *)

Definition START_SUPPORTED_CUDA_VERSION : string := "10.0".

Definition OLD_CUDA_VERSIONS : list string :=
  ["10.0"; "10.1"; "10.1.1"; "10.1.2"; "10.2"].

Record CudaLink : Type := mkCudaLink {
  md5sumUrl : string;
  linuxX86Url : string;
  linuxArm64Url : string;
  windowsUrl : string
}.

(** A [Record<string, CudaLink>]: its own keys, in the order written. *)
Definition LinkTable : Type := list (string * CudaLink).

Definition CUDA_LINKS : LinkTable :=
  [ ("10.0",
     mkCudaLink
       "https://developer.download.nvidia.com/compute/cuda/10.0/Prod/docs/sidebar/md5sum.txt"
       "http://developer.download.nvidia.com/compute/cuda/10.0/Prod/patches/1/cuda_10.0.130.1_linux.run"
       ""
       "https://developer.nvidia.com/compute/cuda/10.0/Prod/local_installers/cuda_10.0.130_411.31_win10");
    ("10.1",
     mkCudaLink
       "https://developer.download.nvidia.com/compute/cuda/10.1/Prod/docs/sidebar/md5sum.txt"
       "https://developer.nvidia.com/compute/cuda/10.1/Prod/local_installers/cuda_10.1.105_418.39_linux.run"
       ""
       "https://developer.nvidia.com/compute/cuda/10.1/Prod/local_installers/cuda_10.1.105_418.96_win10.exe");
    ("10.1.1",
     mkCudaLink
       "https://developer.download.nvidia.com/compute/cuda/10.1/Prod/docs2/sidebar/md5sum-2.txt"
       "https://developer.nvidia.com/compute/cuda/10.1/Prod/local_installers/cuda_10.1.168_418.67_linux.run"
       ""
       "https://developer.nvidia.com/compute/cuda/10.1/Prod/local_installers/cuda_10.1.168_425.25_win10.exe");
    ("10.1.2",
     mkCudaLink
       "https://developer.download.nvidia.com/compute/cuda/10.1/Prod/docs3/sidebar/md5sum.txt"
       "https://developer.download.nvidia.com/compute/cuda/10.1/Prod/local_installers/cuda_10.1.243_418.87.00_linux.run"
       ""
       "https://developer.download.nvidia.com/compute/cuda/10.1/Prod/local_installers/cuda_10.1.243_426.00_win10.exe");
    ("10.2",
     mkCudaLink
       "https://developer.download.nvidia.com/compute/cuda/10.2/Prod/docs/sidebar/md5sum2.txt"
       "https://developer.download.nvidia.com/compute/cuda/10.2/Prod/patches/2/cuda_10.2.2_linux.run"
       ""
       "https://developer.download.nvidia.com/compute/cuda/10.2/Prod/local_installers/cuda_10.2.89_441.22_win10.exe")
  ].

(** [table[key]]: the entry, [undefined] when the key is absent.  The
    members inherited from [Object.prototype] are left out.  None of their
    names has a numeric first component, so none survives the support
    check that precedes every lookup of [getCudaInstallerUrl];
    [getMd5sumUrl] on its own is modelled for the other keys only. *)
Fixpoint lookupLink (table : LinkTable) (key : string) : option CudaLink :=
  match table with
  | [] => None
  | (k, link) :: rest => if String.eqb k key then Some link else lookupLink rest key
  end.

(** [key in table]. *)
Definition inTable (table : LinkTable) (key : string) : bool :=
  match lookupLink table key with Some _ => true | None => false end.

(** ** src/os_arch.ts *)

(** Modelled from the spec: the enums [OS] and [Arch] are declared in
    [src/os_arch.ts], which is not among the sources.  The spec and
    [cuda.ts] name [LINUX], [WINDOWS], [X86_64] and [ARM64_SBSA]; one more
    member of each stands for whatever else the declaration may hold, so
    that the defensive branches of [getCudaInstallerUrl] stay reachable. *)
Inductive OS : Type := LINUX | WINDOWS | OS_other.
Inductive Arch : Type := X86_64 | ARM64_SBSA | Arch_other.

Definition OS_eqb (a b : OS) : bool :=
  match a, b with
  | LINUX, LINUX | WINDOWS, WINDOWS | OS_other, OS_other => true
  | _, _ => false
  end.

Definition Arch_eqb (a b : Arch) : bool :=
  match a, b with
  | X86_64, X86_64 | ARM64_SBSA, ARM64_SBSA | Arch_other, Arch_other => true
  | _, _ => false
  end.

(** ** Errors, promises and the HTTP client *)

Inductive error : Type :=
| TransportFailure (url : string) (statusCode : Z) (statusMessage : string)
| UnsupportedVersion (version : string)
| UnsupportedPlatformCombination (version : string)
| UnsupportedArchitecture (arch : Arch)
| NoMatchingInstaller (version : string) (os : OS) (arch : Arch)
| TypeError
| RequestRejected (url : string).

Inductive outcome (A : Type) : Type :=
| Ok (a : A)
| Throw (e : error).
Arguments Ok {A} a.
Arguments Throw {A} e.

Record HttpResponse : Type := mkResponse {
  statusCode : Z;
  statusMessage : string;
  readBody : string
}.

(** [client.get]: what the network answers to a GET of each URL. *)
Definition HttpClient : Type := string -> outcome HttpResponse.

(** An asynchronous computation: it extends the log of requested URLs and
    settles. *)
Definition Promise (A : Type) : Type := list string -> outcome A * list string.

Module PromiseNotations.

Definition ret {A} (a : A) : Promise A := fun log => (Ok a, log).

Definition throw {A} (e : error) : Promise A := fun log => (Throw e, log).

Definition bind {A B} (p : Promise A) (k : A -> Promise B) : Promise B :=
  fun log =>
    match p log with
    | (Ok a, log') => k a log'
    | (Throw e, log') => (Throw e, log')
    end.

Definition lift {A} (o : outcome A) : Promise A := fun log => (o, log).

Notation "x <- p ;; k" := (bind p (fun x => k))
  (at level 61, p at next level, right associativity).

End PromiseNotations.
Import PromiseNotations.

(** [await client.get(url)]. *)
Definition httpGet (client : HttpClient) (url : string) : Promise HttpResponse :=
  fun log => (client url, log ++ [url]).

(** Running a promise from an empty log. *)
Definition run {A} (p : Promise A) : outcome A * list string := p [].

(** [Promise.all] of three promises: each is started, in order, whatever
    the others do; the result is the three values or a rejection.  When
    several reject, which rejection settles first is a matter of timing;
    the first in array order stands for it. *)
Definition promiseAll3 {A} (p1 p2 p3 : Promise A) : Promise (A * A * A) :=
  fun log =>
    let '(o1, log1) := p1 log in
    let '(o2, log2) := p2 log1 in
    let '(o3, log3) := p3 log2 in
    match o1, o2, o3 with
    | Ok a, Ok b, Ok c => (Ok (a, b, c), log3)
    | Throw e, _, _ | Ok _, Throw e, _ | Ok _, Ok _, Throw e => (Throw e, log3)
    end.

(** ** Regular expressions

    The fragment of RegExp the program uses: literal characters, [\d]
    (the same set as [[0-9]]), [\s], the greedy [+] on a character class,
    the greedy [?] on a group, capture groups, and the [i] flag. *)

Inductive charset : Type :=
| Char (c : ascii)
| CharI (c : ascii)
| Digit
| Space.

Inductive regex : Type :=
| One (cs : charset)
| Plus (cs : charset)
| Seq (r1 r2 : regex)
| Opt (r : regex)
| Group (n : nat) (r : regex)
| Epsilon.

Module RegExp.

Definition inCharset (cs : charset) (c : ascii) : bool :=
  match cs with
  | Char d => Ascii.eqb c d
  | CharI d => Ascii.eqb (upper c) (upper d)
  | Digit => isDigit c
  | Space => isWhite c
  end.

(** [match[n]] for each group that took part in the match. *)
Definition captures : Type := list (nat * string).

Definition capture (caps : captures) (n : nat) : option string :=
  match find (fun p => Nat.eqb (fst p) n) caps with
  | Some p => Some (snd p)
  | None => None
  end.

Definition state : Type := (string * captures)%type.

(** [cs+] by backtracking: as many characters as can be, then one fewer,
    down to one. *)
Fixpoint plusMatch (cs : charset) (s : string) (k : string -> option state)
    : option state :=
  match s with
  | EmptyString => None
  | String c s' =>
      if inCharset cs c then
        match plusMatch cs s' k with
        | Some st => Some st
        | None => k s'
        end
      else None
  end.

(** The backtracking matcher, in continuation-passing style: [k] is what
    has to match after [r]. *)
Fixpoint matchAt (r : regex) (s : string) (caps : captures)
    (k : string -> captures -> option state) : option state :=
  match r with
  | Epsilon => k s caps
  | One cs =>
      match s with
      | String c s' => if inCharset cs c then k s' caps else None
      | EmptyString => None
      end
  | Plus cs => plusMatch cs s (fun s' => k s' caps)
  | Seq r1 r2 => matchAt r1 s caps (fun s' caps' => matchAt r2 s' caps' k)
  | Opt r1 =>
      match matchAt r1 s caps k with
      | Some st => Some st
      | None => k s caps
      end
  | Group n r1 =>
      matchAt r1 s caps
        (fun s' caps' =>
           k s' ((n, substring 0 (String.length s - String.length s') s)
                   :: caps'))
  end.

(** One attempt at the position where [s] starts. *)
Definition attempt (r : regex) (s : string) : option state :=
  matchAt r s [] (fun s' caps => Some (s', caps)).

(** [s.match(r)] for a pattern without the [g] flag, as a truth value:
    is there a position where [r] matches? *)
Fixpoint test (r : regex) (s : string) : bool :=
  match attempt r s with
  | Some _ => true
  | None =>
      match s with
      | String _ s' => test r s'
      | EmptyString => false
      end
  end.

(** [while ((match = r.exec(s)) !== null)] for a pattern with the [g]
    flag: the captures of the successive matches.  [skip] counts the
    characters of the last match still to step over.  Every pattern of the
    program starts with a literal, so no match is empty. *)
Fixpoint execAll (r : regex) (s : string) (skip : nat) : list captures :=
  match skip with
  | S n =>
      match s with
      | String _ s' => execAll r s' n
      | EmptyString => []
      end
  | O =>
      match attempt r s with
      | Some (rest, caps) =>
          caps ::
            match s with
            | String _ s' =>
                execAll r s' (String.length s - String.length rest - 1)
            | EmptyString => []
            end
      | None =>
          match s with
          | String _ s' => execAll r s' 0
          | EmptyString => []
          end
      end
  end.

(** A literal string. *)
Fixpoint lit (s : string) : regex :=
  match s with
  | EmptyString => Epsilon
  | String c s' => Seq (One (Char c)) (lit s')
  end.

(** A literal string under the [i] flag. *)
Fixpoint litI (s : string) : regex :=
  match s with
  | EmptyString => Epsilon
  | String c s' => Seq (One (CharI c)) (litI s')
  end.

Fixpoint seq (rs : list regex) : regex :=
  match rs with
  | [] => Epsilon
  | r :: rs' => Seq r (seq rs')
  end.

End RegExp.
Import RegExp.

(** ** Sets and plain objects *)

(** [new Set(arr)] spread back into an array: the first occurrence of each
    string, in order. *)
Fixpoint setOf (seen : list string) (arr : list string) : list string :=
  match arr with
  | [] => []
  | x :: rest =>
      if includes seen x then setOf seen rest
      else x :: setOf (x :: seen) rest
  end.

Definition uniq (arr : list string) : list string := setOf [] arr.

(** A plain object with string values: its own properties in creation
    order. *)
Definition JSObject : Type := list (string * string).

Fixpoint assign (o : JSObject) (k v : string) : JSObject :=
  match o with
  | [] => [(k, v)]
  | (k', v') :: rest =>
      if String.eqb k' k then (k', v) :: rest else (k', v') :: assign rest k v
  end.

(** [o[k] = v].  Writing a string to [__proto__] goes to the inherited
    setter, which ignores it. *)
Definition setProp (o : JSObject) (k v : string) : JSObject :=
  if String.eqb k "__proto__" then o else assign o k v.

(** An array index: a canonical numeric string below 2^32 - 1. *)
Definition arrayIndex (k : string) : option Z :=
  if startsWith k "0" && negb (String.eqb k "0") then None
  else
    match wholeDigits 10 k with
    | Some z => if z <? 4294967295 then Some z else None
    | None => None
    end.

Fixpoint insertIndex (e : Z * (string * string)) (l : list (Z * (string * string)))
    : list (Z * (string * string)) :=
  match l with
  | [] => [e]
  | e' :: rest => if fst e <? fst e' then e :: l else e' :: insertIndex e rest
  end.

(** [Object.entries(o)]: array indices in ascending order, then the other
    keys in creation order. *)
Definition Object_entries (o : JSObject) : list (string * string) :=
  let indexed :=
    flat_map (fun kv => match arrayIndex (fst kv) with
                        | Some z => [(z, kv)]
                        | None => []
                        end) o in
  let others :=
    filter (fun kv => match arrayIndex (fst kv) with
                      | Some _ => false
                      | None => true
                      end) o in
  map snd (fold_right insertIndex [] indexed) ++ others.

(** ** src/cuda.ts *)

Definition getDownloadUrl (version dir filename : string) : string :=
  ("https://developer.download.nvidia.com/compute/cuda/" ++ version ++ "/"
     ++ dir ++ "/" ++ filename)%string.

(** [arr[0]] read as a string. *)
Definition first (arr : list string) : string := hd "undefined" arr.

Definition normalizeCudaVersion (version : string) : string :=
  let parts := split "." version in
  let major := parseInt (first parts) (Some 10) in
  if isNaN major then version
  else if leInt major 10 then join "." (slice0 2 parts)
  else version.

(** [[0-9]+\.[0-9]+] and the optional [(?:\.[0-9]+)]. *)
Definition majorMinor : regex :=
  seq [Plus Digit; One (Char "."); Plus Digit].
Definition optComponent : regex :=
  Opt (seq [One (Char "."); Plus Digit]).

(** [/redistrib_([0-9]+\.[0-9]+(?:\.[0-9]+)?(?:\.[0-9]+)?)\.json/g] *)
Definition redistribPattern : regex :=
  seq [lit "redistrib_";
       Group 1 (seq [majorMinor; optComponent; optComponent]);
       lit ".json"].

(** [/CUDA Toolkit\s+(\d+\.\d+(?:\.\d+)?)/gi] *)
Definition pattern1 : regex :=
  seq [litI "CUDA Toolkit"; Plus Space;
       Group 1 (seq [majorMinor; optComponent])].

(** [/cuda-(\d+)-(\d+)(?:-(\d+))?-/g] *)
Definition pattern2 : regex :=
  seq [lit "cuda-"; Group 1 (Plus Digit); One (Char "-");
       Group 2 (Plus Digit);
       Opt (seq [One (Char "-"); Group 3 (Plus Digit)]);
       One (Char "-")].

(** [/>([0-9]+\.[0-9]+(?:\.[0-9]+)?)\//g] *)
Definition versionPattern : regex :=
  seq [One (Char ">"); Group 1 (seq [majorMinor; optComponent]);
       One (Char "/")].

(** A capture read as a string. *)
Definition group (m : captures) (n : nat) : string :=
  match capture m n with Some s => s | None => "undefined" end.

(** The truth value of a capture: it took part and is not empty. *)
Definition groupSet (m : captures) (n : nat) : bool :=
  match capture m n with
  | Some s => negb (String.eqb s EmptyString)
  | None => false
  end.

(** The linux patterns of [getCudaInstallerUrl]: [new RegExp] of the
    version, its dots escaped, between [cuda_] and the driver version.  The
    version stands for itself in the pattern as long as it holds no
    character that RegExp reads as syntax; digits and dots never are. *)
Definition linuxPattern (version suffix : string) : regex :=
  seq [lit "cuda_"; lit version; One (Char "_");
       Plus Digit; One (Char "."); Plus Digit;
       Opt (Group 1 (seq [One (Char "."); Plus Digit]));
       lit suffix].

(** The loop over [Object.entries(md5sums)] of the linux branch. *)
Fixpoint linuxLoop (pattern : regex) (filenames : list string) : option string :=
  match filenames with
  | [] => None
  | filename :: rest =>
      if test pattern filename then Some filename
      else linuxLoop pattern rest
  end.

(** The loop of the windows branch: the two variables it assigns. *)
Fixpoint windowsLoop (filenames : list string)
    (windowsFilename win10Filename : option string)
    : option string * option string :=
  match filenames with
  | [] => (windowsFilename, win10Filename)
  | filename :: rest =>
      if endsWith filename "_windows.exe" then (Some filename, win10Filename)
      else if endsWith filename "_win10.exe"
           then windowsLoop rest windowsFilename (Some filename)
           else windowsLoop rest windowsFilename win10Filename
  end.

(** Is a string, possibly [undefined], truthy? *)
Definition truthyString (s : option string) : bool :=
  match s with
  | Some t => negb (String.eqb t EmptyString)
  | None => false
  end.

(** [a || b] on strings that may be [undefined]. *)
Definition orElse (a b : option string) : option string :=
  if truthyString a then a else b.

(** The body of [findCudaVersion] once the catalog has been fetched. *)
Definition findCudaVersionIn (versions : list string) (inputVersion : string)
    : option string :=
  if String.eqb inputVersion "latest" then lastOf versions
  else if includes versions inputVersion then Some inputVersion
  else
    let prefix := (inputVersion ++ ".")%string in
    let matchingVersions := filter (fun v => startsWith v prefix) versions in
    if (0 <? List.length matchingVersions)%nat then lastOf matchingVersions
    else None.

(** The merge of [fetchAvailableCudaVersions] once the three listings have
    been fetched. *)
Definition mergeVersions (redistribVersions archiveVersions opensourceVersions
                            : list string) : list string :=
  let allVersions :=
    uniq (redistribVersions ++ archiveVersions ++ opensourceVersions
            ++ OLD_CUDA_VERSIONS) in
  let versions := sortVersions allVersions in
  filter (fun version =>
            geZero (compareVersions version START_SUPPORTED_CUDA_VERSION))
         versions.

(** The parsing loop of [fetchMd5sum]. *)
Definition parseMd5sum (text : string) : JSObject :=
  fold_left
    (fun md5sums line =>
       let fields := split " " line in
       let md5sum := first fields in
       let filename :=
         match nth_error fields 1 with Some f => f | None => "undefined" end in
       setProp md5sums filename md5sum)
    (split "010" text) [].

Section Network.

Variable client : HttpClient.
Variable table : LinkTable.

Definition getMd5sumUrl (version : string) : outcome string :=
  let major_version := parseInt (first (split "." version)) None in
  if geInt major_version 11 then
    Ok ("https://developer.download.nvidia.com/compute/cuda/" ++ version
          ++ "/docs/sidebar/md5sum.txt")%string
  else
    match lookupLink table version with
    | Some link => Ok (md5sumUrl link)
    | None => Throw TypeError
    end.

Definition fetchMd5sum (version : string) : Promise JSObject :=
  url <- lift (getMd5sumUrl version) ;;
  response <- httpGet client url ;;
  if negb (statusCode response =? 200) then
    throw (TransportFailure url (statusCode response) (statusMessage response))
  else
    ret (parseMd5sum (readBody response)).

Definition redistribUrl : string :=
  "https://developer.download.nvidia.com/compute/cuda/redist/".
Definition archiveUrl : string :=
  "https://developer.nvidia.com/cuda-toolkit-archive".
Definition opensourceUrl : string :=
  "https://developer.download.nvidia.com/compute/cuda/opensource/".

Definition fetchRedistribVersions : Promise (list string) :=
  response <- httpGet client redistribUrl ;;
  if negb (statusCode response =? 200) then
    throw (TransportFailure redistribUrl (statusCode response)
             (statusMessage response))
  else
    let html := readBody response in
    let versions :=
      uniq (map (fun m => group m 1) (execAll redistribPattern html 0)) in
    ret (sortVersions versions).

Definition fetchArchiveVersions : Promise (list string) :=
  response <- httpGet client archiveUrl ;;
  if negb (statusCode response =? 200) then
    throw (TransportFailure archiveUrl (statusCode response)
             (statusMessage response))
  else
    let html := readBody response in
    let found1 := map (fun m => group m 1) (execAll pattern1 html 0) in
    let found2 :=
      map (fun m =>
             if groupSet m 3
             then (group m 1 ++ "." ++ group m 2 ++ "." ++ group m 3)%string
             else (group m 1 ++ "." ++ group m 2)%string)
          (execAll pattern2 html 0) in
    ret (sortVersions (uniq (found1 ++ found2))).

Definition fetchOpensourceVersions : Promise (list string) :=
  response <- httpGet client opensourceUrl ;;
  if negb (statusCode response =? 200) then
    throw (TransportFailure opensourceUrl (statusCode response)
             (statusMessage response))
  else
    let html := readBody response in
    let versions :=
      uniq (map (fun m => normalizeCudaVersion (group m 1))
                (execAll versionPattern html 0)) in
    ret (sortVersions versions).

Definition fetchAvailableCudaVersions : Promise (list string) :=
  lists <- promiseAll3 fetchRedistribVersions fetchArchiveVersions
             fetchOpensourceVersions ;;
  let '(redistribVersions, archiveVersions, opensourceVersions) := lists in
  ret (mergeVersions redistribVersions archiveVersions opensourceVersions).

Definition findCudaVersion (inputVersion : string) : Promise (option string) :=
  versions <- fetchAvailableCudaVersions ;;
  ret (findCudaVersionIn versions inputVersion).

(** What [getCudaInstallerUrl] does from the md5sum fetch on. *)
Definition manifestUrl (version : string) (os : OS) (arch : Arch)
    : Promise string :=
  md5sums <- fetchMd5sum version ;;
  let filenames := map fst (Object_entries md5sums) in
  targetFilename <-
    (if OS_eqb os LINUX then
       pattern <-
         (if Arch_eqb arch X86_64 then
            ret (linuxPattern version "_linux.run")
          else if Arch_eqb arch ARM64_SBSA then
            ret (linuxPattern version "_linux_sbsa.run")
          else throw (UnsupportedArchitecture arch)) ;;
       ret (linuxLoop pattern filenames)
     else if OS_eqb os WINDOWS then
       let '(windowsFilename, win10Filename) :=
         windowsLoop filenames None None in
       ret (orElse windowsFilename win10Filename)
     else ret None) ;;
  match targetFilename with
  | Some filename =>
      if truthyString targetFilename
      then ret (getDownloadUrl version "local_installers" filename)
      else throw (NoMatchingInstaller version os arch)
  | None => throw (NoMatchingInstaller version os arch)
  end.

(** What [getCudaInstallerUrl] does after the table lookup: the two
    unguarded reads of the table for CUDA 10 and earlier, then the
    manifest. *)
Definition afterTable (version : string) (majorVersion : jsnum)
    (os : OS) (arch : Arch) : Promise string :=
  if leInt majorVersion 10 && OS_eqb os LINUX && Arch_eqb arch X86_64 then
    match lookupLink table version with
    | Some link => ret (linuxX86Url link)
    | None => throw TypeError
    end
  else if leInt majorVersion 10 && OS_eqb os WINDOWS then
    match lookupLink table version with
    | Some link => ret (windowsUrl link)
    | None => throw TypeError
    end
  else manifestUrl version os arch.

(** The guarded lookup: [if (version in CUDA_LINKS) { ... }]; [None] when
    no [return] is reached. *)
Definition tableUrl (version : string) (os : OS) (arch : Arch)
    : option string :=
  if inTable table version then
    match lookupLink table version with
    | Some link =>
        if OS_eqb os LINUX && Arch_eqb arch X86_64
           && truthyString (Some (linuxX86Url link))
        then Some (linuxX86Url link)
        else if OS_eqb os LINUX && Arch_eqb arch ARM64_SBSA
                && truthyString (Some (linuxArm64Url link))
        then Some (linuxArm64Url link)
        else if OS_eqb os WINDOWS && truthyString (Some (windowsUrl link))
        then Some (windowsUrl link)
        else None
    | None => None
    end
  else None.

Definition getCudaInstallerUrl (version : string) (os : OS) (arch : Arch)
    : Promise string :=
  if ltZero (compareVersions version START_SUPPORTED_CUDA_VERSION) then
    throw (UnsupportedVersion version)
  else
    let majorVersion := parseInt (first (split "." version)) None in
    if leInt majorVersion 10 && OS_eqb os LINUX && Arch_eqb arch ARM64_SBSA
    then throw (UnsupportedPlatformCombination version)
    else
      match tableUrl version os arch with
      | Some url => ret url
      | None => afterTable version majorVersion os arch
      end.

End Network.

(** ** Specification-level definitions *)

(** The order of two numbers, neither of them NaN. *)
Definition ncmp (x y : jsnum) : comparison :=
  match x, y with
  | Fin p, Fin q => (p ?= q)
  | Inf m, Inf n => if Bool.eqb m n then Eq else if m then Lt else Gt
  | Inf m, _ => if m then Lt else Gt
  | _, Inf n => if n then Gt else Lt
  | _, _ => Eq
  end.

(** The padded sequence of a version: component [i], zero past the end. *)
Definition seqOf (parts : list jsnum) (i : nat) : jsnum :=
  orZero (nth_error parts i).

Definition vkey (v : string) : nat -> jsnum :=
  seqOf (map Number (split "." v)).

(** Lexicographic order of two sequences on the indices [i .. i+n-1]. *)
Fixpoint lexCompare (f g : nat -> jsnum) (n i : nat) : comparison :=
  match n with
  | O => Eq
  | S n' =>
      match ncmp (f i) (g i) with
      | Eq => lexCompare f g n' (S i)
      | c => c
      end
  end.

(** [a] is not above [b] under the comparator. *)
Definition vle (a b : string) : Prop := leZero (compareVersions a b) = true.

(** A string of decimal digits, possibly empty, and the integer it
    denotes. *)
Fixpoint allDigits (s : string) : bool :=
  match s with
  | EmptyString => true
  | String c s' => isDigit c && allDigits s'
  end.

Fixpoint decimalFrom (acc : Z) (s : string) : Z :=
  match s with
  | EmptyString => acc
  | String c s' => decimalFrom (acc * 10 + (Z.of_nat (nat_of_ascii c) - 48)) s'
  end.

Definition decimal (s : string) : Z := decimalFrom 0 s.

(** A numeral: a non-empty string of digits. *)
Definition numeral (s : string) : bool :=
  allDigits s && negb (String.eqb s EmptyString).

(** The comparator in the words of the specification, on numbers: split on
    the dot, read each component as a number with anything non-numeric as
    zero, pad the shorter sequence with zeros, and return the difference of
    the first pair that differs. *)
Definition component (c : string) : jsnum := orZero (Some (Number c)).

Definition padWith {A} (zero : A) (n : nat) (xs : list A) : list A :=
  xs ++ repeat zero (n - List.length xs).

Fixpoint firstDiffering (pairs : list (jsnum * jsnum)) : jsnum :=
  match pairs with
  | [] => ofZ 0
  | (x, y) :: rest => if strictNe x y then sub x y else firstDiffering rest
  end.

Definition comparePadded (a b : string) : jsnum :=
  let xs := map component (split "." a) in
  let ys := map component (split "." b) in
  let n := Nat.max (List.length xs) (List.length ys) in
  firstDiffering (combine (padWith (ofZ 0) n xs) (padWith (ofZ 0) n ys)).

(** The same on integers, for versions whose components are strings of
    digits or are not numeric at all. *)
Definition componentValue (c : string) : Z :=
  if allDigits c then decimal c else 0.

Fixpoint firstDifference (pairs : list (Z * Z)) : Z :=
  match pairs with
  | [] => 0
  | (x, y) :: rest => if x =? y then firstDifference rest else x - y
  end.

Definition compareSpec (a b : string) : Z :=
  let xs := map componentValue (split "." a) in
  let ys := map componentValue (split "." b) in
  let n := Nat.max (List.length xs) (List.length ys) in
  firstDifference (combine (padWith 0 n xs) (padWith 0 n ys)).

(** The integers that a double holds exactly and tells apart from every
    other integer: those of magnitude below 2^53. *)
Definition safeInteger (z : Z) : bool := Z.abs z <? 2 ^ 53.

(** A version whose components all denote such integers. *)
Definition safeVersion (v : string) : bool :=
  forallb (fun c => safeInteger (componentValue c)) (split "." v).

Definition plainComponent (c : string) : bool :=
  allDigits c || isNaN (Number c).

Definition plainVersion (v : string) : bool :=
  forallb plainComponent (split "." v).

(** A version string of the data model: numerals joined by dots. *)
Definition versionString (v : string) : bool :=
  forallb numeral (split "." v).

(** The words a pattern matches, without regard to how the matcher
    searches for them. *)
Inductive Lang : regex -> string -> Prop :=
| Lang_epsilon : Lang Epsilon EmptyString
| Lang_one cs c : inCharset cs c = true -> Lang (One cs) (String c EmptyString)
| Lang_plus_one cs c :
    inCharset cs c = true -> Lang (Plus cs) (String c EmptyString)
| Lang_plus_more cs c w :
    inCharset cs c = true -> Lang (Plus cs) w -> Lang (Plus cs) (String c w)
| Lang_seq r1 r2 w1 w2 :
    Lang r1 w1 -> Lang r2 w2 -> Lang (Seq r1 r2) (w1 ++ w2)
| Lang_skip r : Lang (Opt r) EmptyString
| Lang_take r w : Lang r w -> Lang (Opt r) w
| Lang_group n r w : Lang r w -> Lang (Group n r) w.

(** [p] starts [s]; [p] ends [s]. *)
Definition hasPrefix (p s : string) : Prop := exists rest, s = (p ++ rest)%string.
Definition hasSuffix (p s : string) : Prop := exists front, s = (front ++ p)%string.

(** A bundled driver version: two or three numerals joined by dots. *)
Definition driverVersion (d : string) : Prop :=
  exists d1 d2 d3,
    d = (d1 ++ "." ++ d2 ++ d3)%string
    /\ numeral d1 = true /\ numeral d2 = true
    /\ (d3 = EmptyString
        \/ exists d', d3 = ("." ++ d')%string /\ numeral d' = true).

(** A filename holding [cuda_<version>_<driverversion><suffix>]. *)
Definition installerName (version suffix filename : string) : Prop :=
  exists front d back,
    filename = (front ++ "cuda_" ++ version ++ "_" ++ d ++ suffix ++ back)%string
    /\ driverVersion d.

(** Digits and dots only: every character of the version stands for itself
    in the pattern built from it. *)
Fixpoint versionChars (v : string) : bool :=
  match v with
  | EmptyString => true
  | String c v' => (isDigit c || Ascii.eqb c ".") && versionChars v'
  end.

(** The field of a table entry that answers a platform. *)
Definition linkField (link : CudaLink) (os : OS) (arch : Arch) : option string :=
  match os, arch with
  | LINUX, X86_64 => Some (linuxX86Url link)
  | LINUX, ARM64_SBSA => Some (linuxArm64Url link)
  | WINDOWS, _ => Some (windowsUrl link)
  | _, _ => None
  end.

(** The major version as [getCudaInstallerUrl] reads it. *)
Definition majorOf (version : string) : jsnum :=
  parseInt (first (split "." version)) None.

(** The URL of the checksum manifest of a release from 11 on. *)
Definition manifestOf (version : string) : string :=
  ("https://developer.download.nvidia.com/compute/cuda/" ++ version
     ++ "/docs/sidebar/md5sum.txt")%string.

(** The filenames of a manifest, in the order the loops visit them. *)
Definition filenamesOf (response : HttpResponse) : list string :=
  map fst (Object_entries (parseMd5sum (readBody response))).

(** ** Example inputs *)

(** An upstream that answers every listing with the same page. *)
Definition examplePage : HttpResponse :=
  mkResponse 200 "OK"
    "CUDA Toolkit 12.4.1 redistrib_11.2.0.json >9.2.148/ >10.2.89/ cuda-11-2-0-x".

Definition exampleListing : HttpClient := fun _ => Ok examplePage.

(** An upstream that answers with a checksum manifest of release 11.2.0. *)
Definition exampleChecksums : HttpResponse :=
  mkResponse 200 "OK"
    "aaa cuda_11.2.0_460.27.04_linux_sbsa.run
bbb cuda_11.2.0_460.27.04_linux.run
ccc cuda_11.2.0_460.27.04_win10.exe
ddd cuda_11.2.0_460.27.04_windows.exe
eee cuda_11.2.0_460.27.05_win10.exe".

Definition exampleManifest : HttpClient := fun _ => Ok exampleChecksums.

(** An upstream whose archive page names a full 10.x release. *)
Definition legacyPage : HttpResponse :=
  mkResponse 200 "OK" "<a href='/cuda-10-2-download-archive'>CUDA Toolkit 10.2.89</a>".

Definition legacyListing : HttpClient := fun _ => Ok legacyPage.

(** An upstream that answers nothing. *)
Definition offline : HttpClient := fun url => Throw (RequestRejected url).

(** A table with an entry whose linux installers are missing. *)
Definition exampleTable : LinkTable :=
  [("11.0", mkCudaLink "https://example.invalid/md5sum.txt" "" ""
              "https://example.invalid/cuda_11.0_windows.exe")].

(** ** Further specification-level definitions *)

(** Two versions the comparator does not tell apart. *)
Definition sameVersion (a b : string) : bool :=
  negb (ltZero (compareVersions a b)) && negb (gtZero (compareVersions a b)).

(** A string without a dot. *)
Fixpoint noDot (s : string) : bool :=
  match s with
  | EmptyString => true
  | String c s' => negb (Ascii.eqb c ".") && noDot s'
  end.

(** The two fields [fetchMd5sum] reads off a line of the manifest. *)
Definition lineChecksum (line : string) : string := first (split " " line).

Definition lineFilename (line : string) : string :=
  match nth_error (split " " line) 1 with
  | Some f => f
  | None => "undefined"
  end.

(** The capture groups of a pattern with what each one encloses, and the
    groups that take part in every match. *)
Fixpoint groupsOf (r : regex) : list (nat * regex) :=
  match r with
  | Group n r1 => (n, r1) :: groupsOf r1
  | Seq r1 r2 => groupsOf r1 ++ groupsOf r2
  | Opt r1 => groupsOf r1
  | _ => []
  end.

Fixpoint mandatory (r : regex) : list nat :=
  match r with
  | Group n r1 => n :: mandatory r1
  | Seq r1 r2 => mandatory r1 ++ mandatory r2
  | _ => []
  end.

(** A version of [lo] to [hi] numerals joined by dots. *)
Definition dotted (lo hi : nat) (v : string) : Prop :=
  exists ds, v = join "." ds /\ Forall (fun d => numeral d = true) ds
             /\ (lo <= List.length ds <= hi)%nat.

(** Is a key an array index, which [Object.entries] moves to the front? *)
Definition isIndexKey (k : string) : bool :=
  match arrayIndex k with Some _ => true | None => false end.

(** The filenames a manifest text names, line by line, without the one key
    a plain object cannot hold. *)
Definition namedFiles (text : string) : list string :=
  filter (fun f => negb (String.eqb f "__proto__"))
         (map lineFilename (split "010" text)).

(** The number of dot-separated components of a version. *)
Definition components (v : string) : nat := List.length (split "." v).

(** An upstream whose opensource listing names a full 10.x directory. *)
Definition opensourcePage : HttpResponse :=
  mkResponse 200 "OK" "<a href='10.2.89/'>10.2.89/</a> <a href='11.0.3/'>11.0.3/</a>".

Definition opensourceListing : HttpClient := fun _ => Ok opensourcePage.

(** The names of the members that every object inherits from
    [Object.prototype].  Looking one of them up in a table that has no such
    key of its own gives the inherited member, not [undefined]. *)
Definition objectPrototypeKeys : list string :=
  ["constructor"; "__defineGetter__"; "__defineSetter__"; "hasOwnProperty";
   "__lookupGetter__"; "__lookupSetter__"; "isPrototypeOf";
   "propertyIsEnumerable"; "toString"; "valueOf"; "__proto__";
   "toLocaleString"].

Definition inherited (key : string) : bool := includes objectPrototypeKeys key.

(** * Properties *)

(** ** Characters *)

Ltac ascii_cases c :=
  let b0 := fresh in let b1 := fresh in let b2 := fresh in let b3 := fresh in
  let b4 := fresh in let b5 := fresh in let b6 := fresh in let b7 := fresh in
  destruct c as [b0 b1 b2 b3 b4 b5 b6 b7];
  destruct b0, b1, b2, b3, b4, b5, b6, b7.

Lemma digit_facts (c : ascii) :
  isDigit c = true ->
  isWhite c = false
  /\ radixDigit 10 c = Some (Z.of_nat (nat_of_ascii c) - 48)
  /\ Ascii.eqb (upper c) "X" = false
  /\ Ascii.eqb (upper c) "O" = false
  /\ Ascii.eqb (upper c) "B" = false
  /\ Ascii.eqb (upper c) "E" = false
  /\ Ascii.eqb c "." = false
  /\ c <> "-"%char /\ c <> "+"%char /\ c <> "I"%char /\ c <> "."%char.
Proof.
  ascii_cases c; intro H; try discriminate H;
    repeat split; try reflexivity; discriminate.
Qed.

(** ** Numbers *)

Lemma Qred_inject_Z (z : Z) : Qred (inject_Z z) = inject_Z z.
Proof.
  unfold Qred, inject_Z. simpl Qnum. simpl Qden.
  pose proof (Z.ggcd_gcd z 1) as Hg.
  pose proof (Z.ggcd_correct_divisors z 1) as Hd.
  destruct (Z.ggcd z 1) as [g [aa bb]]. simpl in *.
  rewrite Z.gcd_1_r in Hg. subst g. destruct Hd as [Ha Hb].
  rewrite Z.mul_1_l in Ha, Hb. subst aa bb. reflexivity.
Qed.

(** *** Rounding to the nearest double *)

Lemma nearestEven_multiple (h d : Z) : 0 < d -> nearestEven (h * d) d = h.
Proof.
  intro Hd. unfold nearestEven.
  rewrite Z.div_mul, Z.mod_mul by lia. rewrite Z.mul_0_r.
  rewrite (proj2 (Z.compare_lt_iff 0 d) Hd). reflexivity.
Qed.

Lemma nearestEven_bounds (n d : Z) :
  n / d <= nearestEven n d <= n / d + 1.
Proof.
  unfold nearestEven.
  destruct (2 * (n mod d) ?= d); [destruct (Z.even (n / d))| |]; lia.
Qed.

Lemma nearestDouble_small (n : Z) :
  0 <= n < 2 ^ 53 -> nearestDouble n 1 = n.
Proof.
  intro H. unfold nearestDouble. rewrite Z.div_1_r.
  rewrite (proj2 (Z.ltb_lt n (2 ^ 53))) by apply H.
  rewrite <- (Z.mul_1_r n) at 1. apply nearestEven_multiple. lia.
Qed.

(** From 2^53 on, the result is a significand of 53 bits, or 2^53 itself,
    times the spacing of the doubles around [n]. *)
Lemma nearestDouble_large (n : Z) :
  2 ^ 53 <= n ->
  exists h,
    1 <= Z.log2 n - 52
    /\ nearestDouble n 1 = h * 2 ^ (Z.log2 n - 52)
    /\ 2 ^ 52 <= h <= 2 ^ 53.
Proof.
  intro H.
  assert (P : 0 < n) by (pose proof (Z.pow_pos_nonneg 2 53); lia).
  assert (L : 53 <= Z.log2 n) by (apply Z.log2_le_pow2; [exact P|exact H]).
  destruct (Z.log2_spec n P) as [Lo Hi].
  unfold nearestDouble. rewrite Z.div_1_r.
  rewrite (proj2 (Z.ltb_ge n (2 ^ 53))) by exact H.
  set (j := Z.log2 n - 52) in *.
  assert (J : 0 < 2 ^ j) by (apply Z.pow_pos_nonneg; lia).
  replace (Z.log2 n) with (52 + j) in Lo by lia.
  replace (Z.succ (Z.log2 n)) with (53 + j) in Hi by lia.
  rewrite Z.pow_add_r in Lo, Hi by lia.
  rewrite Z.shiftr_div_pow2 by lia.
  assert (Q1 : 2 ^ 52 <= n / 2 ^ j)
    by (apply Z.div_le_lower_bound; [exact J|lia]).
  assert (Q2 : n / 2 ^ j < 2 ^ 53)
    by (apply Z.div_lt_upper_bound; [exact J|lia]).
  eexists. split; [lia|]. split; [apply Z.shiftl_mul_pow2; lia|].
  destruct (match _ ?= _ with Lt => false | Gt => true | Eq => _ end); lia.
Qed.

Lemma nearestDouble_pos (n : Z) : 0 < n -> 0 < nearestDouble n 1.
Proof.
  intro P. destruct (Z.lt_ge_cases n (2 ^ 53)) as [S|L].
  - rewrite nearestDouble_small; lia.
  - destruct (nearestDouble_large n L) as (h & J & -> & H52 & _).
    assert (0 < 2 ^ (Z.log2 n - 52)) by (apply Z.pow_pos_nonneg; lia).
    assert (0 < 2 ^ 52) by (apply Z.pow_pos_nonneg; lia).
    apply Z.mul_pos_pos; lia.
Qed.

Lemma nearestDouble_lower (n k : Z) :
  53 <= k -> 2 ^ k <= n -> 2 ^ k <= nearestDouble n 1.
Proof.
  intros K H.
  assert (M : 2 ^ 53 <= 2 ^ k) by (apply Z.pow_le_mono_r; lia).
  assert (P : 0 < n) by (pose proof (Z.pow_pos_nonneg 2 53); lia).
  destruct (nearestDouble_large n ltac:(lia)) as (h & J & -> & H52 & _).
  assert (L : k <= Z.log2 n) by (apply Z.log2_le_pow2; [exact P|exact H]).
  set (j := Z.log2 n - 52) in *.
  assert (E : 2 ^ k <= 2 ^ (52 + j)) by (apply Z.pow_le_mono_r; lia).
  rewrite Z.pow_add_r in E by lia.
  assert (0 < 2 ^ j) by (apply Z.pow_pos_nonneg; lia).
  nia.
Qed.

(** A significand of 53 bits times a power of two is its own nearest
    double. *)
Lemma nearestDouble_multiple (a j : Z) :
  2 ^ 52 <= a < 2 ^ 53 -> 1 <= j -> nearestDouble (a * 2 ^ j) 1 = a * 2 ^ j.
Proof.
  intros A J.
  assert (P : 0 < 2 ^ j) by (apply Z.pow_pos_nonneg; lia).
  assert (P52 : 0 < 2 ^ 52) by (apply Z.pow_pos_nonneg; lia).
  assert (La : Z.log2 a = 52)
    by (apply Z.log2_unique; [lia|exact A]).
  assert (L : Z.log2 (a * 2 ^ j) - 52 = j)
    by (rewrite Z.log2_mul_pow2 by lia; lia).
  assert (B : 2 ^ 53 <= a * 2 ^ j).
  { change 53 with (52 + 1). rewrite Z.pow_add_r by lia.
    assert (2 ^ 1 <= 2 ^ j) by (apply Z.pow_le_mono_r; lia). nia. }
  unfold nearestDouble. rewrite Z.div_1_r.
  rewrite (proj2 (Z.ltb_ge _ _) B), L.
  rewrite Z.shiftr_div_pow2, Z.div_mul by lia.
  rewrite !Z.shiftl_mul_pow2 by lia.
  rewrite Z.sub_diag, Z.mul_1_l.
  assert (H : 0 < 2 ^ (j - 1)) by (apply Z.pow_pos_nonneg; lia).
  rewrite (proj2 (Z.compare_lt_iff 0 _) H).
  reflexivity.
Qed.

(** A magnitude of 53 significant bits is its own nearest double. *)
Lemma nearestDouble_exact (h k : Z) :
  0 <= h <= 2 ^ 53 -> 0 <= k -> nearestDouble (h * 2 ^ k) 1 = h * 2 ^ k.
Proof.
  intros Hh Hk.
  assert (K : 0 < 2 ^ k) by (apply Z.pow_pos_nonneg; lia).
  destruct (Z.lt_ge_cases (h * 2 ^ k) (2 ^ 53)) as [S|L].
  { apply nearestDouble_small. split; [apply Z.mul_nonneg_nonneg; lia|exact S]. }
  assert (P : 0 < h).
  { destruct (Z.eq_dec h 0) as [->|]; [|lia].
    rewrite Z.mul_0_l in L. pose proof (Z.pow_pos_nonneg 2 53). lia. }
  destruct (Z.log2_spec h P) as [Lo Hi].
  pose proof (Z.log2_nonneg h) as L0.
  set (l := Z.log2 h) in *.
  assert (Ll : l <= 53).
  { destruct (Z.eq_dec h (2 ^ 53)) as [E|N].
    - unfold l. rewrite E, Z.log2_pow2; lia.
    - assert (l < 53) by (apply Z.log2_lt_pow2; lia). lia. }
  (* [h * 2^k] is [a * 2^j] for the normalised significand [a]. *)
  destruct (Z.eq_dec l 53) as [E53|N53].
  - assert (E : h = 2 ^ 53).
    { rewrite E53 in Lo. lia. }
    subst h.
    replace (2 ^ 53 * 2 ^ k) with (2 ^ 52 * 2 ^ (k + 1))
      by (rewrite <- !Z.pow_add_r by lia; f_equal; lia).
    apply nearestDouble_multiple; [|lia].
    split; [lia|]. apply Z.pow_lt_mono_r; lia.
  - set (j := k + l - 52).
    assert (J : 1 <= j).
    { assert (B : Z.log2 (h * 2 ^ k) = k + l)
        by (rewrite Z.log2_mul_pow2 by lia; reflexivity).
      assert (53 <= Z.log2 (h * 2 ^ k)).
      { apply Z.log2_le_pow2; [|exact L]. apply Z.mul_pos_pos; lia. }
      lia. }
    assert (E : h * 2 ^ k = h * 2 ^ (52 - l) * 2 ^ j).
    { rewrite <- Z.mul_assoc, <- Z.pow_add_r by lia. do 2 f_equal. lia. }
    rewrite E. apply nearestDouble_multiple; [|exact J].
    assert (S1 : 2 ^ 52 = 2 ^ l * 2 ^ (52 - l))
      by (rewrite <- Z.pow_add_r by lia; f_equal; lia).
    assert (S2 : 2 ^ 53 = 2 ^ Z.succ l * 2 ^ (52 - l))
      by (rewrite <- Z.pow_add_r by lia; f_equal; lia).
    assert (0 < 2 ^ (52 - l)) by (apply Z.pow_pos_nonneg; lia).
    rewrite S1, S2. split; nia.
Qed.

(** Rounding is idempotent. *)
Lemma nearestDouble_idem (n : Z) :
  0 <= n -> nearestDouble (nearestDouble n 1) 1 = nearestDouble n 1.
Proof.
  intro P. destruct (Z.lt_ge_cases n (2 ^ 53)) as [S|L].
  - rewrite (nearestDouble_small n) by lia. apply nearestDouble_small. lia.
  - destruct (nearestDouble_large n L) as (h & J & -> & H).
    apply nearestDouble_exact; [|lia].
    pose proof (Z.pow_pos_nonneg 2 52). lia.
Qed.

Lemma nearestDouble_nonneg (n : Z) : 0 <= n -> 0 <= nearestDouble n 1.
Proof.
  intro P. destruct (Z.eq_dec n 0) as [->|N]; [reflexivity|].
  pose proof (nearestDouble_pos n). lia.
Qed.

Lemma round_zero : round 0 1 = Fin 0.
Proof. reflexivity. Qed.

Lemma round_not_NaN (n d : Z) : round n d <> NaN.
Proof. unfold round. destruct (infinite <=? _); discriminate. Qed.

Lemma sign_round (n : Z) : sign (round n 1) = Some (n ?= 0).
Proof.
  destruct (Z.compare_spec n 0) as [->|N|P].
  - reflexivity.
  - unfold round. rewrite (proj2 (Z.ltb_lt n 0) N).
    pose proof (nearestDouble_pos (Z.abs n) ltac:(lia)) as M.
    destruct (infinite <=? _); cbn [sign]; [reflexivity|].
    f_equal. apply Z.compare_lt_iff. lia.
  - unfold round. rewrite (proj2 (Z.ltb_ge n 0)) by lia.
    pose proof (nearestDouble_pos (Z.abs n) ltac:(lia)) as M.
    destruct (infinite <=? _); cbn [sign]; [reflexivity|].
    f_equal. apply Z.compare_gt_iff. lia.
Qed.

(** A double is its own rounding. *)
Lemma round_idem (n m : Z) : round n 1 = Fin m -> round m 1 = Fin m.
Proof.
  unfold round.
  pose proof (nearestDouble_idem (Z.abs n) (Z.abs_nonneg n)) as I.
  pose proof (nearestDouble_nonneg (Z.abs n) (Z.abs_nonneg n)) as P.
  set (r := nearestDouble (Z.abs n) 1) in *.
  destruct (infinite <=? r) eqn:O; [discriminate|].
  intros [= <-].
  assert (A : Z.abs (if n <? 0 then - r else r) = r)
    by (destruct (n <? 0); lia).
  rewrite A, I, O. f_equal.
  destruct (n <? 0) eqn:N.
  - destruct (Z.ltb_spec (- r) 0); [reflexivity|lia].
  - destruct (Z.ltb_spec r 0); [lia|reflexivity].
Qed.

(** Rounding commutes with negation. *)
Lemma round_opp (n : Z) : round (- n) 1 = sub (Fin 0) (round n 1).
Proof.
  destruct (Z.eq_dec n 0) as [->|N]; [reflexivity|].
  destruct (round n 1) as [|s|m] eqn:E.
  - exfalso. exact (round_not_NaN _ _ E).
  - cbn [sub]. unfold round in *. rewrite Z.abs_opp.
    destruct (infinite <=? _); [|discriminate E].
    injection E as <-. f_equal.
    destruct (Z.ltb_spec n 0), (Z.ltb_spec (- n) 0); try reflexivity; lia.
  - cbn [sub]. replace (0 - m) with (- m) by lia.
    pose proof (round_idem _ _ E) as I.
    assert (M : round (- m) 1 = Fin (- m)).
    { unfold round in I |- *. rewrite Z.abs_opp.
      destruct (infinite <=? _); [discriminate I|].
      injection I as I. f_equal.
      destruct (Z.ltb_spec m 0), (Z.ltb_spec (- m) 0); lia. }
    rewrite M. unfold round in *. rewrite Z.abs_opp.
    destruct (infinite <=? _); [discriminate E|].
    injection E as <-. f_equal.
    destruct (Z.ltb_spec n 0), (Z.ltb_spec (- n) 0); lia.
Qed.

Lemma scale_eq : scale = 2 ^ 1074.
Proof. vm_compute. reflexivity. Qed.

Lemma infinite_eq : infinite = 2 ^ 2098.
Proof. vm_compute. reflexivity. Qed.

Lemma scale_pos : 0 < scale.
Proof. reflexivity. Qed.

Lemma compare_scale (a b : Z) : (a * scale ?= b * scale) = (a ?= b).
Proof.
  pose proof scale_pos as S.
  destruct (Z.compare_spec a b) as [->|L|G].
  - apply Z.compare_refl.
  - apply Z.compare_lt_iff. nia.
  - apply Z.compare_gt_iff. nia.
Qed.

(** The integers below 2^53 in magnitude are doubles. *)
Lemma ofZ_exact (z : Z) : Z.abs z < 2 ^ 53 -> ofZ z = Fin (z * scale).
Proof.
  intro B. unfold ofZ, round. pose proof scale_pos as S.
  assert (A : Z.abs (z * scale) = Z.abs z * 2 ^ 1074)
    by (rewrite Z.abs_mul, <- scale_eq; f_equal; lia).
  rewrite A, nearestDouble_exact by lia.
  assert (O : Z.abs z * 2 ^ 1074 < infinite).
  { rewrite infinite_eq. change 2098 with (1024 + 1074).
    rewrite Z.pow_add_r by lia.
    assert (2 ^ 53 <= 2 ^ 1024) by (apply Z.pow_le_mono_r; lia).
    assert (0 < 2 ^ 1074) by (apply Z.pow_pos_nonneg; lia).
    apply Z.mul_lt_mono_pos_r; lia. }
  rewrite (proj2 (Z.leb_gt _ _) O). f_equal. rewrite <- scale_eq.
  destruct (Z.ltb_spec (z * scale) 0); nia.
Qed.

Lemma ofZ_zero : ofZ 0 = Fin 0.
Proof. vm_compute. reflexivity. Qed.

(** Rounding at work: a tie goes to the even significand, the least
    positive double is one unit, and what lies beyond the largest double
    is infinite. *)
Example Number_rounds :
  Number "9007199254740993" = ofZ 9007199254740992
  /\ Number "9007199254740995" = ofZ 9007199254740996
  /\ parseInt "9007199254740993" None = ofZ 9007199254740992
  /\ Number "0.5" = Fin (2 ^ 1073)
  /\ Number "5e-324" = Fin 1
  /\ Number "2e-324" = ofZ 0
  /\ Number "1.7976931348623157e308" = Fin ((2 ^ 53 - 1) * 2 ^ 2045)
  /\ Number "1e309" = Inf false
  /\ sub (Number "1e308") (Number "-1e308") = Inf false.
Proof. repeat split; vm_compute; reflexivity. Qed.

Lemma ofZ_not_NaN (z : Z) : ofZ z <> NaN.
Proof. apply round_not_NaN. Qed.

Lemma isNaN_ofZ (z : Z) : isNaN (ofZ z) = false.
Proof.
  pose proof (ofZ_not_NaN z). destruct (ofZ z); try reflexivity. congruence.
Qed.

Lemma sign_ofZ (z : Z) : sign (ofZ z) = Some (z ?= 0).
Proof.
  unfold ofZ. rewrite sign_round. f_equal.
  exact (compare_scale z 0).
Qed.

Lemma truthy_sign (x : jsnum) :
  truthy x = match sign x with Some Eq | None => false | _ => true end.
Proof.
  destruct x as [|[]|n]; cbn [truthy sign]; try reflexivity.
  destruct (Z.eqb_spec n 0) as [->|N]; [reflexivity|].
  destruct (Z.compare_spec n 0); try reflexivity. contradiction.
Qed.

Lemma truthy_ofZ (z : Z) : truthy (ofZ z) = negb (z =? 0).
Proof.
  rewrite truthy_sign, sign_ofZ.
  destruct (Z.eqb_spec z 0) as [->|N]; [reflexivity|].
  destruct (Z.compare_spec z 0); try reflexivity. contradiction.
Qed.

Lemma orZero_ofZ (z : Z) : orZero (Some (ofZ z)) = ofZ z.
Proof.
  unfold orZero. rewrite truthy_ofZ.
  destruct (Z.eqb_spec z 0) as [->|]; reflexivity.
Qed.

Lemma orZero_not_NaN (x : option jsnum) : orZero x <> NaN.
Proof.
  destruct x as [[| |n]|]; cbn [orZero truthy]; try discriminate.
  destruct (negb (n =? 0)); discriminate.
Qed.

Lemma ncmp_refl (x : jsnum) : ncmp x x = Eq.
Proof.
  destruct x as [|[]|n]; simpl; try reflexivity. apply Z.compare_refl.
Qed.

Lemma ncmp_antisym (x y : jsnum) : ncmp y x = CompOpp (ncmp x y).
Proof.
  destruct x as [|[]|p], y as [|[]|q]; simpl; try reflexivity.
  apply Z.compare_antisym.
Qed.

Lemma ncmp_eq_l (x y z : jsnum) :
  x <> NaN -> y <> NaN -> z <> NaN ->
  ncmp x y = Eq -> ncmp x z = ncmp y z.
Proof.
  intros Hx Hy Hz.
  destruct x as [|[]|p], y as [|[]|q], z as [|[]|r]; simpl;
    try congruence.
  intro H. apply Z.compare_eq in H. congruence.
Qed.

Lemma ncmp_eq_r (x y z : jsnum) :
  x <> NaN -> y <> NaN -> z <> NaN ->
  ncmp y z = Eq -> ncmp x y = ncmp x z.
Proof.
  intros Hx Hy Hz.
  destruct x as [|[]|p], y as [|[]|q], z as [|[]|r]; simpl;
    try congruence.
  intro H. apply Z.compare_eq in H. congruence.
Qed.

Lemma ncmp_lt_trans (x y z : jsnum) :
  x <> NaN -> y <> NaN -> z <> NaN ->
  ncmp x y = Lt -> ncmp y z = Lt -> ncmp x z = Lt.
Proof.
  intros Hx Hy Hz.
  destruct x as [|[]|p], y as [|[]|q], z as [|[]|r]; simpl;
    try congruence.
  rewrite !Z.compare_lt_iff. lia.
Qed.

Lemma strictNe_ncmp (x y : jsnum) :
  x <> NaN -> y <> NaN ->
  strictNe x y = match ncmp x y with Eq => false | _ => true end.
Proof.
  intros Hx Hy.
  destruct x as [|[]|p], y as [|[]|q]; simpl; try congruence.
  destruct (Z.eqb_spec p q) as [->|N].
  - rewrite Z.compare_refl. reflexivity.
  - destruct (Z.compare_spec p q); try reflexivity. contradiction.
Qed.

Lemma sign_sub_Fin (p q : Z) : sign (sub (Fin p) (Fin q)) = Some (p ?= q).
Proof. cbn [sub]. rewrite sign_round, <- Z.compare_sub. reflexivity. Qed.

Lemma sign_sub (x y : jsnum) :
  x <> NaN -> y <> NaN -> strictNe x y = true ->
  sign (sub x y) = Some (ncmp x y).
Proof.
  intros Hx Hy.
  destruct x as [|[]|p], y as [|[]|q];
    try (cbn [sub sign ncmp strictNe Bool.eqb negb]; congruence).
  intros _. apply sign_sub_Fin.
Qed.

(** The difference with a finite number is never NaN, whatever differs. *)
Lemma sign_sub_finite (x : jsnum) (q : Z) :
  x <> NaN -> sign (sub x (Fin q)) = Some (ncmp x (Fin q)).
Proof.
  intro Hx. destruct x as [|[]|p]; try congruence; try reflexivity.
  apply sign_sub_Fin.
Qed.

(** *** Integers against the safe ones

    An integer of any size, once rounded, still compares with an integer
    below 2^53 as it did before. *)
Lemma ncmp_ofZ (z n : Z) :
  Z.abs n < 2 ^ 53 -> ncmp (ofZ z) (ofZ n) = (z ?= n).
Proof.
  intro B. rewrite (ofZ_exact n B). pose proof scale_pos as S.
  destruct (Z.lt_ge_cases (Z.abs z) (2 ^ 53)) as [Sm|L].
  { rewrite (ofZ_exact z Sm). cbn [ncmp]. apply compare_scale. }
  assert (T : 2 ^ (53 + 1074) <= Z.abs (z * scale)).
  { rewrite Z.pow_add_r, Z.abs_mul, <- scale_eq by lia.
    rewrite (Z.abs_eq scale) by lia. apply Z.mul_le_mono_nonneg_r; lia. }
  apply nearestDouble_lower in T; [|lia].
  rewrite Z.pow_add_r, <- scale_eq in T by lia.
  assert (N : Z.abs n * scale < 2 ^ 53 * scale)
    by (apply Z.mul_lt_mono_pos_r; lia).
  unfold ofZ, round. set (m := nearestDouble _ 1) in *.
  destruct (Z.ltb_spec (z * scale) 0) as [Neg|Pos].
  - assert (z < n) by nia.
    rewrite (proj2 (Z.compare_lt_iff z n)) by assumption.
    destruct (infinite <=? m); cbn [ncmp]; [reflexivity|].
    apply Z.compare_lt_iff. nia.
  - assert (n < z) by nia.
    rewrite (proj2 (Z.compare_gt_iff z n)) by assumption.
    destruct (infinite <=? m); cbn [ncmp]; [reflexivity|].
    apply Z.compare_gt_iff. nia.
Qed.

Lemma strictNe_ofZ (x y : Z) :
  Z.abs y < 2 ^ 53 -> strictNe (ofZ x) (ofZ y) = negb (x =? y).
Proof.
  intro B. rewrite strictNe_ncmp, ncmp_ofZ by (exact B || apply ofZ_not_NaN).
  destruct (Z.eqb_spec x y) as [->|N].
  - rewrite Z.compare_refl. reflexivity.
  - destruct (Z.compare_spec x y); try reflexivity. contradiction.
Qed.

Lemma sign_sub_ofZ (x y : Z) :
  Z.abs y < 2 ^ 53 -> sign (sub (ofZ x) (ofZ y)) = Some (x ?= y).
Proof.
  intro B. rewrite <- (ncmp_ofZ x y B). rewrite (ofZ_exact y B).
  apply sign_sub_finite, ofZ_not_NaN.
Qed.

Lemma sub_ofZ (x y : Z) :
  Z.abs x < 2 ^ 53 -> Z.abs y < 2 ^ 53 -> sub (ofZ x) (ofZ y) = ofZ (x - y).
Proof.
  intros Bx By. rewrite (ofZ_exact x Bx), (ofZ_exact y By).
  cbn [sub]. unfold ofZ. f_equal. ring.
Qed.

Lemma leInt_ofZ (z n : Z) : Z.abs n < 2 ^ 53 -> leInt (ofZ z) n = (z <=? n).
Proof.
  intro B. unfold leInt, leZero. rewrite (sign_sub_ofZ z n B).
  destruct (Z.compare_spec z n), (Z.leb_spec z n); try reflexivity; lia.
Qed.

Lemma geInt_ofZ (z n : Z) : Z.abs n < 2 ^ 53 -> geInt (ofZ z) n = (n <=? z).
Proof.
  intro B. unfold geInt, geZero. rewrite (sign_sub_ofZ z n B).
  destruct (Z.compare_spec z n), (Z.leb_spec n z); try reflexivity; lia.
Qed.

(** ** The comparator is a total preorder *)

Lemma seqOf_not_NaN (parts : list jsnum) (i : nat) : seqOf parts i <> NaN.
Proof. apply orZero_not_NaN. Qed.

Lemma seqOf_past_end (parts : list jsnum) (i : nat) :
  (List.length parts <= i)%nat -> seqOf parts i = ofZ 0.
Proof.
  intro H. unfold seqOf. apply nth_error_None in H. rewrite H. reflexivity.
Qed.

Lemma compareLoop_sign (xs ys : list jsnum) (n i : nat) :
  sign (compareLoop xs ys n i) = Some (lexCompare (seqOf xs) (seqOf ys) n i).
Proof.
  revert i. induction n as [|n IH]; intro i.
  - reflexivity.
  - cbn [compareLoop lexCompare]. fold (seqOf xs i) (seqOf ys i).
    pose proof (seqOf_not_NaN xs i) as Hx.
    pose proof (seqOf_not_NaN ys i) as Hy.
    pose proof (strictNe_ncmp _ _ Hx Hy) as Hne.
    destruct (ncmp (seqOf xs i) (seqOf ys i)) eqn:E; rewrite Hne.
    + apply IH.
    + rewrite sign_sub, E by assumption. reflexivity.
    + rewrite sign_sub, E by assumption. reflexivity.
Qed.

Lemma lexCompare_zeros (f g : nat -> jsnum) (m n i : nat) :
  (forall j, (m <= j)%nat -> f j = ofZ 0 /\ g j = ofZ 0) ->
  (m <= i)%nat -> lexCompare f g n i = Eq.
Proof.
  intro Hz. revert i. induction n as [|n IH]; intros i Hi.
  - reflexivity.
  - cbn [lexCompare]. destruct (Hz i Hi) as [-> ->].
    rewrite ncmp_refl. apply IH. lia.
Qed.

Lemma lexCompare_extend (f g : nat -> jsnum) (m n k i : nat) :
  (forall j, (m <= j)%nat -> f j = ofZ 0 /\ g j = ofZ 0) ->
  (m <= i + n)%nat ->
  lexCompare f g (n + k) i = lexCompare f g n i.
Proof.
  intro Hz. revert i. induction n as [|n IH]; intros i Hi.
  - cbn [Nat.add lexCompare]. eapply lexCompare_zeros; eauto. lia.
  - cbn [Nat.add lexCompare]. destruct (ncmp (f i) (g i)); try reflexivity.
    apply IH. lia.
Qed.

Lemma lexCompare_antisym (f g : nat -> jsnum) (n i : nat) :
  lexCompare g f n i = CompOpp (lexCompare f g n i).
Proof.
  revert i. induction n as [|n IH]; intro i.
  - reflexivity.
  - cbn [lexCompare]. rewrite (ncmp_antisym (f i) (g i)).
    destruct (ncmp (f i) (g i)); cbn [CompOpp]; auto.
Qed.

Lemma lexCompare_le_trans (f g h : nat -> jsnum) (n i : nat) :
  (forall j, f j <> NaN) -> (forall j, g j <> NaN) -> (forall j, h j <> NaN) ->
  lexCompare f g n i <> Gt -> lexCompare g h n i <> Gt ->
  lexCompare f h n i <> Gt.
Proof.
  intros Hf Hg Hh. revert i. induction n as [|n IH]; intro i.
  - intros _ _. discriminate.
  - cbn [lexCompare].
    destruct (ncmp (f i) (g i)) eqn:E1.
    + rewrite (ncmp_eq_l _ _ (h i) (Hf i) (Hg i) (Hh i) E1).
      destruct (ncmp (g i) (h i)); auto.
    + destruct (ncmp (g i) (h i)) eqn:E2.
      * rewrite <- (ncmp_eq_r (f i) _ _ (Hf i) (Hg i) (Hh i) E2), E1. auto.
      * rewrite (ncmp_lt_trans _ _ _ (Hf i) (Hg i) (Hh i) E1 E2). auto.
      * intros _ H. exfalso. apply H. reflexivity.
    + intros H _. exfalso. apply H. reflexivity.
Qed.

Lemma vkey_not_NaN (v : string) (j : nat) : vkey v j <> NaN.
Proof. apply seqOf_not_NaN. Qed.

(** The sign of [compareVersions a b] is the lexicographic order of the two
    padded sequences, read up to any index past both ends. *)
Lemma compareVersions_sign (a b : string) (N : nat) :
  (List.length (split "." a) <= N)%nat ->
  (List.length (split "." b) <= N)%nat ->
  sign (compareVersions a b) = Some (lexCompare (vkey a) (vkey b) N 0).
Proof.
  intros Ha Hb. unfold compareVersions. rewrite compareLoop_sign.
  fold (vkey a) (vkey b). rewrite !length_map.
  set (m := Nat.max _ _).
  replace N with (m + (N - m))%nat by lia.
  f_equal. symmetry. apply (lexCompare_extend _ _ m).
  - intros j Hj. split; apply seqOf_past_end; rewrite length_map; lia.
  - lia.
Qed.

Lemma compareVersions_not_NaN (a b : string) : compareVersions a b <> NaN.
Proof.
  intro H.
  pose proof (compareVersions_sign a b _ (Nat.le_max_l _ _) (Nat.le_max_r _ _)) as S.
  rewrite H in S. discriminate S.
Qed.

Lemma vle_iff (a b : string) (N : nat) :
  (List.length (split "." a) <= N)%nat ->
  (List.length (split "." b) <= N)%nat ->
  vle a b <-> lexCompare (vkey a) (vkey b) N 0 <> Gt.
Proof.
  intros Ha Hb. unfold vle, leZero.
  rewrite (compareVersions_sign a b N Ha Hb).
  destruct (lexCompare _ _ N 0); split; congruence.
Qed.

Lemma vle_trans (a b c : string) : vle a b -> vle b c -> vle a c.
Proof.
  set (N := Nat.max (List.length (split "." a))
              (Nat.max (List.length (split "." b)) (List.length (split "." c)))).
  assert (Ha : (List.length (split "." a) <= N)%nat) by lia.
  assert (Hb : (List.length (split "." b) <= N)%nat) by lia.
  assert (Hc : (List.length (split "." c) <= N)%nat) by lia.
  rewrite (vle_iff a b N Ha Hb), (vle_iff b c N Hb Hc), (vle_iff a c N Ha Hc).
  apply lexCompare_le_trans; apply vkey_not_NaN.
Qed.

Lemma vle_refl (a : string) : vle a a.
Proof.
  rewrite (vle_iff a a _ (Nat.le_refl _) (Nat.le_refl _)).
  pose proof (lexCompare_antisym (vkey a) (vkey a)
                (List.length (split "." a)) 0) as H.
  destruct (lexCompare _ _ _ _); discriminate.
Qed.

(** [compareVersions] is antisymmetric in sign. *)
Lemma gtZero_swap (a b : string) :
  gtZero (compareVersions a b) = ltZero (compareVersions b a).
Proof.
  set (N := Nat.max (List.length (split "." a)) (List.length (split "." b))).
  assert (Ha : (List.length (split "." a) <= N)%nat) by lia.
  assert (Hb : (List.length (split "." b) <= N)%nat) by lia.
  unfold gtZero, ltZero.
  rewrite (compareVersions_sign a b N Ha Hb), (compareVersions_sign b a N Hb Ha).
  rewrite (lexCompare_antisym (vkey a) (vkey b)).
  destruct (lexCompare _ _ N 0); reflexivity.
Qed.

Lemma not_gtZero_vle (a b : string) :
  gtZero (compareVersions a b) = false -> vle a b.
Proof.
  pose proof (compareVersions_sign a b _ (Nat.le_max_l _ _) (Nat.le_max_r _ _)) as S.
  unfold gtZero, vle, leZero. rewrite S.
  destruct (lexCompare _ _ _ _); congruence.
Qed.

Lemma gtZero_vle (a b : string) :
  gtZero (compareVersions a b) = true -> vle b a.
Proof.
  rewrite gtZero_swap. unfold ltZero, vle, leZero.
  destruct (sign (compareVersions b a)) as [[]|]; congruence.
Qed.

(** ** Sorting *)

Section Sorting.

Variable cmp : string -> string -> jsnum.
Let le (a b : string) : Prop := leZero (cmp a b) = true.

Hypothesis le_trans : forall a b c, le a b -> le b c -> le a c.
Hypothesis le_of_not_gt : forall a b, gtZero (cmp a b) = false -> le a b.
Hypothesis le_of_gt : forall a b, gtZero (cmp a b) = true -> le b a.

Lemma sortInsert_perm (x : string) (l : list string) :
  Permutation (sortInsert cmp x l) (x :: l).
Proof.
  induction l as [|y l IH]; cbn [sortInsert].
  - reflexivity.
  - destruct (gtZero (cmp x y)).
    + rewrite IH. apply perm_swap.
    + reflexivity.
Qed.

Lemma arraySort_perm (l : list string) : Permutation (arraySort cmp l) l.
Proof.
  induction l as [|x l IH]; cbn [arraySort fold_right].
  - reflexivity.
  - fold (arraySort cmp l). rewrite sortInsert_perm. now constructor.
Qed.

Lemma sortInsert_sorted (x : string) (l : list string) :
  StronglySorted le l -> StronglySorted le (sortInsert cmp x l).
Proof.
  induction l as [|y l IH]; cbn [sortInsert]; intro Hs.
  - repeat constructor.
  - apply StronglySorted_inv in Hs. destruct Hs as [Hl Hy].
    destruct (gtZero (cmp x y)) eqn:E.
    + constructor; [auto|].
      eapply Permutation_Forall; [symmetry; apply sortInsert_perm|].
      constructor; [apply le_of_gt; exact E | exact Hy].
    + pose proof (le_of_not_gt _ _ E) as Hxy.
      constructor; [constructor; assumption|].
      constructor; [exact Hxy|].
      eapply Forall_impl; [|exact Hy]. intros z Hz. eapply le_trans; eauto.
Qed.

Lemma arraySort_sorted (l : list string) : StronglySorted le (arraySort cmp l).
Proof.
  induction l as [|x l IH]; cbn [arraySort fold_right].
  - constructor.
  - apply sortInsert_sorted. exact IH.
Qed.

End Sorting.

Lemma sortVersions_perm (l : list string) : Permutation (sortVersions l) l.
Proof. apply arraySort_perm. Qed.

Lemma sortVersions_sorted (l : list string) : StronglySorted vle (sortVersions l).
Proof.
  apply (arraySort_sorted compareVersions vle_trans not_gtZero_vle gtZero_vle).
Qed.

(** ** Numerals *)

Lemma takeDigits_allDigits (s : string) :
  allDigits s = true ->
  exists ds, takeDigits 10 s = (ds, EmptyString)
             /\ (forall acc, fold_left (fun a d => a * 10 + d) ds acc
                             = decimalFrom acc s)
             /\ (s <> EmptyString -> ds <> []).
Proof.
  induction s as [|c s IH]; cbn [allDigits takeDigits].
  - intros _. exists []. repeat split; auto.
  - intro H. apply andb_true_iff in H. destruct H as [Hc Hs].
    destruct (IH Hs) as (ds & E & V & _).
    destruct (digit_facts c Hc) as (_ & R & _).
    rewrite R, E. eexists. split; [reflexivity|]. split.
    + intro acc. cbn [fold_left decimalFrom]. apply V.
    + intros _. discriminate.
Qed.

Lemma trimEnd_allDigits (s : string) : allDigits s = true -> trimEnd s = s.
Proof.
  induction s as [|c s IH]; cbn [allDigits trimEnd]; [reflexivity|].
  intro H. apply andb_true_iff in H. destruct H as [Hc Hs].
  destruct (digit_facts c Hc) as (W & _). rewrite W, (IH Hs). reflexivity.
Qed.

Lemma numeral_cons (s : string) :
  numeral s = true ->
  exists c s', s = String c s' /\ isDigit c = true /\ allDigits s' = true.
Proof.
  unfold numeral. destruct s as [|c s']; cbn [allDigits]; [discriminate|].
  intro H. apply andb_true_iff in H. destruct H as [H _].
  apply andb_true_iff in H. destruct H. eauto.
Qed.

Lemma Number_numeral (s : string) :
  numeral s = true -> Number s = ofZ (decimal s).
Proof.
  intro Hn. destruct (numeral_cons s Hn) as (c & s' & -> & Hc & Hs').
  assert (Hall : allDigits (String c s') = true)
    by (cbn [allDigits]; rewrite Hc, Hs'; reflexivity).
  destruct (digit_facts c Hc)
    as (W & R & _ & _ & _ & _ & Hdot & Hminus & Hplus & HI & _).
  unfold Number.
  replace (trimStart (String c s')) with (String c s')
    by (cbn [trimStart]; rewrite W; reflexivity).
  rewrite (trimEnd_allDigits _ Hall).
  cbn [String.eqb].
  assert (ND : nonDecimal (String c s') = None).
  { destruct s' as [|d s'']; [reflexivity|].
    cbn [allDigits] in Hs'. apply andb_true_iff in Hs'. destruct Hs' as [Hd _].
    destruct (digit_facts d Hd) as (_ & _ & X & O & B & _).
    cbn [nonDecimal]. rewrite X, O, B. destruct (negb _); reflexivity. }
  rewrite ND.
  assert (SS : stripSign (String c s') = (false, String c s')).
  { cbn [stripSign].
    destruct (Ascii.eqb_spec c "-"); [contradiction|].
    destruct (Ascii.eqb_spec c "+"); [contradiction|]. reflexivity. }
  rewrite SS.
  assert (NI : String.eqb (String c s') "Infinity" = false).
  { cbn [String.eqb]. destruct (Ascii.eqb_spec c "I"); [contradiction|reflexivity]. }
  rewrite NI.
  destruct (takeDigits_allDigits _ Hall) as (ds & E & V & NE).
  unfold unsignedDecimal. rewrite E. rewrite app_nil_r.
  destruct ds as [|d ds]; [exfalso; apply NE; [discriminate|reflexivity]|].
  cbn [exponentPart List.length Z.of_nat Z.sub Z.opp Z.add Qpower].
  assert (Q : Qred (inject_Z (digitsValue 10 (d :: ds)) * 1)
              = inject_Z (decimal (String c s'))).
  { rewrite <- (Qred_inject_Z (decimal (String c s'))).
    apply Qred_complete. unfold digitsValue, decimal. rewrite V. ring. }
  rewrite Q. reflexivity.
Qed.

Lemma parseInt_numeral (s : string) (radix : option Z) :
  numeral s = true -> radix = None \/ radix = Some 10 ->
  parseInt s radix = ofZ (decimal s).
Proof.
  intros Hn Hr. destruct (numeral_cons s Hn) as (c & s' & -> & Hc & Hs').
  assert (Hall : allDigits (String c s') = true)
    by (cbn [allDigits]; rewrite Hc, Hs'; reflexivity).
  destruct (digit_facts c Hc)
    as (W & R & _ & _ & _ & _ & Hdot & Hminus & Hplus & HI & _).
  unfold parseInt.
  replace (trimStart (String c s')) with (String c s')
    by (cbn [trimStart]; rewrite W; reflexivity).
  assert (SS : stripSign (String c s') = (false, String c s')).
  { cbn [stripSign].
    destruct (Ascii.eqb_spec c "-"); [contradiction|].
    destruct (Ascii.eqb_spec c "+"); [contradiction|]. reflexivity. }
  rewrite SS.
  destruct (takeDigits_allDigits _ Hall) as (ds & E & V & NE).
  assert (X : match s' with
              | String d _ => Ascii.eqb (upper d) "X" = false
              | EmptyString => True
              end).
  { destruct s' as [|d s'']; [exact I|].
    cbn [allDigits] in Hs'. apply andb_true_iff in Hs'. destruct Hs' as [Hd _].
    destruct (digit_facts d Hd) as (_ & _ & X & _). exact X. }
  destruct Hr as [-> | ->]; cbv beta iota zeta;
    change (0 =? 0) with true; change (10 =? 0) with false;
    change (0 <? 2) with true; change (10 <? 2) with false;
    change (36 <? 10) with false; cbn [negb andb orb];
    (destruct s' as [|d s'']; [|rewrite X, ?andb_false_r]);
    cbv beta iota zeta; rewrite E; cbn [fst];
    (destruct ds as [|z ds]; [exfalso; apply NE; [discriminate|reflexivity]|]);
    unfold digitsValue; rewrite V; reflexivity.
Qed.

Lemma Number_empty : Number EmptyString = ofZ 0.
Proof. reflexivity. Qed.

Lemma component_plain (c : string) :
  plainComponent c = true -> component c = ofZ (componentValue c).
Proof.
  unfold plainComponent, component, componentValue. intro H.
  destruct (allDigits c) eqn:A.
  - destruct (String.eqb_spec c EmptyString) as [->|NE].
    + reflexivity.
    + rewrite Number_numeral, orZero_ofZ; [reflexivity|].
      unfold numeral. rewrite A. apply String.eqb_neq in NE. rewrite NE. reflexivity.
  - cbn [orb] in H. destruct (Number c); try discriminate H. reflexivity.
Qed.

(** ** The comparator against its specification *)

Lemma compareLoop_tl (xs ys : list jsnum) (n i : nat) :
  compareLoop xs ys n (S i) = compareLoop (tl xs) (tl ys) n i.
Proof.
  revert i. induction n as [|n IH]; intro i; cbn [compareLoop]; [reflexivity|].
  assert (T : forall l : list jsnum, nth_error l (S i) = nth_error (tl l) i)
    by (intros [|? ?]; [destruct i|]; reflexivity).
  rewrite !T, IH. reflexivity.
Qed.

Lemma padWith_cons {A} (zero x : A) (n : nat) (xs : list A) :
  padWith zero (S n) (x :: xs) = x :: padWith zero n xs.
Proof. reflexivity. Qed.

Lemma padWith_nil {A} (zero : A) (n : nat) :
  padWith zero (S n) [] = zero :: padWith zero n [].
Proof. unfold padWith. cbn [List.length app]. rewrite !Nat.sub_0_r. reflexivity. Qed.

Lemma compareLoop_padded (n : nat) :
  forall xs ys : list jsnum,
    Nat.max (List.length xs) (List.length ys) = n ->
    compareLoop xs ys n 0
    = firstDiffering (combine (padWith (ofZ 0) n (map (fun x => orZero (Some x)) xs))
                              (padWith (ofZ 0) n (map (fun y => orZero (Some y)) ys))).
Proof.
  induction n as [|n IH]; intros xs ys Hn.
  - destruct xs, ys; try discriminate Hn. reflexivity.
  - cbn [compareLoop]. rewrite compareLoop_tl.
    destruct xs as [|x xs], ys as [|y ys]; cbn [List.length] in Hn;
      try discriminate Hn; cbn [map tl nth_error];
      rewrite ?padWith_cons, ?padWith_nil; cbn [combine firstDiffering];
      cbn [orZero];
      match goal with |- (if ?c then _ else _) = _ => destruct c end;
      try reflexivity.
    + rewrite (IH [] ys) by (cbn [List.length]; lia). reflexivity.
    + rewrite (IH xs []) by (cbn [List.length]; lia). reflexivity.
    + rewrite (IH xs ys) by lia. reflexivity.
Qed.

Lemma compareVersions_padded (a b : string) :
  compareVersions a b = comparePadded a b.
Proof.
  unfold compareVersions, comparePadded.
  rewrite compareLoop_padded by reflexivity.
  unfold component. rewrite !map_map, !length_map. reflexivity.
Qed.

Lemma padWith_map {A B} (f : A -> B) (zero : A) (n : nat) (xs : list A) :
  padWith (f zero) n (map f xs) = map f (padWith zero n xs).
Proof.
  unfold padWith. rewrite map_app, length_map, map_repeat. reflexivity.
Qed.

Lemma firstDiffering_ofZ (pairs : list (Z * Z)) :
  Forall (fun p => safeInteger (fst p) = true /\ safeInteger (snd p) = true)
    pairs ->
  firstDiffering (map (fun p => (ofZ (fst p), ofZ (snd p))) pairs)
  = ofZ (firstDifference pairs).
Proof.
  induction 1 as [|[x y] rest [Sx Sy] _ IH];
    cbn [map firstDiffering firstDifference fst snd] in *.
  - reflexivity.
  - apply Z.ltb_lt in Sx, Sy. rewrite strictNe_ofZ by exact Sy.
    destruct (x =? y); cbn [negb]; [exact IH|apply sub_ofZ; assumption].
Qed.

Lemma Forall_padWith {A} (P : A -> Prop) (zero : A) (n : nat) (xs : list A) :
  P zero -> Forall P xs -> Forall P (padWith zero n xs).
Proof.
  intros Hz Hx. unfold padWith. apply Forall_app. split; [exact Hx|].
  apply Forall_forall. intros x Hin. apply repeat_spec in Hin. subst x. exact Hz.
Qed.

Lemma Forall_combine {A B} (P : A -> Prop) (Q : B -> Prop)
    (xs : list A) (ys : list B) :
  Forall P xs -> Forall Q ys ->
  Forall (fun p => P (fst p) /\ Q (snd p)) (combine xs ys).
Proof.
  intro Hx. revert ys. induction Hx as [|x xs Px _ IH]; intros ys Hy.
  - constructor.
  - destruct Hy as [|y ys Qy Hy]; cbn [combine]; constructor; auto.
Qed.

Lemma safeVersion_components (v : string) :
  safeVersion v = true ->
  Forall (fun z => safeInteger z = true) (map componentValue (split "." v)).
Proof.
  unfold safeVersion. intro H. rewrite forallb_forall in H.
  apply Forall_forall. intros z Hz. apply in_map_iff in Hz.
  destruct Hz as (c & <- & Hc). apply H, Hc.
Qed.

Lemma combine_map_ofZ (xs ys : list Z) :
  combine (map ofZ xs) (map ofZ ys)
  = map (fun p => (ofZ (fst p), ofZ (snd p))) (combine xs ys).
Proof.
  revert ys. induction xs as [|x xs IH]; intros [|y ys]; cbn [map combine fst snd];
    try reflexivity.
  rewrite IH. reflexivity.
Qed.

Lemma components_plain (v : string) :
  plainVersion v = true ->
  map component (split "." v) = map ofZ (map componentValue (split "." v)).
Proof.
  unfold plainVersion. intro H. rewrite map_map.
  apply map_ext_in. intros c Hc. apply component_plain.
  rewrite forallb_forall in H. auto.
Qed.

(** On safe components the comparator is the integer comparison. *)
Lemma compareVersions_plain (a b : string) :
  plainVersion a = true -> plainVersion b = true ->
  safeVersion a = true -> safeVersion b = true ->
  compareVersions a b = ofZ (compareSpec a b).
Proof.
  intros Ha Hb Sa Sb. rewrite compareVersions_padded.
  unfold comparePadded, compareSpec.
  rewrite (components_plain a Ha), (components_plain b Hb).
  rewrite !length_map.
  change (ofZ 0) with (ofZ 0%Z).
  rewrite !(padWith_map ofZ 0), combine_map_ofZ.
  apply firstDiffering_ofZ.
  apply (Forall_combine (fun z => safeInteger z = true)
           (fun z => safeInteger z = true));
    (apply Forall_padWith; [reflexivity|apply safeVersion_components; assumption]).
Qed.

(** ** Sets *)

Lemma includes_In (arr : list string) (x : string) :
  includes arr x = true <-> In x arr.
Proof.
  unfold includes. rewrite existsb_exists. split.
  - intros (y & Hy & E). apply String.eqb_eq in E. now subst.
  - intro H. exists x. split; [exact H|apply String.eqb_refl].
Qed.

Lemma setOf_In (arr seen : list string) (x : string) :
  In x (setOf seen arr) <-> In x arr /\ ~ In x seen.
Proof.
  revert seen. induction arr as [|y arr IH]; intro seen; cbn [setOf In].
  - tauto.
  - destruct (includes seen y) eqn:E.
    + apply includes_In in E. rewrite IH. split.
      * tauto.
      * intros [[->|H] N]; [contradiction|tauto].
    + assert (N : ~ In y seen) by (rewrite <- includes_In, E; discriminate).
      cbn [In]. rewrite IH. cbn [In]. split.
      * intros [->|[H M]]; [tauto|]. split; [tauto|]. tauto.
      * intros [[->|H] M]; [tauto|].
        destruct (string_dec y x) as [->|D]; [tauto|]. right. tauto.
Qed.

Lemma setOf_NoDup (arr seen : list string) : NoDup (setOf seen arr).
Proof.
  revert seen. induction arr as [|y arr IH]; intro seen; cbn [setOf].
  - constructor.
  - destruct (includes seen y); [apply IH|].
    constructor; [|apply IH].
    rewrite setOf_In. cbn [In]. tauto.
Qed.

Lemma uniq_In (arr : list string) (x : string) : In x (uniq arr) <-> In x arr.
Proof. unfold uniq. rewrite setOf_In. cbn [In]. tauto. Qed.

Lemma uniq_NoDup (arr : list string) : NoDup (uniq arr).
Proof. apply setOf_NoDup. Qed.

(** ** The merge of the three listings *)

Lemma StronglySorted_filter {A} (R : A -> A -> Prop) (f : A -> bool) (l : list A) :
  StronglySorted R l -> StronglySorted R (filter f l).
Proof.
  induction 1 as [|x l Hs IH Hx]; cbn [filter].
  - constructor.
  - destruct (f x); [|exact IH].
    constructor; [exact IH|].
    rewrite Forall_forall in *. intros y Hy. apply filter_In in Hy. apply Hx, Hy.
Qed.

Lemma geZero_not_ltZero (a b : string) :
  geZero (compareVersions a b) = negb (ltZero (compareVersions a b)).
Proof.
  pose proof (compareVersions_not_NaN a b) as H.
  unfold geZero, ltZero. destruct (compareVersions a b) as [|[]|q]; cbn [sign];
    try reflexivity; [contradiction|]. destruct (q ?= 0); reflexivity.
Qed.

Lemma mergeVersions_In (rv av ov : list string) (v : string) :
  In v (mergeVersions rv av ov)
  <-> (In v rv \/ In v av \/ In v ov \/ In v OLD_CUDA_VERSIONS)
      /\ geZero (compareVersions v START_SUPPORTED_CUDA_VERSION) = true.
Proof.
  unfold mergeVersions. rewrite filter_In.
  assert (P : In v (sortVersions (uniq (rv ++ av ++ ov ++ OLD_CUDA_VERSIONS)))
              <-> In v (uniq (rv ++ av ++ ov ++ OLD_CUDA_VERSIONS))).
  { split; apply Permutation_in;
      [apply sortVersions_perm | symmetry; apply sortVersions_perm]. }
  rewrite P, uniq_In, !in_app_iff. tauto.
Qed.

Lemma mergeVersions_NoDup (rv av ov : list string) :
  NoDup (mergeVersions rv av ov).
Proof.
  unfold mergeVersions. apply NoDup_filter.
  eapply Permutation_NoDup; [symmetry; apply sortVersions_perm|].
  apply uniq_NoDup.
Qed.

Lemma mergeVersions_sorted (rv av ov : list string) :
  StronglySorted vle (mergeVersions rv av ov).
Proof.
  unfold mergeVersions. apply StronglySorted_filter, sortVersions_sorted.
Qed.

Lemma mergeVersions_supported (rv av ov : list string) :
  Forall (fun v => ltZero (compareVersions v START_SUPPORTED_CUDA_VERSION) = false)
         (mergeVersions rv av ov).
Proof.
  rewrite Forall_forall. intros v Hv. apply mergeVersions_In in Hv.
  destruct Hv as [_ Hv]. rewrite geZero_not_ltZero in Hv.
  destruct (ltZero _); [discriminate|reflexivity].
Qed.

Lemma mergeVersions_legacy (rv av ov : list string) (v : string) :
  In v OLD_CUDA_VERSIONS -> In v (mergeVersions rv av ov).
Proof.
  intro H. apply mergeVersions_In. split; [tauto|].
  cbn [OLD_CUDA_VERSIONS In] in H.
  repeat (destruct H as [<-|H]; [vm_compute; reflexivity|]). contradiction.
Qed.

(** ** The three fetches *)

Section Fetches.

Variable client : HttpClient.
Variables redistrib archive opensource : HttpResponse.
Hypothesis redistrib_ok :
  client redistribUrl = Ok redistrib /\ statusCode redistrib = 200.
Hypothesis archive_ok :
  client archiveUrl = Ok archive /\ statusCode archive = 200.
Hypothesis opensource_ok :
  client opensourceUrl = Ok opensource /\ statusCode opensource = 200.

Lemma fetchRedistribVersions_ok :
  exists rv, forall log,
    fetchRedistribVersions client log = (Ok rv, log ++ [redistribUrl]).
Proof.
  destruct redistrib_ok as [E S]. eexists. intro log.
  unfold fetchRedistribVersions, bind, httpGet. rewrite E, S. reflexivity.
Qed.

Lemma fetchArchiveVersions_ok :
  exists av, forall log,
    fetchArchiveVersions client log = (Ok av, log ++ [archiveUrl]).
Proof.
  destruct archive_ok as [E S]. eexists. intro log.
  unfold fetchArchiveVersions, bind, httpGet. rewrite E, S. reflexivity.
Qed.

Lemma fetchOpensourceVersions_ok :
  exists ov, forall log,
    fetchOpensourceVersions client log = (Ok ov, log ++ [opensourceUrl]).
Proof.
  destruct opensource_ok as [E S]. eexists. intro log.
  unfold fetchOpensourceVersions, bind, httpGet. rewrite E, S. reflexivity.
Qed.

Lemma fetchAvailableCudaVersions_ok :
  exists rv av ov,
    run (fetchRedistribVersions client) = (Ok rv, [redistribUrl])
    /\ run (fetchArchiveVersions client) = (Ok av, [archiveUrl])
    /\ run (fetchOpensourceVersions client) = (Ok ov, [opensourceUrl])
    /\ run (fetchAvailableCudaVersions client)
       = (Ok (mergeVersions rv av ov),
          [redistribUrl; archiveUrl; opensourceUrl]).
Proof.
  destruct fetchRedistribVersions_ok as [rv Hr].
  destruct fetchArchiveVersions_ok as [av Ha].
  destruct fetchOpensourceVersions_ok as [ov Ho].
  exists rv, av, ov. unfold run. rewrite Hr, Ha, Ho.
  repeat split; try reflexivity.
  unfold fetchAvailableCudaVersions, bind, promiseAll3.
  rewrite Hr, Ha, Ho. reflexivity.
Qed.

End Fetches.

(** ** Strings *)

Lemma append_nil_r (s : string) : (s ++ "")%string = s.
Proof. induction s as [|c s IH]; cbn; [reflexivity|now rewrite IH]. Qed.

Lemma append_assoc (a b c : string) :
  ((a ++ b) ++ c)%string = (a ++ (b ++ c))%string.
Proof. induction a as [|x a IH]; cbn; [reflexivity|now rewrite IH]. Qed.

Lemma length_append (a b : string) :
  String.length (a ++ b) = (String.length a + String.length b)%nat.
Proof. induction a as [|x a IH]; cbn; [reflexivity|now rewrite IH]. Qed.

Lemma startsWith_hasPrefix (s p : string) :
  startsWith s p = true <-> hasPrefix p s.
Proof.
  unfold startsWith, hasPrefix. revert s.
  induction p as [|c p IH]; intro s.
  - destruct s; cbn; split; eauto.
  - destruct s as [|d s]; cbn [String.prefix].
    + split; [discriminate|]. intros [rest H]. discriminate H.
    + destruct (ascii_dec c d) as [->|N].
      * rewrite IH. split; intros [rest H]; exists rest; cbn in *; congruence.
      * split; [discriminate|]. intros [rest H]. cbn in H. congruence.
Qed.

Lemma endsWith_hasSuffix (s p : string) :
  endsWith s p = true <-> hasSuffix p s.
Proof.
  unfold hasSuffix. induction s as [|c s IH]; cbn [endsWith].
  - destruct (Nat.eqb_spec (String.length "") (String.length p)) as [E|N].
    + destruct p; [|discriminate E]. split; [exists ""; reflexivity|reflexivity].
    + split; [discriminate|]. intros [front H].
      destruct front, p; try discriminate H. exfalso. apply N. reflexivity.
  - destruct (Nat.eqb_spec (String.length (String c s)) (String.length p)) as [E|N].
    + rewrite String.eqb_eq. split.
      * intros <-. exists "". reflexivity.
      * intros [front H]. rewrite H in E. rewrite length_append in E.
        destruct front; [exact H|]. cbn in E. lia.
    + rewrite IH. split.
      * intros [front ->]. exists (String c front). reflexivity.
      * intros [front H]. destruct front as [|d front].
        -- cbn in H. subst p. exfalso. apply N. reflexivity.
        -- cbn in H. injection H as _ ->. eauto.
Qed.

(** ** The matcher against the language of a pattern *)

Lemma plusMatch_sound (cs : charset) (s : string) (k : string -> option state)
    (st : state) :
  plusMatch cs s k = Some st ->
  exists w s', s = (w ++ s')%string /\ Lang (Plus cs) w /\ k s' = Some st.
Proof.
  induction s as [|c s IH]; cbn [plusMatch]; [discriminate|].
  destruct (inCharset cs c) eqn:C; [|discriminate].
  destruct (plusMatch cs s k) as [st'|] eqn:E.
  - intros [= ->]. destruct (IH eq_refl) as (w & s' & -> & L & K).
    exists (String c w), s'. repeat split; auto using Lang_plus_more.
  - intro K. exists (String c ""), s. repeat split; auto using Lang_plus_one.
Qed.

Lemma matchAt_sound (r : regex) :
  forall s caps k st,
    matchAt r s caps k = Some st ->
    exists w s' caps', s = (w ++ s')%string /\ Lang r w /\ k s' caps' = Some st.
Proof.
  induction r as [cs|cs|r1 IH1 r2 IH2|r1 IH1|n r1 IH1|]; intros s caps k st;
    cbn [matchAt].
  - destruct s as [|c s]; [discriminate|].
    destruct (inCharset cs c) eqn:C; [|discriminate].
    intro K. exists (String c ""), s, caps. repeat split; auto using Lang_one.
  - intro H. apply plusMatch_sound in H. destruct H as (w & s' & -> & L & K).
    exists w, s', caps. auto.
  - intro H. apply IH1 in H. destruct H as (w1 & s1 & caps1 & -> & L1 & H).
    apply IH2 in H. destruct H as (w2 & s2 & caps2 & -> & L2 & K).
    exists (w1 ++ w2)%string, s2, caps2. rewrite append_assoc.
    repeat split; auto using Lang_seq.
  - destruct (matchAt r1 s caps k) as [st'|] eqn:E.
    + intros [= ->]. apply IH1 in E. destruct E as (w & s' & caps' & -> & L & K).
      exists w, s', caps'. repeat split; auto using Lang_take.
    + intro K. exists "", s, caps. repeat split; auto using Lang_skip.
  - intro H. apply IH1 in H. destruct H as (w & s' & caps' & -> & L & K).
    eexists w, s', _. repeat split; eauto using Lang_group.
  - intro K. exists "", s, caps. repeat split; auto using Lang_epsilon.
Qed.

Lemma matchAt_complete (r : regex) (w : string) :
  Lang r w ->
  forall s' caps k,
    (forall caps', k s' caps' <> None) ->
    matchAt r (w ++ s') caps k <> None.
Proof.
  induction 1 as [|cs c C|cs c C|cs c w C L IH|r1 r2 w1 w2 L1 IH1 L2 IH2
                  |r|r w L IH|n r w L IH]; intros s' caps k K; cbn [matchAt].
  - apply K.
  - cbn. rewrite C. apply K.
  - cbn. rewrite C. destruct (plusMatch cs s' _); [discriminate|apply K].
  - cbn [append plusMatch]. rewrite C.
    specialize (IH s' caps k K). cbn [matchAt] in IH.
    destruct (plusMatch cs (w ++ s') _); [discriminate|contradiction].
  - rewrite append_assoc. apply IH1. intro caps'. apply IH2. exact K.
  - cbn [append]. destruct (matchAt r s' caps k); [discriminate|apply K].
  - specialize (IH s' caps k K).
    destruct (matchAt r (w ++ s') caps k); [discriminate|contradiction].
  - apply IH. intro caps'. apply K.
Qed.

Lemma attempt_iff (r : regex) (s : string) :
  attempt r s <> None <-> exists w s', s = (w ++ s')%string /\ Lang r w.
Proof.
  unfold attempt. split.
  - destruct (matchAt r s [] _) as [st|] eqn:E; [|congruence].
    intros _. apply matchAt_sound in E. destruct E as (w & s' & _ & -> & L & _).
    eauto.
  - intros (w & s' & -> & L). apply matchAt_complete; [exact L|]. discriminate.
Qed.

Lemma test_iff (r : regex) (s : string) :
  test r s = true
  <-> exists front w back, s = (front ++ w ++ back)%string /\ Lang r w.
Proof.
  induction s as [|c s IH]; cbn [test].
  - destruct (attempt r "") as [st|] eqn:E.
    + split; [intros _|reflexivity].
      destruct (proj1 (attempt_iff r "")) as (w & s' & H & L); [congruence|].
      exists "", w, s'. auto.
    + split; [discriminate|]. intros (front & w & back & H & L).
      destruct front; [|discriminate H]. cbn in H.
      exfalso.
      apply (proj2 (attempt_iff r "")); [exists w, back; auto|exact E].
  - destruct (attempt r (String c s)) as [st|] eqn:E.
    + split; [intros _|reflexivity].
      destruct (proj1 (attempt_iff r (String c s))) as (w & s' & H & L);
        [congruence|].
      exists "", w, s'. auto.
    + rewrite IH. split.
      * intros (front & w & back & -> & L). exists (String c front), w, back. auto.
      * intros (front & w & back & H & L). destruct front as [|d front].
        -- cbn in H. exfalso.
           apply (proj2 (attempt_iff r (String c s))); [exists w, back; auto|exact E].
        -- cbn in H. injection H as _ ->. eauto.
Qed.

(** ** The language of the linux patterns *)

Lemma Lang_seq_inv (r1 r2 : regex) (w : string) :
  Lang (Seq r1 r2) w ->
  exists w1 w2, w = (w1 ++ w2)%string /\ Lang r1 w1 /\ Lang r2 w2.
Proof. inversion 1; subst; eauto. Qed.

Lemma Lang_char_inv (c : ascii) (w : string) :
  Lang (One (Char c)) w -> w = String c EmptyString.
Proof.
  inversion 1 as [|cs d C| | | | | |]; subst. cbn in C.
  apply Ascii.eqb_eq in C. now subst.
Qed.

Lemma Lang_char (c : ascii) : Lang (One (Char c)) (String c EmptyString).
Proof. constructor. cbn. apply Ascii.eqb_refl. Qed.

Lemma Lang_epsilon_inv (w : string) : Lang Epsilon w -> w = EmptyString.
Proof. inversion 1; reflexivity. Qed.

Lemma Lang_lit_inv (s w : string) : Lang (lit s) w -> w = s.
Proof.
  revert w. induction s as [|c s IH]; intros w H; cbn [lit] in H.
  - now apply Lang_epsilon_inv.
  - apply Lang_seq_inv in H. destruct H as (w1 & w2 & -> & H1 & H2).
    apply Lang_char_inv in H1. apply IH in H2. subst. reflexivity.
Qed.

Lemma Lang_lit (s : string) : Lang (lit s) s.
Proof.
  induction s as [|c s IH]; cbn [lit].
  - constructor.
  - change (String c s) with (String c "" ++ s)%string.
    constructor; [apply Lang_char|exact IH].
Qed.

Lemma Lang_digits_inv (w : string) : Lang (Plus Digit) w -> numeral w = true.
Proof.
  intro H. remember (Plus Digit) as r eqn:R.
  induction H as [|cs c C|cs c C|cs c w C L IH| | | |]; try discriminate R;
    injection R as ->; cbn in C; unfold numeral; cbn [allDigits String.eqb].
  - rewrite C. reflexivity.
  - specialize (IH eq_refl). unfold numeral in IH.
    apply andb_true_iff in IH. destruct IH as [A _]. rewrite C, A. reflexivity.
Qed.

Lemma Lang_digits (w : string) : numeral w = true -> Lang (Plus Digit) w.
Proof.
  unfold numeral. induction w as [|c w IH]; cbn [allDigits String.eqb];
    [discriminate|].
  intro H. apply andb_true_iff in H. destruct H as [H _].
  apply andb_true_iff in H. destruct H as [C A].
  destruct w as [|d w].
  - now constructor.
  - apply Lang_plus_more; [exact C|]. apply IH. rewrite A. reflexivity.
Qed.

Lemma Lang_opt_inv (r : regex) (w : string) :
  Lang (Opt r) w -> w = EmptyString \/ Lang r w.
Proof. inversion 1; subst; auto. Qed.

Lemma Lang_group_inv (n : nat) (r : regex) (w : string) :
  Lang (Group n r) w -> Lang r w.
Proof. inversion 1; subst; auto. Qed.

Ltac peel H w Hw :=
  let t := fresh "t" in
  apply Lang_seq_inv in H; destruct H as (w & t & -> & Hw & H).

Lemma Lang_linuxPattern (version suffix w : string) :
  Lang (linuxPattern version suffix) w
  <-> exists d, w = ("cuda_" ++ version ++ "_" ++ d ++ suffix)%string
                /\ driverVersion d.
Proof.
  unfold linuxPattern. cbn [seq]. split.
  - intro H.
    peel H p1 P1. apply Lang_lit_inv in P1. subst p1.
    peel H p2 P2. apply Lang_lit_inv in P2. subst p2.
    peel H p3 P3. apply Lang_char_inv in P3. subst p3.
    peel H d1 D1. apply Lang_digits_inv in D1.
    peel H p4 P4. apply Lang_char_inv in P4. subst p4.
    peel H d2 D2. apply Lang_digits_inv in D2.
    peel H o HO.
    peel H p5 P5. apply Lang_lit_inv in P5. subst p5.
    apply Lang_epsilon_inv in H. subst.
    apply Lang_opt_inv in HO. destruct HO as [->|HO].
    + exists (d1 ++ "." ++ d2 ++ "")%string. split.
      * rewrite ?append_assoc, ?append_nil_r. reflexivity.
      * exists d1, d2, ""%string. auto.
    + apply Lang_group_inv in HO.
      peel HO p6 P6. apply Lang_char_inv in P6. subst p6.
      peel HO d3 D3. apply Lang_digits_inv in D3.
      apply Lang_epsilon_inv in HO. subst.
      exists (d1 ++ "." ++ d2 ++ ("." ++ d3))%string. split.
      * rewrite ?append_assoc, ?append_nil_r. reflexivity.
      * exists d1, d2, ("." ++ d3)%string.
        repeat split; auto. right. exists d3. auto.
  - intros (d & -> & d1 & d2 & d3 & -> & N1 & N2 & HO).
    rewrite ?append_assoc.
    constructor; [apply Lang_lit|].
    constructor; [apply Lang_lit|].
    change ("_" ++ d1 ++ "." ++ d2 ++ d3 ++ suffix)%string
      with (String "_" "" ++ (d1 ++ (String "." "" ++ (d2 ++ (d3 ++ suffix)))))%string.
    constructor; [apply Lang_char|].
    constructor; [apply Lang_digits, N1|].
    constructor; [apply Lang_char|].
    constructor; [apply Lang_digits, N2|].
    constructor.
    + destruct HO as [->|(d' & -> & N3)]; [apply Lang_skip|].
      apply Lang_take, Lang_group.
      change ("." ++ d')%string with (String "." "" ++ d')%string.
      constructor; [apply Lang_char|].
      rewrite <- (append_nil_r d').
      constructor; [apply Lang_digits, N3|constructor].
    + rewrite <- (append_nil_r suffix) at 2.
      constructor; [apply Lang_lit|constructor].
Qed.

Lemma test_linuxPattern (version suffix filename : string) :
  test (linuxPattern version suffix) filename = true
  <-> installerName version suffix filename.
Proof.
  rewrite test_iff. unfold installerName. split.
  - intros (front & w & back & -> & L). apply Lang_linuxPattern in L.
    destruct L as (d & -> & D). exists front, d, back. split; [|exact D].
    rewrite ?append_assoc. reflexivity.
  - intros (front & d & back & -> & D).
    exists front, ("cuda_" ++ version ++ "_" ++ d ++ suffix)%string, back.
    split; [rewrite ?append_assoc; reflexivity|].
    apply Lang_linuxPattern. eauto.
Qed.

(** ** The installer locator *)

Lemma geInt_leInt (x : jsnum) : geInt x 11 = true -> leInt x 10 = false.
Proof.
  unfold geInt, leInt, geZero, leZero.
  rewrite (ofZ_exact 11), (ofZ_exact 10) by (apply Z.ltb_lt; reflexivity).
  destruct x as [|[]|q]; try (cbn [sub sign]; congruence).
  rewrite !sign_sub_Fin. pose proof scale_pos as S.
  destruct (Z.compare_spec q (11 * scale)) as [H|H|H];
    destruct (Z.compare_spec q (10 * scale)) as [G|G|G];
    try congruence; intros _; exfalso; lia.
Qed.

Lemma leInt_geInt (x : jsnum) : leInt x 10 = true -> geInt x 11 = false.
Proof.
  intro H. destruct (geInt x 11) eqn:E; [|reflexivity].
  apply geInt_leInt in E. congruence.
Qed.

(** Every key of the legacy table has major version 10. *)
Lemma CUDA_LINKS_major (version : string) (link : CudaLink) :
  lookupLink CUDA_LINKS version = Some link -> majorOf version = ofZ 10.
Proof.
  unfold CUDA_LINKS. cbn [lookupLink].
  repeat match goal with
         | |- context [String.eqb ?k version] =>
             destruct (String.eqb_spec k version) as [<-|_];
             [intros _; vm_compute; reflexivity|]
         end.
  discriminate.
Qed.

Lemma CUDA_LINKS_modern (version : string) :
  geInt (majorOf version) 11 = true -> lookupLink CUDA_LINKS version = None.
Proof.
  intro H. destruct (lookupLink CUDA_LINKS version) as [link|] eqn:E;
    [|reflexivity].
  apply CUDA_LINKS_major in E. rewrite E in H. vm_compute in H. discriminate H.
Qed.

Section Locator.

Variable client : HttpClient.
Variable table : LinkTable.

Lemma tableUrl_absent (version : string) (os : OS) (arch : Arch) :
  lookupLink table version = None -> tableUrl table version os arch = None.
Proof. intro H. unfold tableUrl, inTable. rewrite H. reflexivity. Qed.

Lemma tableUrl_present (version : string) (os : OS) (arch : Arch)
    (link : CudaLink) :
  lookupLink table version = Some link ->
  tableUrl table version os arch
  = match linkField link os arch with
    | Some url => if String.eqb url EmptyString then None else Some url
    | None => None
    end.
Proof.
  intro H. unfold tableUrl, inTable, linkField, truthyString. rewrite H.
  destruct os, arch; cbn [OS_eqb Arch_eqb andb negb];
    repeat match goal with
           | |- context [String.eqb ?u EmptyString] =>
               destruct (String.eqb u EmptyString); cbn [negb]
           end; reflexivity.
Qed.

(** A version that passed both checks goes to the table, then on. *)
Lemma getCudaInstallerUrl_checked (version : string) (os : OS) (arch : Arch) :
  ltZero (compareVersions version START_SUPPORTED_CUDA_VERSION) = false ->
  leInt (majorOf version) 10 && OS_eqb os LINUX && Arch_eqb arch ARM64_SBSA
  = false ->
  getCudaInstallerUrl client table version os arch
  = match tableUrl table version os arch with
    | Some url => ret url
    | None => afterTable client table version (majorOf version) os arch
    end.
Proof.
  intros H1 H2. unfold getCudaInstallerUrl. fold (majorOf version).
  rewrite H1, H2. reflexivity.
Qed.

Lemma fetchMd5sum_modern (version : string) (response : HttpResponse)
    (log : list string) :
  geInt (majorOf version) 11 = true ->
  client (manifestOf version) = Ok response ->
  statusCode response = 200 ->
  fetchMd5sum client table version log
  = (Ok (parseMd5sum (readBody response)), log ++ [manifestOf version]).
Proof.
  intros M E S. unfold fetchMd5sum, getMd5sumUrl, bind, lift, httpGet.
  fold (majorOf version). rewrite M. fold (manifestOf version).
  rewrite E, S. reflexivity.
Qed.

Lemma afterTable_modern (version : string) (os : OS) (arch : Arch) :
  geInt (majorOf version) 11 = true ->
  afterTable client table version (majorOf version) os arch
  = manifestUrl client table version os arch.
Proof.
  intro M. unfold afterTable. rewrite (geInt_leInt _ M). reflexivity.
Qed.

End Locator.

(** On the legacy table, a release from 11 on that passed the support check
    is located through its manifest. *)
Lemma getCudaInstallerUrl_modern (client : HttpClient) (version : string)
    (os : OS) (arch : Arch) :
  ltZero (compareVersions version START_SUPPORTED_CUDA_VERSION) = false ->
  geInt (majorOf version) 11 = true ->
  getCudaInstallerUrl client CUDA_LINKS version os arch
  = manifestUrl client CUDA_LINKS version os arch.
Proof.
  intros H M. rewrite getCudaInstallerUrl_checked; [|exact H|].
  - rewrite tableUrl_absent by (apply CUDA_LINKS_modern, M).
    apply afterTable_modern, M.
  - rewrite (geInt_leInt _ M). reflexivity.
Qed.

(** *** The loops over the manifest *)

Lemma linuxLoop_first (pattern : regex) (l1 l2 : list string) (f : string) :
  Forall (fun g => test pattern g = false) l1 ->
  test pattern f = true ->
  linuxLoop pattern (l1 ++ f :: l2) = Some f.
Proof.
  intros H T. induction H as [|g l1 G _ IH]; cbn [app linuxLoop].
  - rewrite T. reflexivity.
  - rewrite G. exact IH.
Qed.

Lemma linuxLoop_none (pattern : regex) (l : list string) :
  Forall (fun g => test pattern g = false) l -> linuxLoop pattern l = None.
Proof.
  induction 1 as [|g l G _ IH]; cbn [linuxLoop]; [reflexivity|].
  rewrite G. exact IH.
Qed.

Lemma windowsLoop_first (l1 l2 : list string) (f : string)
    (win10 : option string) :
  Forall (fun g => endsWith g "_windows.exe" = false) l1 ->
  endsWith f "_windows.exe" = true ->
  fst (windowsLoop (l1 ++ f :: l2) None win10) = Some f.
Proof.
  intros H T. revert win10.
  induction H as [|g l1 G _ IH]; intro win10; cbn [app windowsLoop].
  - rewrite T. reflexivity.
  - rewrite G. destruct (endsWith g "_win10.exe"); apply IH.
Qed.

Lemma windowsLoop_no_windows (l : list string) (win10 : option string) :
  Forall (fun g => endsWith g "_windows.exe" = false) l ->
  fst (windowsLoop l None win10) = None.
Proof.
  intro H. revert win10.
  induction H as [|g l G _ IH]; intro win10; cbn [windowsLoop].
  - reflexivity.
  - rewrite G. destruct (endsWith g "_win10.exe"); apply IH.
Qed.

Lemma windowsLoop_no_win10 (l : list string) (win10 : option string) :
  Forall (fun g => endsWith g "_windows.exe" = false) l ->
  Forall (fun g => endsWith g "_win10.exe" = false) l ->
  snd (windowsLoop l None win10) = win10.
Proof.
  intros H1 H2. revert win10.
  induction H1 as [|g l G _ IH]; intro win10; cbn [windowsLoop].
  - reflexivity.
  - apply Forall_inv in H2 as G2'. pose proof (Forall_inv_tail H2) as H2'.
    rewrite G, G2'. apply IH, H2'.
Qed.

Lemma windowsLoop_last_win10 (l1 l2 : list string) (f : string)
    (win10 : option string) :
  Forall (fun g => endsWith g "_windows.exe" = false) (l1 ++ f :: l2) ->
  endsWith f "_win10.exe" = true ->
  Forall (fun g => endsWith g "_win10.exe" = false) l2 ->
  snd (windowsLoop (l1 ++ f :: l2) None win10) = Some f.
Proof.
  intros H T H2. revert win10.
  induction l1 as [|g l1 IH]; intro win10; cbn [app windowsLoop].
  - cbn [app] in H. rewrite (Forall_inv H), T.
    apply windowsLoop_no_win10; [exact (Forall_inv_tail H)|exact H2].
  - cbn [app] in H. rewrite (Forall_inv H).
    destruct (endsWith g "_win10.exe"); apply IH, (Forall_inv_tail H).
Qed.

Lemma endsWith_nonempty (f p : string) :
  endsWith f p = true -> p <> EmptyString -> String.eqb f EmptyString = false.
Proof.
  destruct f; [|reflexivity]. cbn. destruct p; [congruence|discriminate].
Qed.

(** * The claims *)

(** C6, as amended.  [compareVersions a b] splits both strings on the dot,
    reads the components as numbers, pads the shorter sequence with zeros
    and returns the signed difference of the first pair that differs, zero
    when none does.  The numbers are doubles: on components that are
    strings of digits denoting integers below 2^53 they are those integers,
    and a component that is not numeric counts as zero; there the
    comparison is the integer one, numeric and not lexical
    ([compare("10.1", "10.1.0") = 0], [compare("11.2", "11.10") < 0]).  No
    input is rejected. *)
Theorem compareVersions_spec :
  (forall a b, compareVersions a b = comparePadded a b)
  /\ (forall a b,
        plainVersion a = true -> plainVersion b = true ->
        safeVersion a = true -> safeVersion b = true ->
        compareVersions a b = ofZ (compareSpec a b))
  /\ (forall v, versionString v = true -> plainVersion v = true)
  /\ compareVersions "10.1" "10.1.0" = ofZ 0
  /\ ltZero (compareVersions "11.2" "11.10") = true
  /\ (forall c, Number c = NaN -> component c = ofZ 0)
  /\ (forall a b, compareVersions a b <> NaN).
Proof.
  split; [exact compareVersions_padded|].
  split; [exact compareVersions_plain|].
  split.
  { intros v H. unfold versionString, plainVersion in *.
    rewrite forallb_forall in *. intros c Hc. specialize (H c Hc).
    unfold numeral in H. apply andb_true_iff in H. destruct H as [H _].
    unfold plainComponent. rewrite H. reflexivity. }
  split; [vm_compute; reflexivity|].
  split; [vm_compute; reflexivity|].
  split; [|exact compareVersions_not_NaN].
  intros c H. unfold component. rewrite H. reflexivity.
Qed.

Lemma compareVersions_spec_witness :
  compareVersions "11.x" "12.0.1" = ofZ (compareSpec "11.x" "12.0.1")
  /\ plainVersion "12.0.1" = true
  /\ component "x" = ofZ 0.
Proof.
  destruct compareVersions_spec as (_ & P & V & _ & _ & C & _).
  split; [apply P; vm_compute; reflexivity|].
  split; [apply V; vm_compute; reflexivity|].
  apply C. vm_compute. reflexivity.
Defined.

(** C6, as the claim states it, fails on components from 2^53 on: 2^53 + 1
    and 2^53 are different integers and the same double, so two version
    strings that differ as integers compare as equal. *)
Lemma compareVersions_spec_counterexample :
  versionString "9007199254740993" = true
  /\ versionString "9007199254740992" = true
  /\ compareSpec "9007199254740993" "9007199254740992" = 1
  /\ compareVersions "9007199254740993" "9007199254740992" = ofZ 0
  /\ compareVersions "9007199254740993" "9007199254740992"
     <> ofZ (compareSpec "9007199254740993" "9007199254740992").
Proof.
  repeat split; try (vm_compute; reflexivity).
  intro H. vm_compute in H. discriminate H.
Qed.

(** C9.  A version whose major component is a number not above 10 is
    normalised to its first two dot-separated components joined by a dot; a
    version whose major component is 11 or more is returned unchanged.
    [normalize("10.2.89") = "10.2"], [normalize("11.0.3") = "11.0.3"]. *)
Theorem normalizeCudaVersion_spec :
  (forall version,
     numeral (first (split "." version)) = true ->
     decimal (first (split "." version)) <= 10 ->
     normalizeCudaVersion version = join "." (firstn 2 (split "." version)))
  /\ (forall version,
        numeral (first (split "." version)) = true ->
        11 <= decimal (first (split "." version)) ->
        normalizeCudaVersion version = version)
  /\ normalizeCudaVersion "10.2.89" = "10.2"
  /\ normalizeCudaVersion "11.0.3" = "11.0.3".
Proof.
  split; [|split; [|split; reflexivity]].
  - intros version N L. unfold normalizeCudaVersion.
    rewrite (parseInt_numeral _ _ N) by auto.
    rewrite isNaN_ofZ.
    rewrite leInt_ofZ by reflexivity. destruct (Z.leb_spec (decimal (first (split "." version))) 10);
      [reflexivity|lia].
  - intros version N L. unfold normalizeCudaVersion.
    rewrite (parseInt_numeral _ _ N) by auto.
    rewrite isNaN_ofZ.
    rewrite leInt_ofZ by reflexivity. destruct (Z.leb_spec (decimal (first (split "." version))) 10);
      [lia|reflexivity].
Qed.

Lemma normalizeCudaVersion_spec_witness :
  normalizeCudaVersion "9.2.148" = join "." (firstn 2 (split "." "9.2.148"))
  /\ normalizeCudaVersion "12.4.1" = "12.4.1".
Proof.
  destruct normalizeCudaVersion_spec as (L & M & _).
  split.
  - apply L; [reflexivity|]. vm_compute. discriminate.
  - apply M; [reflexivity|]. vm_compute. discriminate.
Defined.

Lemma lastOf_app_single {A} (l : list A) (x : A) : lastOf (l ++ [x]) = Some x.
Proof.
  induction l as [|y l IH]; cbn [app lastOf]; [reflexivity|].
  destruct (l ++ [x]) eqn:E; [|exact IH].
  destruct l; discriminate E.
Qed.

Lemma lastOf_In {A} (l : list A) (x : A) : lastOf l = Some x -> In x l.
Proof.
  induction l as [|y l IH]; cbn [lastOf]; [discriminate|].
  destruct l as [|z l]; [intros [= ->]; left; reflexivity|].
  intro H. right. apply IH, H.
Qed.

Lemma lastOf_sorted_max {A} (R : A -> A -> Prop) (l : list A) (x : A) :
  StronglySorted R l -> lastOf l = Some x ->
  forall w, In w l -> w = x \/ R w x.
Proof.
  induction 1 as [|y l Hs IH Hy]; cbn [lastOf]; [discriminate|].
  destruct l as [|z l].
  - intros [= ->] w [->|[]]. left; reflexivity.
  - intros H w [->|Hw].
    + right. rewrite Forall_forall in Hy. apply Hy, lastOf_In, H.
    + apply IH; assumption.
Qed.

Lemma filter_none {A} (f : A -> bool) (l : list A) :
  Forall (fun x => f x = false) l -> filter f l = [].
Proof.
  induction 1 as [|x l Hx _ IH]; cbn [filter]; [reflexivity|].
  rewrite Hx. exact IH.
Qed.

Lemma not_includes (versions : list string) (s : string) :
  ~ In s versions -> includes versions s = false.
Proof.
  intro H. destruct (includes versions s) eqn:E; [|reflexivity].
  apply includes_In in E. contradiction.
Qed.

Lemma no_prefix (p : string) (l : list string) :
  Forall (fun w => ~ hasPrefix p w) l ->
  Forall (fun w => startsWith w p = false) l.
Proof.
  apply Forall_impl. intros w H.
  destruct (startsWith w p) eqn:E; [|reflexivity].
  apply startsWith_hasPrefix in E. contradiction.
Qed.

Lemma findCudaVersionIn_prefix (versions : list string) (s : string) :
  s <> "latest" -> ~ In s versions ->
  findCudaVersionIn versions s
  = lastOf (filter (fun v => startsWith v (s ++ ".")) versions).
Proof.
  intros L N. unfold findCudaVersionIn.
  apply String.eqb_neq in L. rewrite L, (not_includes _ _ N).
  destruct (filter _ versions); reflexivity.
Qed.

(** C1.  [findCudaVersion] is a four-case match on the specifier: the
    token [latest] gives the last entry of the catalog (nothing when the
    catalog is empty); a specifier that is an entry of the catalog is
    returned as it is; otherwise the last entry that starts with the
    specifier followed by a dot is returned, which in a catalog sorted by the
    comparator is the numerically highest such entry; otherwise nothing is
    found, and that is a value, not a thrown error. *)
Theorem findCudaVersion_cases :
  findCudaVersionIn [] "latest" = None
  /\ (forall versions v, findCudaVersionIn (versions ++ [v]) "latest" = Some v)
  /\ (forall versions s,
        s <> "latest" -> In s versions ->
        findCudaVersionIn versions s = Some s)
  /\ (forall l1 v l2 s,
        s <> "latest" -> ~ In s (l1 ++ v :: l2) ->
        hasPrefix (s ++ ".") v ->
        Forall (fun w => ~ hasPrefix (s ++ ".") w) l2 ->
        findCudaVersionIn (l1 ++ v :: l2) s = Some v)
  /\ (forall versions s v,
        StronglySorted vle versions ->
        s <> "latest" -> ~ In s versions ->
        findCudaVersionIn versions s = Some v ->
        forall w, In w versions -> hasPrefix (s ++ ".") w -> vle w v)
  /\ (forall versions s,
        s <> "latest" -> ~ In s versions ->
        Forall (fun w => ~ hasPrefix (s ++ ".") w) versions ->
        findCudaVersionIn versions s = None)
  /\ (forall client s versions log,
        run (fetchAvailableCudaVersions client) = (Ok versions, log) ->
        run (findCudaVersion client s)
        = (Ok (findCudaVersionIn versions s), log)).
Proof.
  split; [reflexivity|].
  split; [intros versions v; apply lastOf_app_single|].
  split.
  { intros versions s L H. unfold findCudaVersionIn.
    apply String.eqb_neq in L. rewrite L.
    apply includes_In in H. rewrite H. reflexivity. }
  split.
  { intros l1 v l2 s L N P Q. rewrite findCudaVersionIn_prefix by assumption.
    rewrite filter_app. cbn [filter].
    apply startsWith_hasPrefix in P. rewrite P.
    rewrite (filter_none _ l2) by (apply no_prefix, Q).
    apply lastOf_app_single. }
  split.
  { intros versions s v S L N F w Hw P.
    rewrite findCudaVersionIn_prefix in F by assumption.
    apply startsWith_hasPrefix in P.
    destruct (lastOf_sorted_max vle _ v
                (StronglySorted_filter vle
                   (fun v => startsWith v (s ++ ".")) versions S) F w)
      as [->|H].
    - apply filter_In. auto.
    - apply vle_refl.
    - exact H. }
  split.
  { intros versions s L N Q. rewrite findCudaVersionIn_prefix by assumption.
    rewrite filter_none by (apply no_prefix, Q). reflexivity. }
  intros client s versions log H. unfold run, findCudaVersion, bind in *.
  rewrite H. reflexivity.
Qed.

Lemma findCudaVersion_cases_witness :
  findCudaVersionIn ["10.0"; "10.1"; "10.2"; "11.0.1"; "11.0.3"] "10" = Some "10.2"
  /\ findCudaVersionIn ["10.0"; "10.1"; "10.2"; "11.0.1"; "11.0.3"] "11.0.1"
     = Some "11.0.1"
  /\ findCudaVersionIn ["10.0"; "10.1"; "10.2"; "11.0.1"; "11.0.3"] "9.9" = None.
Proof.
  destruct findCudaVersion_cases as (_ & _ & E & P & _ & N & _).
  split; [|split].
  - apply (P ["10.0"; "10.1"] "10.2" ["11.0.1"; "11.0.3"] "10").
    + discriminate.
    + cbn [app In]. intros H. repeat (destruct H as [H|H]; [discriminate H|]).
      exact H.
    + exists "2". reflexivity.
    + repeat constructor; intros [rest H]; discriminate H.
  - apply E; [discriminate|]. cbn [In]. auto.
  - apply N.
    + discriminate.
    + cbn [In]. intros H. repeat (destruct H as [H|H]; [discriminate H|]).
      exact H.
    + repeat constructor; intros [rest H]; discriminate H.
Defined.

(** C5.  Whenever the three listings answer with success, the catalog is
    the union of the three scraped sets and the static legacy list, kept to
    the versions that are not below the minimum supported one: it has no
    duplicates, it is sorted ascending under the comparator, and no entry
    of it is below the minimum, whatever was scraped. *)
Theorem discovery_catalog (client : HttpClient)
    (redistrib archive opensource : HttpResponse) :
  client redistribUrl = Ok redistrib -> statusCode redistrib = 200 ->
  client archiveUrl = Ok archive -> statusCode archive = 200 ->
  client opensourceUrl = Ok opensource -> statusCode opensource = 200 ->
  exists rv av ov catalog,
    run (fetchRedistribVersions client) = (Ok rv, [redistribUrl])
    /\ run (fetchArchiveVersions client) = (Ok av, [archiveUrl])
    /\ run (fetchOpensourceVersions client) = (Ok ov, [opensourceUrl])
    /\ run (fetchAvailableCudaVersions client)
       = (Ok catalog, [redistribUrl; archiveUrl; opensourceUrl])
    /\ (forall v,
          In v catalog
          <-> (In v rv \/ In v av \/ In v ov \/ In v OLD_CUDA_VERSIONS)
              /\ geZero (compareVersions v START_SUPPORTED_CUDA_VERSION) = true)
    /\ NoDup catalog
    /\ StronglySorted vle catalog
    /\ Forall (fun v =>
                 ltZero (compareVersions v START_SUPPORTED_CUDA_VERSION) = false)
              catalog.
Proof.
  intros E1 S1 E2 S2 E3 S3.
  destruct (fetchAvailableCudaVersions_ok client redistrib archive opensource
              (conj E1 S1) (conj E2 S2) (conj E3 S3))
    as (rv & av & ov & Hr & Ha & Ho & H).
  exists rv, av, ov, (mergeVersions rv av ov).
  repeat (split; [assumption|]).
  split; [intro v; apply mergeVersions_In|].
  split; [apply mergeVersions_NoDup|].
  split; [apply mergeVersions_sorted|apply mergeVersions_supported].
Qed.

Lemma discovery_catalog_witness :
  exists rv av ov catalog,
    run (fetchRedistribVersions exampleListing) = (Ok rv, [redistribUrl])
    /\ run (fetchArchiveVersions exampleListing) = (Ok av, [archiveUrl])
    /\ run (fetchOpensourceVersions exampleListing) = (Ok ov, [opensourceUrl])
    /\ run (fetchAvailableCudaVersions exampleListing)
       = (Ok catalog, [redistribUrl; archiveUrl; opensourceUrl])
    /\ (forall v,
          In v catalog
          <-> (In v rv \/ In v av \/ In v ov \/ In v OLD_CUDA_VERSIONS)
              /\ geZero (compareVersions v START_SUPPORTED_CUDA_VERSION) = true)
    /\ NoDup catalog
    /\ StronglySorted vle catalog
    /\ Forall (fun v =>
                 ltZero (compareVersions v START_SUPPORTED_CUDA_VERSION) = false)
              catalog.
Proof.
  apply (discovery_catalog exampleListing
           examplePage examplePage examplePage);
    reflexivity.
Defined.

Example discovery_drops_unsupported :
  run (fetchOpensourceVersions exampleListing) = (Ok ["9.2"; "10.2"], [opensourceUrl])
  /\ run (fetchAvailableCudaVersions exampleListing)
     = (Ok ["10.0"; "10.1"; "10.1.1"; "10.1.2"; "10.2"; "11.2.0"; "12.4.1"],
        [redistribUrl; archiveUrl; opensourceUrl]).
Proof. split; vm_compute; reflexivity. Qed.

(** C10.  Whenever the three listings answer with success, the catalog
    holds the five static legacy versions, whatever the pages contain; so it
    is never empty, and resolving [latest] after a successful discovery
    always returns a version. *)
Theorem discovery_never_empty (client : HttpClient)
    (redistrib archive opensource : HttpResponse) :
  client redistribUrl = Ok redistrib -> statusCode redistrib = 200 ->
  client archiveUrl = Ok archive -> statusCode archive = 200 ->
  client opensourceUrl = Ok opensource -> statusCode opensource = 200 ->
  exists catalog latest log,
    run (fetchAvailableCudaVersions client) = (Ok catalog, log)
    /\ In "10.0" catalog /\ In "10.1" catalog /\ In "10.1.1" catalog
    /\ In "10.1.2" catalog /\ In "10.2" catalog
    /\ catalog <> []
    /\ lastOf catalog = Some latest
    /\ run (findCudaVersion client "latest") = (Ok (Some latest), log).
Proof.
  intros E1 S1 E2 S2 E3 S3.
  destruct (fetchAvailableCudaVersions_ok client redistrib archive opensource
              (conj E1 S1) (conj E2 S2) (conj E3 S3))
    as (rv & av & ov & _ & _ & _ & H).
  set (catalog := mergeVersions rv av ov) in *.
  assert (L : forall v, In v OLD_CUDA_VERSIONS -> In v catalog)
    by (intros v Hv; apply mergeVersions_legacy, Hv).
  assert (NE : catalog <> []).
  { intro E. specialize (L "10.0"). rewrite E in L. apply L. cbn. auto. }
  destruct (lastOf catalog) as [latest|] eqn:Last.
  - exists catalog, latest, [redistribUrl; archiveUrl; opensourceUrl].
    split; [exact H|].
    do 5 (split; [apply L; cbn; auto 6|]).
    split; [exact NE|]. split; [exact Last|].
    unfold run, findCudaVersion, bind in *. rewrite H.
    unfold ret, findCudaVersionIn. cbn [String.eqb Ascii.eqb Bool.eqb].
    rewrite Last. reflexivity.
  - exfalso. destruct catalog as [|x l]; [congruence|].
    clear - Last. revert x Last. induction l as [|y l IH]; intros x Last.
    + discriminate Last.
    + apply (IH y). exact Last.
Qed.

Lemma discovery_never_empty_witness :
  exists catalog latest log,
    run (fetchAvailableCudaVersions exampleListing) = (Ok catalog, log)
    /\ In "10.0" catalog /\ In "10.1" catalog /\ In "10.1.1" catalog
    /\ In "10.1.2" catalog /\ In "10.2" catalog
    /\ catalog <> []
    /\ lastOf catalog = Some latest
    /\ run (findCudaVersion exampleListing "latest") = (Ok (Some latest), log).
Proof.
  apply (discovery_never_empty exampleListing
           examplePage examplePage examplePage);
    reflexivity.
Defined.

(** C8.  [getCudaInstallerUrl] rejects, before any table lookup or network
    fetch, every version that is numerically below the minimum supported
    one, and every version of major 10 or less asked for Linux on the ARM64
    server architecture; [locate("10.0", LINUX, ARM64_SBSA)] raises the
    unsupported-platform error. *)
Theorem locate_rejects_early :
  (forall client table version os arch,
     ltZero (compareVersions version START_SUPPORTED_CUDA_VERSION) = true ->
     run (getCudaInstallerUrl client table version os arch)
     = (Throw (UnsupportedVersion version), []))
  /\ (forall client table version,
        ltZero (compareVersions version START_SUPPORTED_CUDA_VERSION) = false ->
        leInt (majorOf version) 10 = true ->
        run (getCudaInstallerUrl client table version LINUX ARM64_SBSA)
        = (Throw (UnsupportedPlatformCombination version), []))
  /\ (forall client table version,
        leInt (majorOf version) 10 = true ->
        exists e,
          run (getCudaInstallerUrl client table version LINUX ARM64_SBSA)
          = (Throw e, []))
  /\ (forall client table,
        run (getCudaInstallerUrl client table "10.0" LINUX ARM64_SBSA)
        = (Throw (UnsupportedPlatformCombination "10.0"), [])).
Proof.
  assert (A : forall client table version os arch,
             ltZero (compareVersions version START_SUPPORTED_CUDA_VERSION) = true ->
             run (getCudaInstallerUrl client table version os arch)
             = (Throw (UnsupportedVersion version), [])).
  { intros client table version os arch H.
    unfold run, getCudaInstallerUrl. rewrite H. reflexivity. }
  assert (B : forall client table version,
             ltZero (compareVersions version START_SUPPORTED_CUDA_VERSION) = false ->
             leInt (majorOf version) 10 = true ->
             run (getCudaInstallerUrl client table version LINUX ARM64_SBSA)
             = (Throw (UnsupportedPlatformCombination version), [])).
  { intros client table version H M.
    unfold run, getCudaInstallerUrl. fold (majorOf version).
    rewrite H, M. reflexivity. }
  split; [exact A|]. split; [exact B|]. split.
  - intros client table version M.
    destruct (ltZero (compareVersions version START_SUPPORTED_CUDA_VERSION)) eqn:H.
    + eexists. apply A, H.
    + eexists. apply B; assumption.
  - intros client table. apply B; vm_compute; reflexivity.
Qed.

Lemma locate_rejects_early_witness :
  run (getCudaInstallerUrl exampleManifest CUDA_LINKS "9.2" WINDOWS X86_64)
  = (Throw (UnsupportedVersion "9.2"), [])
  /\ run (getCudaInstallerUrl exampleManifest CUDA_LINKS "10.2" LINUX ARM64_SBSA)
     = (Throw (UnsupportedPlatformCombination "10.2"), []).
Proof.
  destruct locate_rejects_early as (A & B & _).
  split; [apply A|apply B]; vm_compute; reflexivity.
Defined.

Lemma CUDA_LINKS_resolves (client : HttpClient) (version : string)
    (link : CudaLink) :
  lookupLink CUDA_LINKS version = Some link ->
  run (getCudaInstallerUrl client CUDA_LINKS version LINUX X86_64)
  = (Ok (linuxX86Url link), [])
  /\ (forall arch,
        run (getCudaInstallerUrl client CUDA_LINKS version WINDOWS arch)
        = (Ok (windowsUrl link), [])).
Proof.
  unfold CUDA_LINKS at 1. cbn [lookupLink].
  repeat match goal with
         | |- context [String.eqb ?k version] =>
             destruct (String.eqb_spec k version) as [<-|_];
             [intros [= <-]; split; [|intro arch]; vm_compute; reflexivity|]
         end.
  discriminate.
Qed.

(** C2.  For a version that is a key of the link table and has passed the
    support and architecture checks, [getCudaInstallerUrl] returns the field
    of the entry that answers the platform, as it stands and without any
    fetch, when that field is not empty: [linuxX86Url] for Linux/x86-64,
    [linuxArm64Url] for Linux/ARM64, [windowsUrl] for Windows whatever the
    architecture.  When the field is empty it goes on to the later steps
    instead of raising an error.  On the legacy table every key resolves
    this way for Linux/x86-64 and for Windows, and
    [locate("10.0", LINUX, X86_64)] is the [linuxX86Url] of the entry of
    10.0. *)
Theorem legacy_table_lookup :
  (forall client table version os arch link url,
     lookupLink table version = Some link ->
     ltZero (compareVersions version START_SUPPORTED_CUDA_VERSION) = false ->
     leInt (majorOf version) 10 && OS_eqb os LINUX && Arch_eqb arch ARM64_SBSA
     = false ->
     linkField link os arch = Some url -> url <> EmptyString ->
     run (getCudaInstallerUrl client table version os arch) = (Ok url, []))
  /\ (forall client table version os arch link,
        lookupLink table version = Some link ->
        ltZero (compareVersions version START_SUPPORTED_CUDA_VERSION) = false ->
        leInt (majorOf version) 10 && OS_eqb os LINUX && Arch_eqb arch ARM64_SBSA
        = false ->
        linkField link os arch = Some EmptyString ->
        getCudaInstallerUrl client table version os arch
        = afterTable client table version (majorOf version) os arch)
  /\ (forall client version link,
        lookupLink CUDA_LINKS version = Some link ->
        run (getCudaInstallerUrl client CUDA_LINKS version LINUX X86_64)
        = (Ok (linuxX86Url link), [])
        /\ (forall arch,
              run (getCudaInstallerUrl client CUDA_LINKS version WINDOWS arch)
              = (Ok (windowsUrl link), [])))
  /\ (forall client,
        exists link,
          lookupLink CUDA_LINKS "10.0" = Some link
          /\ run (getCudaInstallerUrl client CUDA_LINKS "10.0" LINUX X86_64)
             = (Ok (linuxX86Url link), [])).
Proof.
  split; [|split; [|split]].
  - intros client table version os arch link url L S G F N.
    unfold run. rewrite getCudaInstallerUrl_checked by assumption.
    rewrite (tableUrl_present _ _ _ _ _ L), F.
    apply String.eqb_neq in N. rewrite N. reflexivity.
  - intros client table version os arch link L S G F.
    rewrite getCudaInstallerUrl_checked by assumption.
    rewrite (tableUrl_present _ _ _ _ _ L), F. reflexivity.
  - exact CUDA_LINKS_resolves.
  - intro client. eexists. split; [reflexivity|].
    vm_compute. reflexivity.
Qed.

Lemma legacy_table_lookup_witness :
  run (getCudaInstallerUrl offline CUDA_LINKS "10.1" WINDOWS ARM64_SBSA)
  = (Ok "https://developer.nvidia.com/compute/cuda/10.1/Prod/local_installers/cuda_10.1.105_418.96_win10.exe",
     [])
  /\ getCudaInstallerUrl offline exampleTable "11.0" LINUX X86_64
     = afterTable offline exampleTable "11.0" (majorOf "11.0") LINUX X86_64.
Proof.
  destruct legacy_table_lookup as (A & B & _).
  split.
  - eapply A; try (vm_compute; reflexivity). discriminate.
  - eapply B; vm_compute; reflexivity.
Defined.

(** C4.  The claim: a version of major 10 or less that passes the support
    check and the architecture gate, asked for Linux/x86-64 or Windows,
    never reads a missing entry of the legacy table.  The code does read
    one: 10.2.89 passes both checks, is no key of the table, and the
    unguarded read of its entry raises a TypeError.  The version is one the
    resolver hands over as soon as a listing names it. *)
Theorem legacy_lookup_missing_entry (client : HttpClient) :
  leInt (majorOf "10.2.89") 10 = true
  /\ ltZero (compareVersions "10.2.89" START_SUPPORTED_CUDA_VERSION) = false
  /\ lookupLink CUDA_LINKS "10.2.89" = None
  /\ run (getCudaInstallerUrl client CUDA_LINKS "10.2.89" LINUX X86_64)
     = (Throw TypeError, [])
  /\ run (getCudaInstallerUrl client CUDA_LINKS "10.2.89" WINDOWS X86_64)
     = (Throw TypeError, [])
  /\ run (findCudaVersion legacyListing "10.2.89")
     = (Ok (Some "10.2.89"), [redistribUrl; archiveUrl; opensourceUrl]).
Proof. repeat split; vm_compute; reflexivity. Qed.

Lemma no_suffix (p : string) (l : list string) :
  Forall (fun g => ~ hasSuffix p g) l ->
  Forall (fun g => endsWith g p = false) l.
Proof.
  apply Forall_impl. intros g H.
  destruct (endsWith g p) eqn:E; [|reflexivity].
  apply endsWith_hasSuffix in E. contradiction.
Qed.

Lemma manifestUrl_windows (client : HttpClient) (table : LinkTable)
    (version : string) (arch : Arch) (response : HttpResponse) :
  geInt (majorOf version) 11 = true ->
  client (manifestOf version) = Ok response ->
  statusCode response = 200 ->
  run (manifestUrl client table version WINDOWS arch)
  = (match orElse (fst (windowsLoop (filenamesOf response) None None))
                  (snd (windowsLoop (filenamesOf response) None None)) with
     | Some f =>
         if String.eqb f EmptyString
         then Throw (NoMatchingInstaller version WINDOWS arch)
         else Ok (getDownloadUrl version "local_installers" f)
     | None => Throw (NoMatchingInstaller version WINDOWS arch)
     end, [manifestOf version]).
Proof.
  intros M E S. unfold run, manifestUrl, bind.
  rewrite (fetchMd5sum_modern client table version response [] M E S).
  cbn [OS_eqb app]. fold (filenamesOf response).
  destruct (windowsLoop (filenamesOf response) None None) as [wf w10].
  cbn [fst snd]. unfold ret.
  destruct (orElse wf w10) as [f|]; [|reflexivity].
  cbn [truthyString]. destruct (String.eqb f EmptyString); reflexivity.
Qed.

(** C3.  On a parsed manifest the windows branch takes the first filename,
    in iteration order, that ends in [_windows.exe], whatever follows it;
    when no filename ends in [_windows.exe] it takes the last one that ends
    in [_win10.exe]; when neither suffix occurs it fails with the
    no-matching-installer error. *)
Theorem windows_installer_choice (client : HttpClient) (version : string)
    (arch : Arch) (response : HttpResponse) :
  ltZero (compareVersions version START_SUPPORTED_CUDA_VERSION) = false ->
  geInt (majorOf version) 11 = true ->
  client (manifestOf version) = Ok response ->
  statusCode response = 200 ->
  (forall l1 f l2,
     filenamesOf response = l1 ++ f :: l2 ->
     hasSuffix "_windows.exe" f ->
     Forall (fun g => ~ hasSuffix "_windows.exe" g) l1 ->
     run (getCudaInstallerUrl client CUDA_LINKS version WINDOWS arch)
     = (Ok (getDownloadUrl version "local_installers" f), [manifestOf version]))
  /\ (forall l1 f l2,
        filenamesOf response = l1 ++ f :: l2 ->
        Forall (fun g => ~ hasSuffix "_windows.exe" g) (filenamesOf response) ->
        hasSuffix "_win10.exe" f ->
        Forall (fun g => ~ hasSuffix "_win10.exe" g) l2 ->
        run (getCudaInstallerUrl client CUDA_LINKS version WINDOWS arch)
        = (Ok (getDownloadUrl version "local_installers" f),
           [manifestOf version]))
  /\ (Forall (fun g => ~ hasSuffix "_windows.exe" g) (filenamesOf response) ->
      Forall (fun g => ~ hasSuffix "_win10.exe" g) (filenamesOf response) ->
      run (getCudaInstallerUrl client CUDA_LINKS version WINDOWS arch)
      = (Throw (NoMatchingInstaller version WINDOWS arch), [manifestOf version])).
Proof.
  intros H M E S.
  rewrite (getCudaInstallerUrl_modern client version WINDOWS arch H M).
  rewrite (manifestUrl_windows client CUDA_LINKS version arch response M E S).
  split; [|split].
  - intros l1 f l2 F W N. rewrite F.
    apply endsWith_hasSuffix in W.
    rewrite (windowsLoop_first l1 l2 f None (no_suffix _ _ N) W).
    assert (NE : String.eqb f EmptyString = false)
      by (apply (endsWith_nonempty _ _ W); discriminate).
    unfold orElse, truthyString. rewrite NE. cbn [negb]. rewrite NE. reflexivity.
  - intros l1 f l2 F N W N2.
    rewrite (windowsLoop_no_windows _ None (no_suffix _ _ N)).
    rewrite F in N |- *. apply endsWith_hasSuffix in W.
    rewrite (windowsLoop_last_win10 l1 l2 f None (no_suffix _ _ N) W
               (no_suffix _ _ N2)).
    assert (NE : String.eqb f EmptyString = false)
      by (apply (endsWith_nonempty _ _ W); discriminate).
    unfold orElse. cbn [truthyString]. rewrite NE. reflexivity.
  - intros N N2.
    rewrite (windowsLoop_no_windows _ None (no_suffix _ _ N)).
    rewrite (windowsLoop_no_win10 _ None (no_suffix _ _ N) (no_suffix _ _ N2)).
    reflexivity.
Qed.

Example windows_prefers_windows_exe :
  run (getCudaInstallerUrl exampleManifest CUDA_LINKS "11.2.0" WINDOWS X86_64)
  = (Ok "https://developer.download.nvidia.com/compute/cuda/11.2.0/local_installers/cuda_11.2.0_460.27.04_windows.exe",
     ["https://developer.download.nvidia.com/compute/cuda/11.2.0/docs/sidebar/md5sum.txt"]).
Proof. vm_compute. reflexivity. Qed.

Lemma windows_installer_choice_witness :
  run (getCudaInstallerUrl exampleManifest CUDA_LINKS "11.2.0" WINDOWS X86_64)
  = (Ok (getDownloadUrl "11.2.0" "local_installers"
           "cuda_11.2.0_460.27.04_windows.exe"),
     [manifestOf "11.2.0"]).
Proof.
  refine (proj1 (windows_installer_choice exampleManifest "11.2.0" X86_64
                   exampleChecksums _ _ _ _)
            ["cuda_11.2.0_460.27.04_linux_sbsa.run";
             "cuda_11.2.0_460.27.04_linux.run";
             "cuda_11.2.0_460.27.04_win10.exe"]
            "cuda_11.2.0_460.27.04_windows.exe"
            ["cuda_11.2.0_460.27.05_win10.exe"] _ _ _);
    try (vm_compute; reflexivity).
  - exists "cuda_11.2.0_460.27.04". reflexivity.
  - repeat constructor; intro H; apply endsWith_hasSuffix in H;
      vm_compute in H; discriminate H.
Defined.

(** *** Releases from 11 on pass the support check *)

Lemma split_first_digits (v : string) :
  versionChars v = true -> allDigits (first (split "." v)) = true.
Proof.
  induction v as [|c v IH]; cbn [versionChars split]; [reflexivity|].
  intro H. apply andb_true_iff in H. destruct H as [C V].
  destruct (Ascii.eqb c ".") eqn:D; [reflexivity|].
  rewrite orb_false_r in C. specialize (IH V).
  destruct (split "." v) as [|h t]; cbn [first hd allDigits] in *.
  - rewrite C. reflexivity.
  - rewrite C, IH. reflexivity.
Qed.

Lemma split_cons (sep : ascii) (v : string) :
  exists c rest, split sep v = c :: rest.
Proof.
  induction v as [|ch v IH]; cbn [split]; eauto.
  destruct (Ascii.eqb ch sep); eauto.
  destruct IH as (c & rest & ->). eauto.
Qed.

Lemma modern_major (v : string) :
  versionChars v = true -> geInt (majorOf v) 11 = true ->
  numeral (first (split "." v)) = true /\ 11 <= decimal (first (split "." v)).
Proof.
  intros V M. pose proof (split_first_digits v V) as A.
  unfold majorOf in M.
  assert (N : numeral (first (split "." v)) = true).
  { unfold numeral. rewrite A.
    destruct (first (split "." v)); [discriminate M|reflexivity]. }
  split; [exact N|].
  rewrite (parseInt_numeral _ None N) in M by auto.
  rewrite geInt_ofZ in M by reflexivity. apply Z.leb_le, M.
Qed.

Lemma modern_supported (v : string) :
  versionChars v = true -> geInt (majorOf v) 11 = true ->
  ltZero (compareVersions v START_SUPPORTED_CUDA_VERSION) = false.
Proof.
  intros V M. destruct (modern_major v V M) as [N D].
  rewrite compareVersions_padded. unfold comparePadded.
  destruct (split_cons "." v) as (c & rest & E). rewrite E in *.
  cbn [first hd] in N, D.
  change (split "." START_SUPPORTED_CUDA_VERSION) with ["10"; "0"].
  cbn [map List.length]. change (Nat.max (S (List.length (map component rest))) 2)
    with (S (Nat.max (List.length (map component rest)) 1)).
  rewrite !padWith_cons. cbn [combine firstDiffering].
  assert (C : component c = ofZ (decimal c))
    by (unfold component; rewrite (Number_numeral c N); apply orZero_ofZ).
  rewrite !C. change (component "10") with (ofZ 10).
  rewrite strictNe_ofZ by reflexivity.
  destruct (Z.eqb_spec (decimal c) 10) as [Q|_]; [lia|].
  cbn [negb]. unfold ltZero. rewrite sign_sub_ofZ by reflexivity.
  destruct (Z.compare_spec (decimal c) 10); try reflexivity; lia.
Qed.

Lemma installerName_nonempty (version suffix f : string) :
  installerName version suffix f -> String.eqb f EmptyString = false.
Proof.
  intros (front & d & back & -> & _). destruct front; reflexivity.
Qed.

Lemma not_installerName (version suffix : string) (l : list string) :
  Forall (fun g => ~ installerName version suffix g) l ->
  Forall (fun g => test (linuxPattern version suffix) g = false) l.
Proof.
  apply Forall_impl. intros g H.
  destruct (test (linuxPattern version suffix) g) eqn:E; [|reflexivity].
  apply test_linuxPattern in E. contradiction.
Qed.

Lemma manifestUrl_linux (client : HttpClient) (table : LinkTable)
    (version : string) (arch : Arch) (response : HttpResponse) :
  geInt (majorOf version) 11 = true ->
  client (manifestOf version) = Ok response ->
  statusCode response = 200 ->
  arch = X86_64 \/ arch = ARM64_SBSA ->
  run (manifestUrl client table version LINUX arch)
  = (match linuxLoop
             (linuxPattern version
                (if Arch_eqb arch X86_64 then "_linux.run" else "_linux_sbsa.run"))
             (filenamesOf response) with
     | Some f =>
         if String.eqb f EmptyString
         then Throw (NoMatchingInstaller version LINUX arch)
         else Ok (getDownloadUrl version "local_installers" f)
     | None => Throw (NoMatchingInstaller version LINUX arch)
     end, [manifestOf version]).
Proof.
  intros M E S A. unfold run, manifestUrl, bind.
  rewrite (fetchMd5sum_modern client table version response [] M E S).
  cbn [OS_eqb app]. fold (filenamesOf response).
  destruct A as [-> | ->]; cbn [Arch_eqb ret]; unfold ret;
    match goal with
    | |- context [linuxLoop ?p ?l] => destruct (linuxLoop p l) as [f|]
    end; try reflexivity;
    cbn [truthyString]; destruct (String.eqb f EmptyString); reflexivity.
Qed.

(** C7.  For a release from 11 on, the linux branch matches the filenames
    of the manifest against [cuda_<version>_<driverversion>_linux.run] for
    x86-64, and against the same with [_sbsa] before [.run] for the ARM64
    server; it takes the first match in iteration order and returns the URL
    made of the download host, the version, the [local_installers]
    directory and the filename.  A manifest in which
    [cuda_11.2.0_460.27.04_linux.run] is the first match, asked for 11.2.0
    on Linux/x86-64, gives the URL that ends in that filename under
    [local_installers]. *)
Theorem linux_installer_url (client : HttpClient) (version : string)
    (arch : Arch) (response : HttpResponse) :
  versionChars version = true ->
  geInt (majorOf version) 11 = true ->
  arch = X86_64 \/ arch = ARM64_SBSA ->
  client (manifestOf version) = Ok response ->
  statusCode response = 200 ->
  let suffix := if Arch_eqb arch X86_64 then "_linux.run" else "_linux_sbsa.run" in
  (forall l1 f l2,
     filenamesOf response = l1 ++ f :: l2 ->
     installerName version suffix f ->
     Forall (fun g => ~ installerName version suffix g) l1 ->
     run (getCudaInstallerUrl client CUDA_LINKS version LINUX arch)
     = (Ok ("https://developer.download.nvidia.com/compute/cuda/" ++ version
              ++ "/local_installers/" ++ f)%string,
        [manifestOf version]))
  /\ (Forall (fun g => ~ installerName version suffix g) (filenamesOf response) ->
      run (getCudaInstallerUrl client CUDA_LINKS version LINUX arch)
      = (Throw (NoMatchingInstaller version LINUX arch), [manifestOf version]))
  /\ (version = "11.2.0" -> arch = X86_64 ->
      forall l1 l2,
        filenamesOf response = l1 ++ "cuda_11.2.0_460.27.04_linux.run" :: l2 ->
        Forall (fun g => ~ installerName "11.2.0" "_linux.run" g) l1 ->
        run (getCudaInstallerUrl client CUDA_LINKS version LINUX arch)
        = (Ok "https://developer.download.nvidia.com/compute/cuda/11.2.0/local_installers/cuda_11.2.0_460.27.04_linux.run",
           [manifestOf version])).
Proof.
  intros V M A E S suffix.
  rewrite (getCudaInstallerUrl_modern client version LINUX arch
             (modern_supported version V M) M).
  rewrite (manifestUrl_linux client CUDA_LINKS version arch response M E S A).
  fold suffix.
  assert (First : forall l1 f l2,
             filenamesOf response = l1 ++ f :: l2 ->
             installerName version suffix f ->
             Forall (fun g => ~ installerName version suffix g) l1 ->
             match linuxLoop (linuxPattern version suffix) (filenamesOf response) with
             | Some f0 =>
                 if String.eqb f0 EmptyString
                 then Throw (NoMatchingInstaller version LINUX arch)
                 else Ok (getDownloadUrl version "local_installers" f0)
             | None => Throw (NoMatchingInstaller version LINUX arch)
             end
             = Ok ("https://developer.download.nvidia.com/compute/cuda/" ++ version
                     ++ "/local_installers/" ++ f)%string).
  { intros l1 f l2 F I N. rewrite F.
    rewrite (linuxLoop_first _ l1 l2 f (not_installerName _ _ _ N)
               (proj2 (test_linuxPattern _ _ _) I)).
    rewrite (installerName_nonempty _ _ _ I). reflexivity. }
  split; [|split].
  - intros l1 f l2 F I N. rewrite (First l1 f l2 F I N). reflexivity.
  - intro N. rewrite (linuxLoop_none _ _ (not_installerName _ _ _ N)). reflexivity.
  - intros -> -> l1 l2 F N. subst suffix. cbn [Arch_eqb] in First |- *.
    rewrite (First l1 _ l2 F); [reflexivity| |exact N].
    exists "", "460.27.04", "". split; [reflexivity|].
    exists "460", "27", ".04". repeat split; try reflexivity.
    right. exists "04". split; reflexivity.
Qed.

Lemma linux_installer_url_witness :
  run (getCudaInstallerUrl exampleManifest CUDA_LINKS "11.2.0" LINUX X86_64)
  = (Ok "https://developer.download.nvidia.com/compute/cuda/11.2.0/local_installers/cuda_11.2.0_460.27.04_linux.run",
     [manifestOf "11.2.0"]).
Proof.
  refine (proj2 (proj2 (linux_installer_url exampleManifest "11.2.0" X86_64
                          exampleChecksums _ _ _ _ _))
            eq_refl eq_refl
            ["cuda_11.2.0_460.27.04_linux_sbsa.run"]
            ["cuda_11.2.0_460.27.04_win10.exe";
             "cuda_11.2.0_460.27.04_windows.exe";
             "cuda_11.2.0_460.27.05_win10.exe"] _ _);
    try (vm_compute; reflexivity).
  - left. reflexivity.
  - repeat constructor. intro H. apply test_linuxPattern in H.
    vm_compute in H. discriminate H.
Defined.

(** A version of major 10 or less asked for Linux on x86-64 or on the ARM64
    server is settled before the manifest: no URL is ever requested. *)
Lemma legacy_linux_no_manifest (client : HttpClient) (table : LinkTable)
    (version : string) (arch : Arch) :
  leInt (majorOf version) 10 = true ->
  arch = X86_64 \/ arch = ARM64_SBSA ->
  snd (run (getCudaInstallerUrl client table version LINUX arch)) = [].
Proof.
  intros M A. unfold run, getCudaInstallerUrl. fold (majorOf version).
  destruct (ltZero _); [reflexivity|]. rewrite M.
  destruct A as [-> | ->]; cbn [OS_eqb Arch_eqb andb]; [|reflexivity].
  destruct (tableUrl table version LINUX X86_64); [reflexivity|].
  unfold afterTable. rewrite M. cbn [OS_eqb Arch_eqb andb].
  destruct (lookupLink table version); reflexivity.
Qed.

(** ** The examples of the specification *)

Example compare_padding : compareVersions "10.1" "10.1.0" = ofZ 0.
Proof. vm_compute. reflexivity. Qed.

Example compare_numeric : compareVersions "11.2" "11.10" = ofZ (-8).
Proof. vm_compute. reflexivity. Qed.

Example compare_non_numeric : compareVersions "11.x" "11.0" = ofZ 0.
Proof. vm_compute. reflexivity. Qed.

Example resolve_latest :
  findCudaVersionIn ["10.0"; "10.1"; "10.2"; "11.0.1"; "11.0.3"] "latest"
  = Some "11.0.3".
Proof. reflexivity. Qed.

Example resolve_major :
  findCudaVersionIn ["10.0"; "10.1"; "10.2"; "11.0.1"; "11.0.3"] "10"
  = Some "10.2".
Proof. reflexivity. Qed.

Example resolve_minor :
  findCudaVersionIn ["10.0"; "10.1"; "10.2"; "11.0.1"; "11.0.3"] "11.0"
  = Some "11.0.3".
Proof. reflexivity. Qed.

Example resolve_not_found :
  findCudaVersionIn ["10.0"; "10.1"; "10.2"; "11.0.1"; "11.0.3"] "9.9" = None.
Proof. reflexivity. Qed.

Example sort_is_numeric :
  sortVersions ["11.10"; "11.2"; "10.1.0"; "10.1"; "9"]
  = ["9"; "10.1.0"; "10.1"; "11.2"; "11.10"].
Proof. vm_compute. reflexivity. Qed.

Example manifest_order :
  map fst (Object_entries (parseMd5sum "aa cuda_11.run
bb 10
cc 2
dd
ee  ff
gg cuda_11.run"))
  = ["2"; "10"; "cuda_11.run"; "undefined"; ""].
Proof. vm_compute. reflexivity. Qed.

(** * Further properties of the code *)

(** ** The comparator *)

Lemma strictNe_sym (x y : jsnum) : strictNe x y = strictNe y x.
Proof.
  destruct x as [|m|p], y as [|n|q]; cbn [strictNe]; try reflexivity.
  - destruct m, n; reflexivity.
  - rewrite Z.eqb_sym. reflexivity.
Qed.

Lemma sub_swap (x y : jsnum) :
  x <> NaN -> y <> NaN -> strictNe x y = true ->
  sub y x = sub (ofZ 0) (sub x y).
Proof.
  intros Hx Hy. rewrite ofZ_zero.
  destruct x as [|m|p], y as [|n|q]; try congruence.
  - cbn [strictNe sub]. destruct m, n; cbn; congruence.
  - intros _. reflexivity.
  - intros _. cbn [sub]. rewrite negb_involutive. reflexivity.
  - intros _. change (round (q - p) 1 = sub (Fin 0) (round (p - q) 1)).
    rewrite <- round_opp. f_equal. lia.
Qed.

Lemma compareLoop_swap (xs ys : list jsnum) (n i : nat) :
  compareLoop ys xs n i = sub (ofZ 0) (compareLoop xs ys n i).
Proof.
  revert i. induction n as [|n IH]; intro i; cbn [compareLoop].
  - reflexivity.
  - rewrite (strictNe_sym (orZero (nth_error ys i))).
    destruct (strictNe (orZero (nth_error xs i)) (orZero (nth_error ys i))) eqn:E.
    + apply sub_swap; auto using orZero_not_NaN.
    + apply IH.
Qed.

Lemma compareLoop_same (xs : list jsnum) (n i : nat) :
  compareLoop xs xs n i = ofZ 0.
Proof.
  revert i. induction n as [|n IH]; intro i; cbn [compareLoop]; [reflexivity|].
  rewrite strictNe_ncmp, ncmp_refl by apply orZero_not_NaN. apply IH.
Qed.

(** X1.  Swapping the arguments of [compareVersions] negates the result,
    so the signs are opposite and every two versions are comparable;
    comparing a version with itself gives zero. *)
Theorem compareVersions_antisymmetric :
  (forall a b, compareVersions b a = sub (ofZ 0) (compareVersions a b))
  /\ (forall a b, gtZero (compareVersions a b) = ltZero (compareVersions b a))
  /\ (forall a b,
        leZero (compareVersions a b) = true \/ leZero (compareVersions b a) = true)
  /\ (forall a, compareVersions a a = ofZ 0).
Proof.
  split; [|split; [|split]].
  - intros a b. unfold compareVersions. rewrite Nat.max_comm.
    apply compareLoop_swap.
  - exact gtZero_swap.
  - intros a b. destruct (gtZero (compareVersions a b)) eqn:E.
    + right. apply gtZero_vle, E.
    + left. apply not_gtZero_vle, E.
  - intro a. apply compareLoop_same.
Qed.

(** X2.  The order of the comparator is transitive: when [a] is not above
    [b] and [b] is not above [c], [a] is not above [c]. *)
Theorem compareVersions_transitive (a b c : string) :
  leZero (compareVersions a b) = true ->
  leZero (compareVersions b c) = true ->
  leZero (compareVersions a c) = true.
Proof. exact (vle_trans a b c). Qed.

Lemma compareVersions_transitive_witness :
  leZero (compareVersions "10.1" "11.2") = true.
Proof.
  apply (compareVersions_transitive "10.1" "10.1.0" "11.2");
    vm_compute; reflexivity.
Defined.

Lemma split_append (sep : ascii) (a c : string) :
  split sep (a ++ String sep c) = (split sep a ++ split sep c)%list.
Proof.
  induction a as [|ch a IH]; cbn [append split].
  - rewrite Ascii.eqb_refl. reflexivity.
  - destruct (Ascii.eqb ch sep).
    + rewrite IH. reflexivity.
    + rewrite IH. destruct (split_cons sep a) as (h & t & ->). reflexivity.
Qed.

Lemma compareLoop_ext (xs xs' ys ys' : list jsnum) (n i : nat) :
  (forall j, seqOf xs j = seqOf xs' j) ->
  (forall j, seqOf ys j = seqOf ys' j) ->
  compareLoop xs ys n i = compareLoop xs' ys' n i.
Proof.
  intros Hx Hy. revert i. induction n as [|n IH]; intro i; cbn [compareLoop].
  - reflexivity.
  - fold (seqOf xs i) (seqOf ys i) (seqOf xs' i) (seqOf ys' i).
    rewrite Hx, Hy, IH. reflexivity.
Qed.

Lemma compareLoop_zeros (xs ys : list jsnum) (n i : nat) :
  (List.length xs <= i)%nat -> (List.length ys <= i)%nat ->
  compareLoop xs ys n i = ofZ 0.
Proof.
  revert i. induction n as [|n IH]; intros i Hx Hy; cbn [compareLoop].
  - reflexivity.
  - fold (seqOf xs i) (seqOf ys i).
    rewrite !seqOf_past_end by assumption.
    change (strictNe (ofZ 0) (ofZ 0)) with false. cbv iota.
    apply IH; lia.
Qed.

Lemma compareLoop_more (xs ys : list jsnum) (n k i : nat) :
  (List.length xs <= i + n)%nat -> (List.length ys <= i + n)%nat ->
  compareLoop xs ys (n + k) i = compareLoop xs ys n i.
Proof.
  revert i. induction n as [|n IH]; intros i Hx Hy; cbn [Nat.add compareLoop].
  - apply compareLoop_zeros; lia.
  - destruct (strictNe _ _); [reflexivity|]. apply IH; lia.
Qed.

(** The loop gives the same answer for every bound past both ends. *)
Lemma compareLoop_bound (xs ys : list jsnum) (N : nat) :
  (List.length xs <= N)%nat -> (List.length ys <= N)%nat ->
  compareLoop xs ys N 0
  = compareLoop xs ys (Nat.max (List.length xs) (List.length ys)) 0.
Proof.
  intros Hx Hy. set (m := Nat.max _ _).
  replace N with (m + (N - m))%nat by lia.
  apply compareLoop_more; lia.
Qed.

Lemma seqOf_trailing_zero (xs : list jsnum) (j : nat) :
  seqOf (xs ++ [ofZ 0]) j = seqOf xs j.
Proof.
  unfold seqOf. destruct (Nat.lt_ge_cases j (List.length xs)) as [H|H].
  - rewrite nth_error_app1 by exact H. reflexivity.
  - rewrite nth_error_app2 by exact H.
    rewrite (proj2 (nth_error_None xs j) H).
    destruct (j - List.length xs)%nat as [|[|k]]; reflexivity.
Qed.

Lemma parts_trailing_zero (a : string) :
  map Number (split "." (a ++ ".0"))
  = (map Number (split "." a) ++ [ofZ 0])%list.
Proof.
  change (a ++ ".0")%string with (a ++ String "." "0")%string.
  rewrite split_append, map_app. reflexivity.
Qed.

(** X3.  A trailing [.0] component never changes a comparison: on either
    side, [a ++ ".0"] compares exactly as [a] does. *)
Theorem compareVersions_trailing_zero :
  (forall a b, compareVersions (a ++ ".0") b = compareVersions a b)
  /\ (forall a b, compareVersions b (a ++ ".0") = compareVersions b a)
  /\ (forall a, compareVersions a (a ++ ".0") = ofZ 0).
Proof.
  assert (L : forall a b, compareVersions (a ++ ".0") b = compareVersions a b).
  { intros a b. unfold compareVersions. rewrite parts_trailing_zero.
    set (xs := map Number (split "." a)). set (ys := map Number (split "." b)).
    rewrite (compareLoop_ext (xs ++ [ofZ 0]) xs ys ys)
      by (intro j; first [apply seqOf_trailing_zero|reflexivity]).
    apply compareLoop_bound; rewrite ?length_app; cbn [List.length]; lia. }
  assert (R : forall a b, compareVersions b (a ++ ".0") = compareVersions b a).
  { intros a b. unfold compareVersions. rewrite parts_trailing_zero.
    set (xs := map Number (split "." a)). set (ys := map Number (split "." b)).
    rewrite (compareLoop_ext ys ys (xs ++ [ofZ 0]) xs)
      by (intro j; first [apply seqOf_trailing_zero|reflexivity]).
    apply compareLoop_bound; rewrite ?length_app; cbn [List.length]; lia. }
  split; [exact L|]. split; [exact R|].
  intro a. rewrite R. apply compareLoop_same.
Qed.

(** ** Sorting *)

Lemma vle_not_gtZero (a b : string) :
  vle a b -> gtZero (compareVersions a b) = false.
Proof.
  unfold vle, leZero, gtZero.
  destruct (sign (compareVersions a b)) as [[]|]; congruence.
Qed.

Lemma sortVersions_of_sorted (l : list string) :
  StronglySorted vle l -> sortVersions l = l.
Proof.
  unfold sortVersions.
  induction 1 as [|x l Hs IH Hx]; cbn [arraySort fold_right]; [reflexivity|].
  fold (arraySort compareVersions l). rewrite IH.
  destruct l as [|y l]; cbn [sortInsert]; [reflexivity|].
  rewrite (vle_not_gtZero x y (Forall_inv Hx)). reflexivity.
Qed.

(** X4.  [sortVersions] returns a permutation of its input that is
    non-decreasing under [compareVersions], each entry against every later
    one. *)
Theorem sortVersions_sorts (versions : list string) :
  Permutation (sortVersions versions) versions
  /\ StronglySorted (fun a b => leZero (compareVersions a b) = true)
       (sortVersions versions)
  /\ List.length (sortVersions versions) = List.length versions.
Proof.
  split; [apply sortVersions_perm|]. split; [apply sortVersions_sorted|].
  apply Permutation_length, sortVersions_perm.
Qed.

(** X5.  [sortVersions] leaves a list that is already sorted as it is, so
    sorting twice is the same as sorting once. *)
Theorem sortVersions_idempotent :
  (forall versions,
     StronglySorted (fun a b => leZero (compareVersions a b) = true) versions ->
     sortVersions versions = versions)
  /\ (forall versions, sortVersions (sortVersions versions) = sortVersions versions).
Proof.
  split; [exact sortVersions_of_sorted|].
  intro versions. apply sortVersions_of_sorted, sortVersions_sorted.
Qed.

Lemma sortVersions_idempotent_witness :
  sortVersions ["10.1.0"; "10.1"; "11.2"] = ["10.1.0"; "10.1"; "11.2"].
Proof.
  apply (proj1 sortVersions_idempotent).
  repeat constructor; vm_compute; reflexivity.
Defined.

Lemma sameVersion_vle (v x : string) :
  sameVersion v x = true -> vle v x /\ vle x v.
Proof.
  unfold sameVersion. intro H. apply andb_true_iff in H. destruct H as [L G].
  apply negb_true_iff in L, G. split.
  - apply not_gtZero_vle, G.
  - apply not_gtZero_vle. rewrite gtZero_swap. exact L.
Qed.

Lemma sortInsert_stable (v x : string) (l : list string) :
  filter (sameVersion v) (sortInsert compareVersions x l)
  = filter (sameVersion v) (x :: l).
Proof.
  induction l as [|y l IH]; cbn [sortInsert]; [reflexivity|].
  destruct (gtZero (compareVersions x y)) eqn:G; [|reflexivity].
  cbn [filter] in *. rewrite IH.
  destruct (sameVersion v x) eqn:Sx, (sameVersion v y) eqn:Sy; try reflexivity.
  exfalso. apply sameVersion_vle in Sx, Sy.
  destruct Sx as [_ Hxv], Sy as [Hvy _].
  pose proof (vle_not_gtZero x y (vle_trans _ _ _ Hxv Hvy)). congruence.
Qed.

(** X6.  [sortVersions] is stable: the versions that the comparator does
    not tell apart from a given one, such as 10.1 and 10.1.0, come out in
    the order they went in. *)
Theorem sortVersions_stable (versions : list string) (v : string) :
  filter (sameVersion v) (sortVersions versions)
  = filter (sameVersion v) versions.
Proof.
  unfold sortVersions.
  induction versions as [|x l IH]; cbn [arraySort fold_right]; [reflexivity|].
  fold (arraySort compareVersions l).
  rewrite sortInsert_stable. cbn [filter]. rewrite IH. reflexivity.
Qed.

(** ** Splitting and joining on the dot *)

Lemma split_noDot (s : string) : noDot s = true -> split "." s = [s].
Proof.
  induction s as [|c s IH]; cbn [noDot split]; [reflexivity|].
  intro H. apply andb_true_iff in H. destruct H as [C N].
  apply negb_true_iff in C. rewrite C, (IH N). reflexivity.
Qed.

Lemma split_parts_noDot (v : string) :
  Forall (fun p => noDot p = true) (split "." v).
Proof.
  induction v as [|c v IH]; cbn [split].
  - repeat constructor.
  - destruct (Ascii.eqb c ".") eqn:C.
    + constructor; [reflexivity|exact IH].
    + destruct (split "." v) as [|h t]; [repeat constructor; cbn; now rewrite C|].
      constructor; [|exact (Forall_inv_tail IH)].
      cbn [noDot]. rewrite C, (Forall_inv IH). reflexivity.
Qed.

Lemma join_cons (sep x y : string) (l : list string) :
  join sep (x :: y :: l) = (x ++ sep ++ join sep (y :: l))%string.
Proof. reflexivity. Qed.

Lemma join_split (v : string) : join "." (split "." v) = v.
Proof.
  induction v as [|c v IH]; cbn [split]; [reflexivity|].
  destruct (split_cons "." v) as (h & t & E). rewrite E in *.
  destruct (Ascii.eqb_spec c ".") as [->|_].
  - rewrite join_cons, IH. reflexivity.
  - rewrite <- IH. destruct t as [|y t]; reflexivity.
Qed.

Lemma split_join (l : list string) :
  l <> [] -> Forall (fun p => noDot p = true) l -> split "." (join "." l) = l.
Proof.
  induction l as [|x l IH]; [congruence|]. intros _ H.
  pose proof (Forall_inv H) as Hx. pose proof (Forall_inv_tail H) as Hl.
  destruct l as [|y l].
  - cbn. apply split_noDot, Hx.
  - rewrite join_cons. change ("." ++ join "." (y :: l))%string
      with (String "." (join "." (y :: l))).
    rewrite split_append, (split_noDot x Hx), IH by (congruence || exact Hl).
    reflexivity.
Qed.

Lemma join_firstn_prefix (sep : string) (n : nat) (l : list string) :
  hasPrefix (join sep (firstn n l)) (join sep l).
Proof.
  revert n. induction l as [|x l IH]; intro n.
  - rewrite firstn_nil. exists "". reflexivity.
  - destruct n as [|n]; [exists (join sep (x :: l)); reflexivity|].
    cbn [firstn]. destruct l as [|y l].
    + rewrite firstn_nil. exists "". cbn. now rewrite append_nil_r.
    + destruct n as [|n].
      * cbn [firstn]. exists (sep ++ join sep (y :: l))%string. reflexivity.
      * destruct (IH (S n)) as [rest E]. cbn [firstn] in *.
        exists rest.
        change (join sep (x :: y :: firstn n l))
          with (x ++ sep ++ join sep (y :: firstn n l))%string.
        rewrite join_cons, E, !append_assoc. reflexivity.
Qed.

Lemma numeral_noDot (d : string) : numeral d = true -> noDot d = true.
Proof.
  unfold numeral. intro H. apply andb_true_iff in H. destruct H as [H _].
  induction d as [|c d IH]; [reflexivity|].
  cbn [allDigits noDot] in *. apply andb_true_iff in H. destruct H as [C A].
  destruct (digit_facts c C) as (_ & _ & _ & _ & _ & _ & D & _).
  rewrite D, (IH A). reflexivity.
Qed.

(** ** Normalisation *)

Lemma first_firstn (n : nat) (l : list string) :
  l <> [] -> first (firstn (S n) l) = first l.
Proof. destruct l; [congruence|reflexivity]. Qed.

Lemma Forall_firstn' {A} (P : A -> Prop) (n : nat) (l : list A) :
  Forall P l -> Forall P (firstn n l).
Proof.
  intro H. revert n. induction H as [|x l Hx _ IH]; intros [|n]; cbn [firstn];
    constructor; auto.
Qed.

Lemma split_normalized (v : string) :
  split "." (join "." (firstn 2 (split "." v))) = firstn 2 (split "." v).
Proof.
  apply split_join.
  - destruct (split_cons "." v) as (h & t & ->). discriminate.
  - apply Forall_firstn', split_parts_noDot.
Qed.

(** X7.  [normalizeCudaVersion] is idempotent: a normalised version is
    normalised to itself. *)
Theorem normalizeCudaVersion_idempotent (version : string) :
  normalizeCudaVersion (normalizeCudaVersion version)
  = normalizeCudaVersion version.
Proof.
  unfold normalizeCudaVersion at 2.
  destruct (isNaN _) eqn:N; [reflexivity|].
  destruct (leInt _ 10) eqn:L; [|reflexivity].
  unfold normalizeCudaVersion. unfold slice0.
  rewrite split_normalized, first_firstn, N, L, firstn_firstn.
  - reflexivity.
  - destruct (split_cons "." version) as (h & t & ->). discriminate.
Qed.

(** X8.  [normalizeCudaVersion] only ever cuts a version short: its result
    starts the input, and it is either the input itself or has at most two
    dot-separated components. *)
Theorem normalizeCudaVersion_truncates (version : string) :
  hasPrefix (normalizeCudaVersion version) version
  /\ (normalizeCudaVersion version = version
      \/ (List.length (split "." (normalizeCudaVersion version)) <= 2)%nat).
Proof.
  unfold normalizeCudaVersion.
  destruct (isNaN _); [split; [exists ""; now rewrite append_nil_r|now left]|].
  destruct (leInt _ 10); [|split; [exists ""; now rewrite append_nil_r|now left]].
  split.
  - rewrite <- (join_split version) at 2. apply join_firstn_prefix.
  - right. unfold slice0. rewrite split_normalized. apply firstn_le_length.
Qed.

(** ** The listings *)

Lemma fetchRedistribVersions_inv (client : HttpClient) (log log' : list string)
    (versions : list string) :
  fetchRedistribVersions client log = (Ok versions, log') ->
  exists r,
    client redistribUrl = Ok r /\ statusCode r = 200
    /\ log' = (log ++ [redistribUrl])%list
    /\ versions
       = sortVersions
           (uniq (map (fun m => group m 1)
                      (execAll redistribPattern (readBody r) 0))).
Proof.
  unfold fetchRedistribVersions, bind, httpGet, throw, ret.
  destruct (client redistribUrl) as [r|e]; [|discriminate].
  destruct (Z.eqb_spec (statusCode r) 200) as [S|S]; cbn [negb]; [|discriminate].
  intros [= <- <-]. eauto.
Qed.

Lemma fetchArchiveVersions_inv (client : HttpClient) (log log' : list string)
    (versions : list string) :
  fetchArchiveVersions client log = (Ok versions, log') ->
  exists r,
    client archiveUrl = Ok r /\ statusCode r = 200
    /\ log' = (log ++ [archiveUrl])%list
    /\ versions
       = sortVersions
           (uniq (map (fun m => group m 1) (execAll pattern1 (readBody r) 0)
                  ++ map (fun m =>
                            if groupSet m 3
                            then (group m 1 ++ "." ++ group m 2 ++ "."
                                    ++ group m 3)%string
                            else (group m 1 ++ "." ++ group m 2)%string)
                         (execAll pattern2 (readBody r) 0))).
Proof.
  unfold fetchArchiveVersions, bind, httpGet, throw, ret.
  destruct (client archiveUrl) as [r|e]; [|discriminate].
  destruct (Z.eqb_spec (statusCode r) 200) as [S|S]; cbn [negb]; [|discriminate].
  intros [= <- <-]. eauto.
Qed.

Lemma fetchOpensourceVersions_inv (client : HttpClient) (log log' : list string)
    (versions : list string) :
  fetchOpensourceVersions client log = (Ok versions, log') ->
  exists r,
    client opensourceUrl = Ok r /\ statusCode r = 200
    /\ log' = (log ++ [opensourceUrl])%list
    /\ versions
       = sortVersions
           (uniq (map (fun m => normalizeCudaVersion (group m 1))
                      (execAll versionPattern (readBody r) 0))).
Proof.
  unfold fetchOpensourceVersions, bind, httpGet, throw, ret.
  destruct (client opensourceUrl) as [r|e]; [|discriminate].
  destruct (Z.eqb_spec (statusCode r) 200) as [S|S]; cbn [negb]; [|discriminate].
  intros [= <- <-]. eauto.
Qed.

Lemma sorted_set (l : list string) :
  NoDup (sortVersions (uniq l)) /\ StronglySorted vle (sortVersions (uniq l)).
Proof.
  split; [|apply sortVersions_sorted].
  eapply Permutation_NoDup; [symmetry; apply sortVersions_perm|apply uniq_NoDup].
Qed.

(** X9.  Each of the three listing fetches, when it succeeds, returns its
    versions without duplicates and sorted by the comparator. *)
Theorem listings_sorted_unique (client : HttpClient) (log log' : list string)
    (versions : list string) :
  fetchRedistribVersions client log = (Ok versions, log')
  \/ fetchArchiveVersions client log = (Ok versions, log')
  \/ fetchOpensourceVersions client log = (Ok versions, log') ->
  NoDup versions
  /\ StronglySorted (fun a b => leZero (compareVersions a b) = true) versions.
Proof.
  intros [H|[H|H]].
  - apply fetchRedistribVersions_inv in H. destruct H as (r & _ & _ & _ & ->).
    apply sorted_set.
  - apply fetchArchiveVersions_inv in H. destruct H as (r & _ & _ & _ & ->).
    apply sorted_set.
  - apply fetchOpensourceVersions_inv in H. destruct H as (r & _ & _ & _ & ->).
    apply sorted_set.
Qed.

Lemma listings_sorted_unique_witness :
  NoDup ["11.2.0"; "12.4.1"]
  /\ StronglySorted (fun a b => leZero (compareVersions a b) = true)
       ["11.2.0"; "12.4.1"].
Proof.
  apply (listings_sorted_unique exampleListing [] [archiveUrl]).
  right. left. vm_compute. reflexivity.
Defined.

Lemma fetch_logs (client : HttpClient) (log : list string) :
  snd (fetchRedistribVersions client log) = (log ++ [redistribUrl])%list
  /\ snd (fetchArchiveVersions client log) = (log ++ [archiveUrl])%list
  /\ snd (fetchOpensourceVersions client log) = (log ++ [opensourceUrl])%list.
Proof.
  unfold fetchRedistribVersions, fetchArchiveVersions, fetchOpensourceVersions,
    bind, httpGet, throw, ret.
  repeat split;
    match goal with
    | |- context [client ?u] => destruct (client u) as [r|e]; [|reflexivity]
    end; destruct (negb _); reflexivity.
Qed.

Lemma fetchAvailableCudaVersions_log (client : HttpClient) (log : list string) :
  snd (fetchAvailableCudaVersions client log)
  = (log ++ [redistribUrl; archiveUrl; opensourceUrl])%list.
Proof.
  unfold fetchAvailableCudaVersions, bind, promiseAll3.
  destruct (fetch_logs client log) as (L1 & _).
  destruct (fetchRedistribVersions client log) as [o1 log1]. cbn [snd] in L1.
  destruct (fetch_logs client log1) as (_ & L2 & _).
  destruct (fetchArchiveVersions client log1) as [o2 log2]. cbn [snd] in L2.
  destruct (fetch_logs client log2) as (_ & _ & L3).
  destruct (fetchOpensourceVersions client log2) as [o3 log3]. cbn [snd] in L3.
  subst. rewrite <- !app_assoc. cbn [app].
  destruct o1 as [a|e1], o2 as [b|e2], o3 as [c|e3]; reflexivity.
Qed.

Lemma fetchAvailableCudaVersions_inv (client : HttpClient) (log log' : list string)
    (catalog : list string) :
  fetchAvailableCudaVersions client log = (Ok catalog, log') ->
  exists rv av ov log1 log2,
    fetchRedistribVersions client log = (Ok rv, log1)
    /\ fetchArchiveVersions client log1 = (Ok av, log2)
    /\ fetchOpensourceVersions client log2 = (Ok ov, log')
    /\ catalog = mergeVersions rv av ov.
Proof.
  unfold fetchAvailableCudaVersions, bind, promiseAll3, ret.
  destruct (fetchRedistribVersions client log) as [o1 log1] eqn:E1.
  destruct (fetchArchiveVersions client log1) as [o2 log2] eqn:E2.
  destruct (fetchOpensourceVersions client log2) as [o3 log3] eqn:E3.
  destruct o1 as [a|e1], o2 as [b|e2], o3 as [c|e3]; try discriminate.
  intros [= <- <-]. exists a, b, c, log1, log2. auto.
Qed.

(** X10.  Discovery is all or nothing: the three listings are always
    requested, in order; a catalog is produced only when each of them
    answered with status 200; and when discovery fails, [findCudaVersion]
    fails with the same error instead of resolving against a partial
    catalog. *)
Theorem discovery_all_or_nothing :
  (forall client,
     snd (run (fetchAvailableCudaVersions client))
     = [redistribUrl; archiveUrl; opensourceUrl])
  /\ (forall client catalog log,
        run (fetchAvailableCudaVersions client) = (Ok catalog, log) ->
        exists r1 r2 r3,
          client redistribUrl = Ok r1 /\ statusCode r1 = 200
          /\ client archiveUrl = Ok r2 /\ statusCode r2 = 200
          /\ client opensourceUrl = Ok r3 /\ statusCode r3 = 200)
  /\ (forall client inputVersion e log,
        run (fetchAvailableCudaVersions client) = (Throw e, log) ->
        run (findCudaVersion client inputVersion) = (Throw e, log)).
Proof.
  split; [|split].
  - intro client. apply (fetchAvailableCudaVersions_log client []).
  - intros client catalog log H. unfold run in H.
    apply fetchAvailableCudaVersions_inv in H.
    destruct H as (rv & av & ov & log1 & log2 & H1 & H2 & H3 & _).
    apply fetchRedistribVersions_inv in H1. destruct H1 as (r1 & ? & ? & _).
    apply fetchArchiveVersions_inv in H2. destruct H2 as (r2 & ? & ? & _).
    apply fetchOpensourceVersions_inv in H3. destruct H3 as (r3 & ? & ? & _).
    exists r1, r2, r3. auto 10.
  - intros client s e log H. unfold run, findCudaVersion, bind in *.
    rewrite H. reflexivity.
Qed.

Lemma discovery_all_or_nothing_witness :
  (exists r1 r2 r3,
     exampleListing redistribUrl = Ok r1 /\ statusCode r1 = 200
     /\ exampleListing archiveUrl = Ok r2 /\ statusCode r2 = 200
     /\ exampleListing opensourceUrl = Ok r3 /\ statusCode r3 = 200)
  /\ run (findCudaVersion offline "latest")
     = (Throw (RequestRejected redistribUrl),
        [redistribUrl; archiveUrl; opensourceUrl]).
Proof.
  destruct discovery_all_or_nothing as (_ & A & B). split.
  - eapply A. vm_compute. reflexivity.
  - apply B. vm_compute. reflexivity.
Defined.

(** ** The resolver *)

Lemma findCudaVersionIn_sound (versions : list string) (s v : string) :
  findCudaVersionIn versions s = Some v ->
  In v versions /\ (s = "latest" \/ v = s \/ hasPrefix (s ++ ".") v).
Proof.
  unfold findCudaVersionIn.
  destruct (String.eqb_spec s "latest") as [->|L].
  - intro H. split; [apply lastOf_In, H|now left].
  - destruct (includes versions s) eqn:I.
    + intros [= <-]. apply includes_In in I. auto.
    + intro H.
      assert (F : In v (filter (fun w => startsWith w (s ++ ".")) versions)).
      { destruct (0 <? _)%nat; [apply lastOf_In, H|discriminate H]. }
      apply filter_In in F. destruct F as [F P].
      apply startsWith_hasPrefix in P. auto.
Qed.

(** X11.  Whatever [findCudaVersion] finds is an entry of the catalog, and
    it is tied to the specifier: the specifier was [latest], or the entry
    is the specifier itself, or it starts with the specifier followed by a
    dot. *)
Theorem resolver_result_in_catalog (versions : list string)
    (inputVersion v : string) :
  findCudaVersionIn versions inputVersion = Some v ->
  In v versions
  /\ (inputVersion = "latest" \/ v = inputVersion
      \/ hasPrefix (inputVersion ++ ".") v).
Proof. apply findCudaVersionIn_sound. Qed.

Lemma resolver_result_in_catalog_witness :
  In "11.0.3" ["10.0"; "10.2"; "11.0.1"; "11.0.3"]
  /\ ("11.0" = "latest" \/ "11.0.3" = "11.0" \/ hasPrefix ("11.0" ++ ".") "11.0.3").
Proof.
  apply (resolver_result_in_catalog ["10.0"; "10.2"; "11.0.1"; "11.0.3"] "11.0").
  reflexivity.
Defined.

Lemma findCudaVersion_inv (client : HttpClient) (s : string)
    (found : option string) (log : list string) :
  run (findCudaVersion client s) = (Ok found, log) ->
  exists catalog,
    run (fetchAvailableCudaVersions client) = (Ok catalog, log)
    /\ found = findCudaVersionIn catalog s.
Proof.
  unfold run, findCudaVersion, bind, ret.
  destruct (fetchAvailableCudaVersions client []) as [[catalog|e] log1];
    [|discriminate].
  intros [= <- <-]. eauto.
Qed.

Lemma catalog_supported (client : HttpClient) (catalog log : list string) (v : string) :
  run (fetchAvailableCudaVersions client) = (Ok catalog, log) ->
  In v catalog ->
  ltZero (compareVersions v START_SUPPORTED_CUDA_VERSION) = false.
Proof.
  intros H Hv. unfold run in H. apply fetchAvailableCudaVersions_inv in H.
  destruct H as (rv & av & ov & _ & _ & _ & _ & _ & ->).
  pose proof (mergeVersions_supported rv av ov) as F.
  rewrite Forall_forall in F. apply F, Hv.
Qed.

Lemma getMd5sumUrl_throws (table : LinkTable) (version : string) (e : error) :
  getMd5sumUrl table version = Throw e -> e = TypeError.
Proof.
  unfold getMd5sumUrl. destruct (geInt _ 11); [discriminate|].
  destruct (lookupLink table version); [discriminate|]. now intros [= <-].
Qed.

(** The manifest step either stops at the URL of the manifest, before any
    request, or requests that URL and nothing else. *)
Lemma manifestUrl_requests (client : HttpClient) (table : LinkTable)
    (version : string) (os : OS) (arch : Arch) (log : list string) :
  manifestUrl client table version os arch log = (Throw TypeError, log)
  \/ exists url,
       getMd5sumUrl table version = Ok url
       /\ snd (manifestUrl client table version os arch log)
          = (log ++ [url])%list.
Proof.
  unfold manifestUrl, bind, fetchMd5sum, bind, lift, httpGet.
  destruct (getMd5sumUrl table version) as [url|e] eqn:G.
  - right. exists url. split; [reflexivity|].
    destruct (client url) as [r|e]; [|reflexivity].
    destruct (negb _); [reflexivity|]. unfold ret, throw.
    destruct os, arch; cbn [OS_eqb Arch_eqb];
      repeat match goal with
             | |- context [linuxLoop ?p ?l] => destruct (linuxLoop p l)
             | |- context [windowsLoop ?l ?a ?b] => destruct (windowsLoop l a b)
             | |- context [orElse ?a ?b] => destruct (orElse a b)
             | |- context [truthyString ?a] => destruct (truthyString a)
             end; reflexivity.
  - left. apply getMd5sumUrl_throws in G. subst e. reflexivity.
Qed.

(** Before the manifest step nothing is requested. *)
Lemma getCudaInstallerUrl_steps (client : HttpClient) (table : LinkTable)
    (version : string) (os : OS) (arch : Arch) :
  (exists o, run (getCudaInstallerUrl client table version os arch) = (o, [])
             /\ (o = Throw (UnsupportedVersion version)
                 /\ ltZero (compareVersions version START_SUPPORTED_CUDA_VERSION)
                    = true
                 \/ o = Throw (UnsupportedPlatformCombination version)
                 \/ o = Throw TypeError
                 \/ exists link url,
                      lookupLink table version = Some link
                      /\ linkField link os arch = Some url /\ o = Ok url))
  \/ run (getCudaInstallerUrl client table version os arch)
     = run (manifestUrl client table version os arch).
Proof.
  unfold run, getCudaInstallerUrl. fold (majorOf version).
  destruct (ltZero _) eqn:S; [left; eexists; split; [reflexivity|auto]|].
  destruct (leInt _ 10 && OS_eqb os LINUX && Arch_eqb arch ARM64_SBSA);
    [left; eexists; split; [reflexivity|auto]|].
  destruct (lookupLink table version) as [link|] eqn:L.
  - rewrite (tableUrl_present _ _ _ _ _ L). unfold afterTable. rewrite L.
    destruct os, arch; cbn [linkField OS_eqb Arch_eqb andb];
      repeat match goal with
             | |- context [String.eqb ?u EmptyString] =>
                 destruct (String.eqb u EmptyString)
             | |- context [leInt ?x 10] => destruct (leInt x 10)
             end; cbn [andb];
      first [ right; reflexivity
            | left; eexists; split; [reflexivity|];
              right; right; right; do 2 eexists; repeat split; reflexivity ].
  - rewrite (tableUrl_absent _ _ _ _ L). unfold afterTable. rewrite L.
    destruct (leInt _ 10 && OS_eqb os LINUX && Arch_eqb arch X86_64);
      [left; eexists; split; [reflexivity|auto]|].
    destruct (leInt _ 10 && OS_eqb os WINDOWS);
      [left; eexists; split; [reflexivity|auto]|].
    right. reflexivity.
Qed.

Lemma unsupported_only_at_check (client : HttpClient) (table : LinkTable)
    (version : string) (os : OS) (arch : Arch) (u : string) :
  ltZero (compareVersions version START_SUPPORTED_CUDA_VERSION) = false ->
  run (getCudaInstallerUrl client table version os arch)
  <> (Throw (UnsupportedVersion u), []).
Proof.
  intro H.
  destruct (getCudaInstallerUrl_steps client table version os arch)
    as [(o & E & [[-> C]|[->|[->|(link & url & _ & _ & ->)]]])|E];
    rewrite E; try discriminate; try congruence.
  unfold run.
  destruct (manifestUrl_requests client table version os arch [])
    as [M|(url & _ & M)].
  - rewrite M. discriminate.
  - intro Q. rewrite Q in M. discriminate M.
Qed.

(** X12.  A version that [findCudaVersion] resolved is an entry of the
    catalog and is never below the minimum supported version: handed to
    [getCudaInstallerUrl], for any platform, it is never turned away by the
    support check. *)
Theorem resolved_version_supported (client : HttpClient)
    (inputVersion v : string) (log : list string) :
  run (findCudaVersion client inputVersion) = (Ok (Some v), log) ->
  (exists catalog,
     run (fetchAvailableCudaVersions client) = (Ok catalog, log)
     /\ In v catalog)
  /\ ltZero (compareVersions v START_SUPPORTED_CUDA_VERSION) = false
  /\ (forall client' table os arch u,
        run (getCudaInstallerUrl client' table v os arch)
        <> (Throw (UnsupportedVersion u), [])).
Proof.
  intro H. apply findCudaVersion_inv in H. destruct H as (catalog & F & E).
  symmetry in E. apply findCudaVersionIn_sound in E. destruct E as [I _].
  pose proof (catalog_supported client catalog log v F I) as S.
  split; [eauto|]. split; [exact S|].
  intros client' table os arch u. apply unsupported_only_at_check, S.
Qed.

Lemma resolved_version_supported_witness :
  ltZero (compareVersions "12.4.1" START_SUPPORTED_CUDA_VERSION) = false.
Proof.
  apply (resolved_version_supported exampleListing "12" "12.4.1"
           [redistribUrl; archiveUrl; opensourceUrl]).
  vm_compute. reflexivity.
Defined.

Lemma lastOf_nonempty {A} (l : list A) :
  l <> [] -> exists x, lastOf l = Some x.
Proof.
  induction l as [|y l IH]; [congruence|]. intros _.
  destruct l as [|z l]; [exists y; reflexivity|].
  apply IH. discriminate.
Qed.

(** X13.  After a discovery that produced a catalog, [latest] resolves to
    the last entry, and no entry of the catalog is above it under the
    comparator. *)
Theorem latest_is_highest (client : HttpClient) (catalog log : list string) :
  run (fetchAvailableCudaVersions client) = (Ok catalog, log) ->
  exists latest,
    run (findCudaVersion client "latest") = (Ok (Some latest), log)
    /\ In latest catalog
    /\ (forall w, In w catalog -> leZero (compareVersions w latest) = true).
Proof.
  intro H. pose proof H as H'. unfold run in H'.
  apply fetchAvailableCudaVersions_inv in H'.
  destruct H' as (rv & av & ov & _ & _ & _ & _ & _ & E).
  assert (L : exists latest, lastOf catalog = Some latest).
  { apply lastOf_nonempty. intro N.
    assert (I : In "10.0" catalog)
      by (subst catalog; apply mergeVersions_legacy; cbn; auto).
    rewrite N in I. exact I. }
  destruct L as [latest Last]. exists latest. split; [|split].
  - unfold run, findCudaVersion, bind in *. rewrite H.
    unfold ret, findCudaVersionIn. cbn [String.eqb Ascii.eqb Bool.eqb].
    rewrite Last. reflexivity.
  - apply lastOf_In, Last.
  - intros w Hw.
    assert (S : StronglySorted vle catalog)
      by (subst catalog; apply mergeVersions_sorted).
    destruct (lastOf_sorted_max vle catalog latest S Last w Hw) as [->|R];
      [apply vle_refl|exact R].
Qed.

Lemma latest_is_highest_witness :
  exists latest,
    run (findCudaVersion exampleListing "latest")
    = (Ok (Some latest), [redistribUrl; archiveUrl; opensourceUrl])
    /\ In latest ["10.0"; "10.1"; "10.1.1"; "10.1.2"; "10.2"; "11.2.0"; "12.4.1"]
    /\ (forall w,
          In w ["10.0"; "10.1"; "10.1.1"; "10.1.2"; "10.2"; "11.2.0"; "12.4.1"] ->
          leZero (compareVersions w latest) = true).
Proof.
  apply (latest_is_highest exampleListing). vm_compute. reflexivity.
Defined.

(** X14.  The legacy versions go through end to end: after a discovery in
    which the three listings answered, each version of
    [OLD_CUDA_VERSIONS] resolves to itself, has an entry in the link table,
    and is located from that entry, for Linux/x86-64 and for Windows,
    without any further request. *)
Theorem legacy_versions_end_to_end (client : HttpClient)
    (redistrib archive opensource : HttpResponse) (v : string) :
  client redistribUrl = Ok redistrib -> statusCode redistrib = 200 ->
  client archiveUrl = Ok archive -> statusCode archive = 200 ->
  client opensourceUrl = Ok opensource -> statusCode opensource = 200 ->
  In v OLD_CUDA_VERSIONS ->
  run (findCudaVersion client v)
  = (Ok (Some v), [redistribUrl; archiveUrl; opensourceUrl])
  /\ exists link,
       lookupLink CUDA_LINKS v = Some link
       /\ linuxX86Url link <> EmptyString /\ windowsUrl link <> EmptyString
       /\ run (getCudaInstallerUrl client CUDA_LINKS v LINUX X86_64)
          = (Ok (linuxX86Url link), [])
       /\ (forall arch,
             run (getCudaInstallerUrl client CUDA_LINKS v WINDOWS arch)
             = (Ok (windowsUrl link), [])).
Proof.
  intros E1 S1 E2 S2 E3 S3 Hv.
  destruct (fetchAvailableCudaVersions_ok client redistrib archive opensource
              (conj E1 S1) (conj E2 S2) (conj E3 S3))
    as (rv & av & ov & _ & _ & _ & H).
  split.
  - unfold run, findCudaVersion, bind in *. rewrite H. unfold ret.
    do 2 f_equal. unfold findCudaVersionIn.
    assert (L : String.eqb v "latest" = false)
      by (cbn in Hv; repeat (destruct Hv as [<-|Hv]; [reflexivity|]);
          contradiction).
    rewrite L.
    rewrite (proj2 (includes_In _ _) (mergeVersions_legacy rv av ov v Hv)).
    reflexivity.
  - assert (L : exists link, lookupLink CUDA_LINKS v = Some link
                             /\ linuxX86Url link <> EmptyString
                             /\ windowsUrl link <> EmptyString).
    { cbn in Hv.
      repeat (destruct Hv as [<-|Hv];
              [eexists; split; [reflexivity|split; discriminate]|]).
      contradiction. }
    destruct L as (link & L & N1 & N2). exists link.
    destruct (CUDA_LINKS_resolves client v link L) as [A B]. auto.
Qed.

Lemma legacy_versions_end_to_end_witness :
  run (findCudaVersion exampleListing "10.1.2")
  = (Ok (Some "10.1.2"), [redistribUrl; archiveUrl; opensourceUrl]).
Proof.
  apply (legacy_versions_end_to_end exampleListing examplePage examplePage
           examplePage "10.1.2"); try reflexivity.
  cbn. auto.
Defined.

(** ** The locator *)

(** X15.  [getCudaInstallerUrl] makes at most one request, and the only
    URL it ever requests is the one [getMd5sumUrl] gives for the version. *)
Theorem locator_requests (client : HttpClient) (table : LinkTable)
    (version : string) (os : OS) (arch : Arch) :
  snd (run (getCudaInstallerUrl client table version os arch)) = []
  \/ exists url,
       getMd5sumUrl table version = Ok url
       /\ snd (run (getCudaInstallerUrl client table version os arch)) = [url].
Proof.
  destruct (getCudaInstallerUrl_steps client table version os arch)
    as [(o & E & _)|E]; rewrite E; [left; reflexivity|].
  unfold run.
  destruct (manifestUrl_requests client table version os arch [])
    as [M|(url & G & M)].
  - left. rewrite M. reflexivity.
  - right. exists url. auto.
Qed.

Lemma manifestUrl_failure (client : HttpClient) (table : LinkTable)
    (version : string) (os : OS) (arch : Arch) (response : HttpResponse) :
  geInt (majorOf version) 11 = true ->
  client (manifestOf version) = Ok response ->
  statusCode response <> 200 ->
  run (manifestUrl client table version os arch)
  = (Throw (TransportFailure (manifestOf version) (statusCode response)
              (statusMessage response)),
     [manifestOf version]).
Proof.
  intros M E S. unfold run, manifestUrl, bind, fetchMd5sum, bind, lift, httpGet,
    getMd5sumUrl.
  fold (majorOf version). rewrite M. fold (manifestOf version). rewrite E.
  apply Z.eqb_neq in S. rewrite S. reflexivity.
Qed.

Lemma manifestUrl_rejected (client : HttpClient) (table : LinkTable)
    (version : string) (os : OS) (arch : Arch) (e : error) :
  geInt (majorOf version) 11 = true ->
  client (manifestOf version) = Throw e ->
  run (manifestUrl client table version os arch) = (Throw e, [manifestOf version]).
Proof.
  intros M E. unfold run, manifestUrl, bind, fetchMd5sum, bind, lift, httpGet,
    getMd5sumUrl.
  fold (majorOf version). rewrite M. fold (manifestOf version). rewrite E.
  reflexivity.
Qed.

(** X16.  For a release from 11 on that passed the support check, a
    manifest that does not answer with status 200 makes
    [getCudaInstallerUrl] fail, on every platform, with an error that
    carries the URL and the status, after that single request; a request
    that is rejected fails with its own error. *)
Theorem manifest_failure_propagates (client : HttpClient) (version : string)
    (os : OS) (arch : Arch) :
  ltZero (compareVersions version START_SUPPORTED_CUDA_VERSION) = false ->
  geInt (majorOf version) 11 = true ->
  (forall response,
     client (manifestOf version) = Ok response ->
     statusCode response <> 200 ->
     run (getCudaInstallerUrl client CUDA_LINKS version os arch)
     = (Throw (TransportFailure (manifestOf version) (statusCode response)
                 (statusMessage response)),
        [manifestOf version]))
  /\ (forall e,
        client (manifestOf version) = Throw e ->
        run (getCudaInstallerUrl client CUDA_LINKS version os arch)
        = (Throw e, [manifestOf version])).
Proof.
  intros H M. rewrite (getCudaInstallerUrl_modern client version os arch H M).
  split.
  - intros response E S. apply manifestUrl_failure; assumption.
  - intros e E. apply manifestUrl_rejected; assumption.
Qed.

Lemma manifest_failure_propagates_witness :
  run (getCudaInstallerUrl offline CUDA_LINKS "12.4.1" WINDOWS X86_64)
  = (Throw (RequestRejected (manifestOf "12.4.1")), [manifestOf "12.4.1"]).
Proof.
  apply (manifest_failure_propagates offline "12.4.1" WINDOWS X86_64);
    vm_compute; reflexivity.
Defined.

Lemma windowsLoop_fst (l : list string) (win10 : option string) (f : string) :
  fst (windowsLoop l None win10) = Some f ->
  In f l /\ endsWith f "_windows.exe" = true.
Proof.
  revert win10. induction l as [|g l IH]; intro win10; cbn [windowsLoop].
  - discriminate.
  - destruct (endsWith g "_windows.exe") eqn:W.
    + intros [= <-]. split; [left; reflexivity|exact W].
    + destruct (endsWith g "_win10.exe"); intro H; apply IH in H;
        destruct H; split; auto using in_cons.
Qed.

Lemma windowsLoop_snd (l : list string) (win10 : option string) (f : string) :
  snd (windowsLoop l None win10) = Some f ->
  win10 = Some f \/ (In f l /\ endsWith f "_win10.exe" = true).
Proof.
  revert win10. induction l as [|g l IH]; intro win10; cbn [windowsLoop].
  - auto.
  - destruct (endsWith g "_windows.exe") eqn:W; [auto|].
    destruct (endsWith g "_win10.exe") eqn:T; intro H; apply IH in H.
    + destruct H as [[= <-]|[I E]]; right; split; auto using in_eq, in_cons.
    + destruct H as [H|[I E]]; [auto|]. right. split; auto using in_cons.
Qed.

Lemma linuxLoop_some (pattern : regex) (l : list string) (f : string) :
  linuxLoop pattern l = Some f -> In f l /\ test pattern f = true.
Proof.
  induction l as [|g l IH]; cbn [linuxLoop]; [discriminate|].
  destruct (test pattern g) eqn:T.
  - intros [= <-]. split; [left; reflexivity|exact T].
  - intro H. apply IH in H. destruct H. split; auto using in_cons.
Qed.

(** X17.  On Windows, a URL that [getCudaInstallerUrl] returns for a
    release from 11 on always names a file of the manifest, under
    [local_installers], and that file ends in [_windows.exe] or in
    [_win10.exe]. *)
Theorem windows_result_listed (client : HttpClient) (version : string)
    (arch : Arch) (response : HttpResponse) (url : string) (log : list string) :
  ltZero (compareVersions version START_SUPPORTED_CUDA_VERSION) = false ->
  geInt (majorOf version) 11 = true ->
  client (manifestOf version) = Ok response ->
  run (getCudaInstallerUrl client CUDA_LINKS version WINDOWS arch) = (Ok url, log) ->
  exists f,
    In f (filenamesOf response)
    /\ url = getDownloadUrl version "local_installers" f
    /\ (hasSuffix "_windows.exe" f \/ hasSuffix "_win10.exe" f).
Proof.
  intros H M E.
  rewrite (getCudaInstallerUrl_modern client version WINDOWS arch H M).
  destruct (Z.eq_dec (statusCode response) 200) as [S|S].
  - rewrite (manifestUrl_windows client CUDA_LINKS version arch response M E S).
    unfold orElse.
    destruct (fst (windowsLoop (filenamesOf response) None None)) as [w|] eqn:W.
    + apply windowsLoop_fst in W. destruct W as [I T].
      cbn [truthyString].
      rewrite (endsWith_nonempty _ _ T) by discriminate. cbn [negb].
      rewrite (endsWith_nonempty _ _ T) by discriminate.
      intros [= <- _]. exists w. apply endsWith_hasSuffix in T. auto.
    + cbn [truthyString].
      destruct (snd (windowsLoop (filenamesOf response) None None)) as [w|] eqn:W';
        [|discriminate].
      apply windowsLoop_snd in W'. destruct W' as [W'|[I T]]; [discriminate|].
      rewrite (endsWith_nonempty _ _ T) by discriminate.
      intros [= <- _]. exists w. apply endsWith_hasSuffix in T. auto.
  - rewrite (manifestUrl_failure client CUDA_LINKS version WINDOWS arch response
               M E S).
    discriminate.
Qed.

Lemma windows_result_listed_witness :
  exists f,
    In f (filenamesOf exampleChecksums)
    /\ "https://developer.download.nvidia.com/compute/cuda/11.2.0/local_installers/cuda_11.2.0_460.27.04_windows.exe"
       = getDownloadUrl "11.2.0" "local_installers" f
    /\ (hasSuffix "_windows.exe" f \/ hasSuffix "_win10.exe" f).
Proof.
  apply (windows_result_listed exampleManifest "11.2.0" X86_64 exampleChecksums
           _ [manifestOf "11.2.0"]); vm_compute; reflexivity.
Defined.

(** X18.  On Linux, a URL that [getCudaInstallerUrl] returns for a release
    from 11 on always names a file of the manifest, under
    [local_installers], and that file holds
    [cuda_<version>_<driverversion>] followed by the suffix of the
    architecture. *)
Theorem linux_result_listed (client : HttpClient) (version : string)
    (arch : Arch) (response : HttpResponse) (url : string) (log : list string) :
  versionChars version = true ->
  geInt (majorOf version) 11 = true ->
  client (manifestOf version) = Ok response ->
  run (getCudaInstallerUrl client CUDA_LINKS version LINUX arch) = (Ok url, log) ->
  (arch = X86_64 \/ arch = ARM64_SBSA)
  /\ exists f,
       In f (filenamesOf response)
       /\ url = getDownloadUrl version "local_installers" f
       /\ installerName version
            (if Arch_eqb arch X86_64 then "_linux.run" else "_linux_sbsa.run") f.
Proof.
  intros V M E.
  rewrite (getCudaInstallerUrl_modern client version LINUX arch
             (modern_supported version V M) M).
  destruct (Z.eq_dec (statusCode response) 200) as [S|S].
  - assert (A : arch = X86_64 \/ arch = ARM64_SBSA \/ arch = Arch_other)
      by (destruct arch; auto).
    destruct A as [A|[A|A]].
    + rewrite (manifestUrl_linux client CUDA_LINKS version arch response M E S
                 (or_introl A)).
      destruct (linuxLoop _ _) as [f|] eqn:L; [|discriminate].
      apply linuxLoop_some in L. destruct L as [I T].
      apply test_linuxPattern in T.
      rewrite (installerName_nonempty _ _ _ T).
      intros [= <- _]. split; [auto|]. exists f. auto.
    + rewrite (manifestUrl_linux client CUDA_LINKS version arch response M E S
                 (or_intror A)).
      destruct (linuxLoop _ _) as [f|] eqn:L; [|discriminate].
      apply linuxLoop_some in L. destruct L as [I T].
      apply test_linuxPattern in T.
      rewrite (installerName_nonempty _ _ _ T).
      intros [= <- _]. split; [auto|]. exists f. auto.
    + subst arch. unfold run, manifestUrl, bind.
      rewrite (fetchMd5sum_modern client CUDA_LINKS version response [] M E S).
      cbn. discriminate.
  - rewrite (manifestUrl_failure client CUDA_LINKS version LINUX arch response
               M E S).
    discriminate.
Qed.

Lemma linux_result_listed_witness :
  (ARM64_SBSA = X86_64 \/ ARM64_SBSA = ARM64_SBSA)
  /\ exists f,
       In f (filenamesOf exampleChecksums)
       /\ "https://developer.download.nvidia.com/compute/cuda/11.2.0/local_installers/cuda_11.2.0_460.27.04_linux_sbsa.run"
          = getDownloadUrl "11.2.0" "local_installers" f
       /\ installerName "11.2.0" "_linux_sbsa.run" f.
Proof.
  apply (linux_result_listed exampleManifest "11.2.0" ARM64_SBSA exampleChecksums
           _ [manifestOf "11.2.0"]); vm_compute; reflexivity.
Defined.

(** ** The checksum manifest *)

Lemma parseMd5sum_fold (text : string) :
  parseMd5sum text
  = fold_left (fun o line => setProp o (lineFilename line) (lineChecksum line))
      (split "010" text) [].
Proof. reflexivity. Qed.

Lemma assign_keys (o : JSObject) (k v : string) :
  map fst (assign o k v)
  = if includes (map fst o) k then map fst o else (map fst o ++ [k])%list.
Proof.
  induction o as [|[k' v'] o IH]; cbn [assign map fst includes existsb app].
  - reflexivity.
  - rewrite (String.eqb_sym k k').
    destruct (String.eqb k' k) eqn:E; cbn [orb map fst].
    + reflexivity.
    + rewrite IH. unfold includes. destruct (existsb _ _); reflexivity.
Qed.

Lemma assign_In (o : JSObject) (k v : string) : In (k, v) (assign o k v).
Proof.
  induction o as [|[k' v'] o IH]; cbn [assign]; [left; reflexivity|].
  destruct (String.eqb_spec k' k) as [->|N]; [left; reflexivity|now right].
Qed.

Lemma assign_other (o : JSObject) (k v f c : string) :
  f <> k -> In (f, c) o -> In (f, c) (assign o k v).
Proof.
  intro N. induction o as [|[k' v'] o IH]; cbn [assign In]; [tauto|].
  destruct (String.eqb_spec k' k) as [->|D]; cbn [In].
  - intros [[= <- <-]|H]; [congruence|now right].
  - intros [H|H]; [now left|right; auto].
Qed.

Lemma setOf_ext (seen seen' arr : list string) :
  (forall x, In x seen <-> In x seen') -> setOf seen arr = setOf seen' arr.
Proof.
  revert seen seen'. induction arr as [|y arr IH]; intros seen seen' H;
    cbn [setOf]; [reflexivity|].
  assert (E : includes seen y = includes seen' y).
  { destruct (includes seen y) eqn:A, (includes seen' y) eqn:B; try reflexivity.
    - apply includes_In, H, includes_In in A. congruence.
    - apply includes_In, H, includes_In in B. congruence. }
  rewrite E. destruct (includes seen' y); [apply IH, H|].
  f_equal. apply IH. intro x. cbn [In]. rewrite H. tauto.
Qed.

Lemma parse_keys (lines : list string) (o : JSObject) :
  map fst (fold_left (fun o line =>
                        setProp o (lineFilename line) (lineChecksum line))
             lines o)
  = (map fst o
     ++ setOf (map fst o)
          (filter (fun f => negb (String.eqb f "__proto__"))
                  (map lineFilename lines)))%list.
Proof.
  revert o. induction lines as [|line lines IH]; intro o;
    cbn [fold_left map filter].
  - cbn [setOf]. now rewrite app_nil_r.
  - rewrite IH. unfold setProp.
    destruct (String.eqb (lineFilename line) "__proto__"); cbn [negb];
      [reflexivity|].
    rewrite assign_keys. cbn [setOf].
    destruct (includes (map fst o) (lineFilename line)) eqn:I; [reflexivity|].
    rewrite <- app_assoc. cbn [app]. do 2 f_equal.
    apply setOf_ext. intro x. rewrite in_app_iff. cbn [In]. tauto.
Qed.

Lemma filenames_of_text (text : string) :
  map fst (parseMd5sum text) = uniq (namedFiles text).
Proof. rewrite parseMd5sum_fold, parse_keys. reflexivity. Qed.

Lemma insertIndex_perm (e : Z * (string * string)) (l : list (Z * (string * string))) :
  Permutation (insertIndex e l) (e :: l).
Proof.
  induction l as [|e' l IH]; cbn [insertIndex]; [reflexivity|].
  destruct (fst e <? fst e'); [reflexivity|].
  rewrite IH. apply perm_swap.
Qed.

Lemma sortIndex_perm (l : list (Z * (string * string))) :
  Permutation (fold_right insertIndex [] l) l.
Proof.
  induction l as [|e l IH]; cbn [fold_right]; [reflexivity|].
  rewrite insertIndex_perm. now constructor.
Qed.

Lemma indexed_entries (o : JSObject) :
  map snd (flat_map (fun kv => match arrayIndex (fst kv) with
                               | Some z => [(z, kv)]
                               | None => []
                               end) o)
  = filter (fun kv => isIndexKey (fst kv)) o.
Proof.
  induction o as [|kv o IH]; cbn [flat_map filter]; [reflexivity|].
  unfold isIndexKey at 1. rewrite map_app, IH.
  destruct (arrayIndex (fst kv)); reflexivity.
Qed.

Lemma other_entries (o : JSObject) :
  filter (fun kv => match arrayIndex (fst kv) with
                    | Some _ => false
                    | None => true
                    end) o
  = filter (fun kv => negb (isIndexKey (fst kv))) o.
Proof.
  apply filter_ext. intro kv. unfold isIndexKey.
  destruct (arrayIndex (fst kv)); reflexivity.
Qed.

Lemma filter_split_perm {A} (p : A -> bool) (l : list A) :
  Permutation (filter p l ++ filter (fun x => negb (p x)) l) l.
Proof.
  induction l as [|x l IH]; cbn [filter]; [reflexivity|].
  destruct (p x); cbn [negb app].
  - now constructor.
  - rewrite <- Permutation_middle. now constructor.
Qed.

Lemma Object_entries_perm (o : JSObject) : Permutation (Object_entries o) o.
Proof.
  unfold Object_entries. rewrite other_entries.
  rewrite <- (filter_split_perm (fun kv => isIndexKey (fst kv)) o) at 3.
  apply Permutation_app_tail.
  rewrite <- indexed_entries. apply Permutation_map, sortIndex_perm.
Qed.

Lemma filter_map_fst {B} (p : string -> bool) (l : list (string * B)) :
  filter p (map fst l) = map fst (filter (fun kv => p (fst kv)) l).
Proof.
  induction l as [|kv l IH]; cbn [map filter]; [reflexivity|].
  destruct (p (fst kv)); cbn [map]; now rewrite IH.
Qed.

Lemma filter_idem {A} (p : A -> bool) (l : list A) :
  filter p (filter p l) = filter p l.
Proof.
  induction l as [|x l IH]; cbn [filter]; [reflexivity|].
  destruct (p x) eqn:E; cbn [filter]; [rewrite E, IH; reflexivity|exact IH].
Qed.

Lemma Object_entries_others (o : JSObject) :
  filter (fun k => negb (isIndexKey k)) (map fst (Object_entries o))
  = filter (fun k => negb (isIndexKey k)) (map fst o).
Proof.
  unfold Object_entries. rewrite other_entries, map_app, filter_app.
  assert (E : filter (fun k => negb (isIndexKey k))
                (map fst (map snd (fold_right insertIndex []
                   (flat_map (fun kv => match arrayIndex (fst kv) with
                                        | Some z => [(z, kv)]
                                        | None => []
                                        end) o)))) = []).
  { apply filter_none. rewrite Forall_forall. intros k Hk.
    apply in_map_iff in Hk. destruct Hk as (kv & <- & Hkv).
    eapply Permutation_in in Hkv;
      [|apply Permutation_map, sortIndex_perm].
    rewrite indexed_entries in Hkv. apply filter_In in Hkv.
    destruct Hkv as [_ ->]. reflexivity. }
  rewrite E. cbn [app].
  rewrite (filter_map_fst (fun k => negb (isIndexKey k)) o).
  rewrite (filter_map_fst (fun k => negb (isIndexKey k))).
  rewrite filter_idem. reflexivity.
Qed.

Lemma filenamesOf_perm (response : HttpResponse) :
  Permutation (filenamesOf response) (uniq (namedFiles (readBody response))).
Proof.
  unfold filenamesOf. rewrite <- filenames_of_text.
  apply Permutation_map, Object_entries_perm.
Qed.

Lemma namedFiles_In (text f : string) :
  In f (namedFiles text)
  <-> f <> "__proto__"
      /\ exists line, In line (split "010" text) /\ lineFilename line = f.
Proof.
  unfold namedFiles. rewrite filter_In, in_map_iff, negb_true_iff, String.eqb_neq.
  split.
  - intros [(line & E & I) N]. eauto.
  - intros [N (line & I & E)]. eauto.
Qed.

(** X19.  The loops of [getCudaInstallerUrl] visit each filename of the
    manifest once: the filenames [fetchMd5sum] hands over have no
    duplicates, and they are exactly the second fields of the lines of the
    text, [undefined] for a line without a space, [__proto__] excepted. *)
Theorem manifest_filenames (response : HttpResponse) :
  NoDup (filenamesOf response)
  /\ (forall f,
        In f (filenamesOf response)
        <-> f <> "__proto__"
            /\ exists line,
                 In line (split "010" (readBody response))
                 /\ lineFilename line = f).
Proof.
  split.
  - eapply Permutation_NoDup; [symmetry; apply filenamesOf_perm|apply uniq_NoDup].
  - intro f. rewrite <- namedFiles_In.
    rewrite <- (uniq_In (namedFiles (readBody response)) f).
    split; apply Permutation_in;
      [apply filenamesOf_perm|symmetry; apply filenamesOf_perm].
Qed.

Lemma filter_all {A} (p : A -> bool) (l : list A) :
  Forall (fun x => p x = true) l -> filter p l = l.
Proof.
  induction 1 as [|x l Hx _ IH]; cbn [filter]; [reflexivity|].
  rewrite Hx, IH. reflexivity.
Qed.

(** X20.  Filenames that are not array indices, and installer names never
    are, are visited in the order of their first appearance in the text;
    when no filename of the text is an array index, that is the whole
    iteration order. *)
Theorem manifest_iteration_order :
  (forall response,
     filter (fun f => negb (isIndexKey f)) (filenamesOf response)
     = filter (fun f => negb (isIndexKey f))
         (uniq (namedFiles (readBody response))))
  /\ (forall response,
        Forall (fun f => isIndexKey f = false) (namedFiles (readBody response)) ->
        filenamesOf response = uniq (namedFiles (readBody response))).
Proof.
  assert (A : forall response,
             filter (fun f => negb (isIndexKey f)) (filenamesOf response)
             = filter (fun f => negb (isIndexKey f))
                 (uniq (namedFiles (readBody response)))).
  { intro response. unfold filenamesOf.
    rewrite Object_entries_others, filenames_of_text. reflexivity. }
  split; [exact A|].
  intros response H.
  rewrite <- (filter_all (fun f => negb (isIndexKey f)) (filenamesOf response)).
  - rewrite A. apply filter_all. rewrite Forall_forall in *. intros f Hf.
    apply (proj1 (uniq_In _ _)) in Hf. rewrite (H f Hf). reflexivity.
  - rewrite Forall_forall in *. intros f Hf.
    eapply Permutation_in in Hf; [|apply filenamesOf_perm].
    apply (proj1 (uniq_In _ _)) in Hf. rewrite (H f Hf). reflexivity.
Qed.

Lemma manifest_iteration_order_witness :
  filenamesOf exampleChecksums = uniq (namedFiles (readBody exampleChecksums)).
Proof.
  apply (proj2 manifest_iteration_order).
  apply Forall_forall. intros f Hf. vm_compute in Hf.
  destruct Hf as [H|[H|[H|[H|[H|[]]]]]]; subst f; vm_compute; reflexivity.
Defined.

Lemma parse_last (l2 : list string) (o : JSObject) (f c : string) :
  In (f, c) o ->
  Forall (fun l => lineFilename l <> f) l2 ->
  In (f, c)
     (fold_left (fun o line => setProp o (lineFilename line) (lineChecksum line))
        l2 o).
Proof.
  revert o. induction l2 as [|l l2 IH]; intros o I H; cbn [fold_left]; [exact I|].
  apply IH; [|exact (Forall_inv_tail H)].
  unfold setProp. destruct (String.eqb _ "__proto__"); [exact I|].
  apply assign_other; [|exact I]. intro E. apply (Forall_inv H). now symmetry.
Qed.

Lemma NoDup_keys_functional (o : list (string * string)) (f c1 c2 : string) :
  NoDup (map fst o) -> In (f, c1) o -> In (f, c2) o -> c1 = c2.
Proof.
  induction o as [|[k v] o IH]; cbn [map fst In]; [tauto|].
  intro N. apply NoDup_cons_iff in N. destruct N as [Nk N].
  intros [[= -> ->]|H1] [[= E]|H2]; subst; auto.
  - exfalso. apply Nk. change f with (fst (f, c2)). now apply in_map.
  - exfalso. apply Nk. change f with (fst (f, c1)). now apply in_map.
Qed.

(** X21.  In the record [fetchMd5sum] builds, a filename is paired with the
    checksum of the last line that names it, and with nothing else. *)
Theorem manifest_last_checksum (text : string) (l1 l2 : list string)
    (line : string) :
  split "010" text = (l1 ++ line :: l2)%list ->
  lineFilename line <> "__proto__" ->
  Forall (fun l => lineFilename l <> lineFilename line) l2 ->
  In (lineFilename line, lineChecksum line) (Object_entries (parseMd5sum text))
  /\ (forall c,
        In (lineFilename line, c) (Object_entries (parseMd5sum text)) ->
        c = lineChecksum line).
Proof.
  intros E N H.
  assert (I : In (lineFilename line, lineChecksum line)
                (Object_entries (parseMd5sum text))).
  { eapply Permutation_in; [symmetry; apply Object_entries_perm|].
    rewrite parseMd5sum_fold, E, fold_left_app. cbn [fold_left].
    apply parse_last; [|exact H].
    unfold setProp. apply String.eqb_neq in N. rewrite N. apply assign_In. }
  split; [exact I|].
  intros c Hc. eapply NoDup_keys_functional; [|exact Hc|exact I].
  eapply Permutation_NoDup;
    [symmetry; apply Permutation_map, Object_entries_perm|].
  rewrite filenames_of_text. apply uniq_NoDup.
Qed.

Lemma manifest_last_checksum_witness :
  In ("cuda.run", "bbb") (Object_entries (parseMd5sum "aaa cuda.run
bbb cuda.run
ccc other.run")).
Proof.
  apply (manifest_last_checksum _ ["aaa cuda.run"] ["ccc other.run"] "bbb cuda.run").
  - reflexivity.
  - discriminate.
  - repeat constructor. discriminate.
Defined.

(** ** What the patterns capture *)

Lemma substring_prefix (w s : string) :
  substring 0 (String.length (w ++ s) - String.length s) (w ++ s) = w.
Proof.
  rewrite length_append, Nat.add_sub.
  induction w as [|c w IH]; cbn [append String.length substring].
  - destruct s; reflexivity.
  - now rewrite IH.
Qed.

Lemma matchAt_captured (r : regex) :
  forall s caps k st,
    matchAt r s caps k = Some st ->
    exists w s' caps',
      s = (w ++ s')%string /\ Lang r w /\ k s' caps' = Some st
      /\ (forall p, In p caps -> In p caps')
      /\ (forall n u, In (n, u) caps' ->
                      In (n, u) caps
                      \/ exists r', In (n, r') (groupsOf r) /\ Lang r' u)
      /\ (forall n, In n (mandatory r) -> exists u, In (n, u) caps').
Proof.
  induction r as [cs|cs|r1 IH1 r2 IH2|r1 IH1|n r1 IH1|]; intros s caps k st;
    cbn [matchAt groupsOf mandatory].
  - destruct s as [|c s]; [discriminate|].
    destruct (inCharset cs c) eqn:C; [|discriminate].
    intro K. exists (String c ""), s, caps.
    repeat split; auto using Lang_one. intros ? [].
  - intro H. apply plusMatch_sound in H. destruct H as (w & s' & -> & L & K).
    exists w, s', caps. repeat split; auto. intros ? [].
  - intro H. apply IH1 in H.
    destruct H as (w1 & s1 & caps1 & -> & L1 & H & I1 & G1 & M1).
    apply IH2 in H.
    destruct H as (w2 & s2 & caps2 & -> & L2 & K & I2 & G2 & M2).
    exists (w1 ++ w2)%string, s2, caps2. rewrite append_assoc.
    repeat split; auto using Lang_seq.
    + intros n u H. destruct (G2 n u H) as [H1|(r' & R & L)].
      * destruct (G1 n u H1) as [?|(r' & R & L)]; [auto|].
        right. exists r'. rewrite in_app_iff. auto.
      * right. exists r'. rewrite in_app_iff. auto.
    + intros n H. apply in_app_iff in H. destruct H as [H|H].
      * destruct (M1 n H) as [u U]. eauto.
      * apply M2, H.
  - destruct (matchAt r1 s caps k) as [st'|] eqn:E.
    + intros [= ->]. apply IH1 in E.
      destruct E as (w & s' & caps' & -> & L & K & I & G & _).
      exists w, s', caps'. repeat split; auto using Lang_take. intros ? [].
    + intro K. exists "", s, caps. repeat split; auto using Lang_skip.
      intros ? [].
  - intro H. apply IH1 in H.
    destruct H as (w & s' & caps1 & -> & L & K & I & G & M).
    rewrite substring_prefix in K.
    exists w, s', ((n, w) :: caps1). repeat split; auto using Lang_group.
    + intros p Hp. right. auto.
    + intros m u [[= <- <-]|H].
      * right. exists r1. split; [left; reflexivity|exact L].
      * destruct (G m u H) as [?|(r' & R & L')]; [auto|].
        right. exists r'. split; [right; exact R|exact L'].
    + intros m [<-|H]; [exists w; left; reflexivity|].
      destruct (M m H) as [u U]. exists u. right. exact U.
  - intro K. exists "", s, caps. repeat split; auto using Lang_epsilon.
    intros ? [].
Qed.

Lemma capture_In (caps : captures) (n : nat) (u : string) :
  capture caps n = Some u -> In (n, u) caps.
Proof.
  unfold capture. destruct (find _ caps) as [[m v]|] eqn:F; [|discriminate].
  intros [= <-]. apply find_some in F. destruct F as [I E].
  apply Nat.eqb_eq in E. cbn in E. now subst.
Qed.

Lemma capture_present (caps : captures) (n : nat) (u : string) :
  In (n, u) caps -> exists v, capture caps n = Some v.
Proof.
  intro H. unfold capture. destruct (find _ caps) as [[m v]|] eqn:F; [eauto|].
  exfalso. eapply find_none in F; [|exact H]. cbn in F.
  rewrite Nat.eqb_refl in F. discriminate.
Qed.

(** A capture of a match is a word of the group it belongs to, and the
    groups outside every option are always captured. *)
Lemma attempt_captures (r : regex) (s rest : string) (m : captures) :
  attempt r s = Some (rest, m) ->
  (forall n u, capture m n = Some u ->
               exists r', In (n, r') (groupsOf r) /\ Lang r' u)
  /\ (forall n, In n (mandatory r) -> exists u, capture m n = Some u).
Proof.
  unfold attempt. intro H. apply matchAt_captured in H.
  destruct H as (w & s' & caps' & _ & _ & [= _ <-] & _ & G & M). split.
  - intros n u C. apply capture_In in C.
    destruct (G n u C) as [[]|H]; exact H.
  - intros n H. destruct (M n H) as [u U]. eapply capture_present, U.
Qed.

Lemma execAll_attempt (r : regex) (s : string) (skip : nat) (m : captures) :
  In m (execAll r s skip) -> exists t rest, attempt r t = Some (rest, m).
Proof.
  revert skip. induction s as [|c s IH]; intro skip.
  - destruct skip; cbn [execAll]; [|intros []].
    destruct (attempt r "") as [[rest caps]|] eqn:A; [|intros []].
    intros [<-|[]]. eauto.
  - destruct skip; cbn [execAll]; [|apply IH].
    destruct (attempt r (String c s)) as [[rest caps]|] eqn:A; [|apply IH].
    intros [<-|H]; [eauto|]. eapply IH, H.
Qed.

(** ** Scraped versions are well formed *)

Lemma Lang_majorMinor_inv (w : string) :
  Lang majorMinor w ->
  exists d1 d2, w = (d1 ++ "." ++ d2)%string
                /\ numeral d1 = true /\ numeral d2 = true.
Proof.
  unfold majorMinor. cbn [seq]. intro H.
  peel H d1 D1. apply Lang_digits_inv in D1.
  peel H p P. apply Lang_char_inv in P. subst p.
  peel H d2 D2. apply Lang_digits_inv in D2.
  apply Lang_epsilon_inv in H. subst.
  exists d1, d2. rewrite append_nil_r. auto.
Qed.

Lemma Lang_optComponent_inv (w : string) :
  Lang optComponent w ->
  w = EmptyString \/ exists d, w = ("." ++ d)%string /\ numeral d = true.
Proof.
  unfold optComponent. cbn [seq]. intro H.
  apply Lang_opt_inv in H. destruct H as [->|H]; [now left|].
  peel H p P. apply Lang_char_inv in P. subst p.
  peel H d D. apply Lang_digits_inv in D.
  apply Lang_epsilon_inv in H. subst.
  right. exists d. rewrite append_nil_r. auto.
Qed.

Lemma dotted_two (d1 d2 : string) :
  numeral d1 = true -> numeral d2 = true -> dotted 2 2 (d1 ++ "." ++ d2).
Proof. intros. exists [d1; d2]. repeat split; auto. Qed.

Lemma dotted_more (lo hi : nat) (v d : string) :
  dotted lo hi v -> numeral d = true -> (1 <= lo)%nat ->
  dotted (S lo) (S hi) (v ++ "." ++ d).
Proof.
  intros (ds & -> & F & B) D L. exists (ds ++ [d])%list. split; [|split].
  - destruct ds as [|x ds]; [cbn in B; lia|].
    clear F B L. revert x. induction ds as [|y ds IH]; intro x; [reflexivity|].
    change (join "." ((x :: y :: ds) ++ [d]))
      with (x ++ "." ++ join "." ((y :: ds) ++ [d]))%string.
    rewrite <- IH, join_cons, !append_assoc. reflexivity.
  - apply Forall_app. auto.
  - rewrite length_app. cbn. lia.
Qed.

Lemma dotted_weaken (lo hi lo' hi' : nat) (v : string) :
  dotted lo hi v -> (lo' <= lo)%nat -> (hi <= hi')%nat -> dotted lo' hi' v.
Proof. intros (ds & E & F & B) ? ?. exists ds. repeat split; auto; lia. Qed.

Lemma dotted_opt (lo hi : nat) (v o : string) :
  dotted lo hi v -> (1 <= lo)%nat ->
  o = EmptyString \/ (exists d, o = ("." ++ d)%string /\ numeral d = true) ->
  dotted lo (S hi) (v ++ o).
Proof.
  intros D L [->|(d & -> & N)].
  - rewrite append_nil_r. eapply dotted_weaken; eauto.
  - eapply dotted_weaken; [apply dotted_more; eauto| |]; lia.
Qed.

Lemma dotted_split (lo hi : nat) (v : string) :
  dotted lo hi v -> (1 <= lo)%nat ->
  exists ds, split "." v = ds /\ v = join "." ds
             /\ Forall (fun d => numeral d = true) ds
             /\ (lo <= List.length ds <= hi)%nat.
Proof.
  intros (ds & -> & F & B) L. exists ds. repeat split; auto; try lia.
  apply split_join.
  - destruct ds; [cbn in B; lia|discriminate].
  - eapply Forall_impl; [|exact F]. apply numeral_noDot.
Qed.

Lemma dotted_versionString (lo hi : nat) (v : string) :
  dotted lo hi v -> (1 <= lo)%nat ->
  versionString v = true
  /\ (lo <= List.length (split "." v) <= hi)%nat.
Proof.
  intros D L. destruct (dotted_split lo hi v D L) as (ds & E & _ & F & B).
  rewrite E. split; [|exact B].
  unfold versionString. rewrite E. apply forallb_forall.
  rewrite Forall_forall in F. exact F.
Qed.

Lemma Lang_version23 (w : string) :
  Lang (seq [majorMinor; optComponent]) w -> dotted 2 3 w.
Proof.
  cbn [seq]. intro H.
  peel H a A. apply Lang_majorMinor_inv in A. destruct A as (d1 & d2 & -> & N1 & N2).
  peel H o HO. apply Lang_optComponent_inv in HO.
  apply Lang_epsilon_inv in H. subst. rewrite append_nil_r.
  apply dotted_opt; [apply dotted_two; assumption|lia|exact HO].
Qed.

Lemma Lang_version24 (w : string) :
  Lang (seq [majorMinor; optComponent; optComponent]) w -> dotted 2 4 w.
Proof.
  cbn [seq]. intro H.
  peel H a A. apply Lang_majorMinor_inv in A. destruct A as (d1 & d2 & -> & N1 & N2).
  peel H o1 HO1. apply Lang_optComponent_inv in HO1.
  peel H o2 HO2. apply Lang_optComponent_inv in HO2.
  apply Lang_epsilon_inv in H. subst. rewrite append_nil_r, <- append_assoc.
  apply dotted_opt; [|lia|exact HO2].
  apply dotted_opt; [apply dotted_two; assumption|lia|exact HO1].
Qed.

Lemma groups_redistrib :
  groupsOf redistribPattern = [(1%nat, seq [majorMinor; optComponent; optComponent])]
  /\ mandatory redistribPattern = [1%nat].
Proof. split; reflexivity. Qed.

Lemma groups_pattern1 :
  groupsOf pattern1 = [(1%nat, seq [majorMinor; optComponent])]
  /\ mandatory pattern1 = [1%nat].
Proof. split; reflexivity. Qed.

Lemma groups_pattern2 :
  groupsOf pattern2
  = [(1%nat, Plus Digit); (2%nat, Plus Digit); (3%nat, Plus Digit)]
  /\ mandatory pattern2 = [1%nat; 2%nat].
Proof. split; reflexivity. Qed.

Lemma groups_versionPattern :
  groupsOf versionPattern = [(1%nat, seq [majorMinor; optComponent])]
  /\ mandatory versionPattern = [1%nat].
Proof. split; reflexivity. Qed.

(** The first group of a match, when it is mandatory and the only group
    with its number, is a word of what the group encloses. *)
Lemma group_word (r inner : regex) (html : string) (m : captures) (n : nat) :
  In m (execAll r html 0) ->
  In n (mandatory r) ->
  (forall r', In (n, r') (groupsOf r) -> r' = inner) ->
  Lang inner (group m n).
Proof.
  intros H M U. apply execAll_attempt in H. destruct H as (t & rest & A).
  apply attempt_captures in A. destruct A as [G P].
  destruct (P n M) as [u C]. unfold group. rewrite C.
  destruct (G n u C) as (r' & I & L). now rewrite <- (U r' I).
Qed.

Lemma scraped_redistrib (html : string) (m : captures) :
  In m (execAll redistribPattern html 0) -> dotted 2 4 (group m 1).
Proof.
  intro H. apply Lang_version24.
  apply (group_word redistribPattern _ html m 1 H).
  - rewrite (proj2 groups_redistrib). left. reflexivity.
  - rewrite (proj1 groups_redistrib). intros r' [[= <-]|[]]. reflexivity.
Qed.

Lemma scraped_pattern1 (html : string) (m : captures) :
  In m (execAll pattern1 html 0) -> dotted 2 3 (group m 1).
Proof.
  intro H. apply Lang_version23.
  apply (group_word pattern1 _ html m 1 H).
  - rewrite (proj2 groups_pattern1). left. reflexivity.
  - rewrite (proj1 groups_pattern1). intros r' [[= <-]|[]]. reflexivity.
Qed.

Lemma scraped_versionPattern (html : string) (m : captures) :
  In m (execAll versionPattern html 0) -> dotted 2 3 (group m 1).
Proof.
  intro H. apply Lang_version23.
  apply (group_word versionPattern _ html m 1 H).
  - rewrite (proj2 groups_versionPattern). left. reflexivity.
  - rewrite (proj1 groups_versionPattern). intros r' [[= <-]|[]]. reflexivity.
Qed.

Lemma scraped_pattern2 (html : string) (m : captures) :
  In m (execAll pattern2 html 0) ->
  dotted 2 3
    (if groupSet m 3
     then (group m 1 ++ "." ++ group m 2 ++ "." ++ group m 3)%string
     else (group m 1 ++ "." ++ group m 2)%string).
Proof.
  intro H.
  assert (U : forall n r', In (n, r') (groupsOf pattern2) -> r' = Plus Digit).
  { rewrite (proj1 groups_pattern2).
    intros n r' [[= _ <-]|[[= _ <-]|[[= _ <-]|[]]]]; reflexivity. }
  assert (G1 : numeral (group m 1) = true).
  { apply Lang_digits_inv, (group_word pattern2 _ html m 1 H); [|apply U].
    rewrite (proj2 groups_pattern2). cbn. auto. }
  assert (G2 : numeral (group m 2) = true).
  { apply Lang_digits_inv, (group_word pattern2 _ html m 2 H); [|apply U].
    rewrite (proj2 groups_pattern2). cbn. auto. }
  destruct (groupSet m 3) eqn:S.
  - assert (G3 : numeral (group m 3) = true).
    { unfold groupSet in S. unfold group.
      destruct (capture m 3) as [u|] eqn:C; [|discriminate S].
      apply execAll_attempt in H. destruct H as (t & rest & A).
      apply attempt_captures in A. destruct A as [G _].
      destruct (G _ _ C) as (r' & I & L). rewrite (U _ _ I) in L.
      apply Lang_digits_inv, L. }
    replace (group m 1 ++ "." ++ group m 2 ++ "." ++ group m 3)%string
      with ((group m 1 ++ "." ++ group m 2) ++ "." ++ group m 3)%string
      by (rewrite !append_assoc; reflexivity).
    eapply dotted_weaken; [apply dotted_more; [apply dotted_two| |]| |];
      eauto; lia.
  - eapply dotted_weaken; [apply dotted_two| |]; eauto.
Qed.

Lemma normalize_dotted (u : string) :
  dotted 2 3 u ->
  dotted 2 3 (normalizeCudaVersion u)
  /\ (leInt (majorOf (normalizeCudaVersion u)) 10 = true ->
      components (normalizeCudaVersion u) = 2%nat).
Proof.
  intro D. destruct (dotted_split 2 3 u D) as (ds & E & J & F & B); [lia|].
  destruct ds as [|d1 [|d2 rest]]; cbn [List.length] in B; try lia.
  pose proof (Forall_inv F) as N1.
  pose proof (Forall_inv (Forall_inv_tail F)) as N2.
  unfold normalizeCudaVersion. rewrite E. cbn [first hd].
  rewrite (parseInt_numeral d1 (Some 10) N1) by auto.
  rewrite isNaN_ofZ. rewrite leInt_ofZ by reflexivity.
  destruct (Z.leb_spec (decimal d1) 10) as [L|L].
  - unfold slice0. cbn [firstn]. split.
    + eapply dotted_weaken; [apply (dotted_two d1 d2 N1 N2)| |]; lia.
    + intros _. unfold components. rewrite split_join; [reflexivity|discriminate|].
      repeat constructor; apply numeral_noDot; assumption.
  - split; [exact D|].
    unfold majorOf. rewrite E. cbn [first hd].
    rewrite (parseInt_numeral d1 None N1) by auto.
    rewrite leInt_ofZ by reflexivity. intro H. apply Z.leb_le in H. lia.
Qed.

Lemma sorted_set_In (l : list string) (v : string) :
  In v (sortVersions (uniq l)) -> In v l.
Proof.
  intro H. apply uniq_In. eapply Permutation_in; [apply sortVersions_perm|exact H].
Qed.

Lemma redistrib_dotted (client : HttpClient) (log log' vs : list string) (v : string) :
  fetchRedistribVersions client log = (Ok vs, log') -> In v vs -> dotted 2 4 v.
Proof.
  intros H I. apply fetchRedistribVersions_inv in H.
  destruct H as (r & _ & _ & _ & ->). apply sorted_set_In, in_map_iff in I.
  destruct I as (m & <- & I). eapply scraped_redistrib, I.
Qed.

Lemma archive_dotted (client : HttpClient) (log log' vs : list string) (v : string) :
  fetchArchiveVersions client log = (Ok vs, log') -> In v vs -> dotted 2 3 v.
Proof.
  intros H I. apply fetchArchiveVersions_inv in H.
  destruct H as (r & _ & _ & _ & ->). apply sorted_set_In, in_app_iff in I.
  destruct I as [I|I]; apply in_map_iff in I; destruct I as (m & <- & I).
  - eapply scraped_pattern1, I.
  - eapply scraped_pattern2, I.
Qed.

Lemma opensource_dotted (client : HttpClient) (log log' vs : list string) (v : string) :
  fetchOpensourceVersions client log = (Ok vs, log') -> In v vs ->
  dotted 2 3 v /\ (leInt (majorOf v) 10 = true -> components v = 2%nat).
Proof.
  intros H I. apply fetchOpensourceVersions_inv in H.
  destruct H as (r & _ & _ & _ & ->). apply sorted_set_In, in_map_iff in I.
  destruct I as (m & <- & I). eapply normalize_dotted, scraped_versionPattern, I.
Qed.

Lemma dotted_wellformed (lo hi : nat) (v : string) :
  dotted lo hi v -> (1 <= lo)%nat ->
  versionString v = true /\ (lo <= components v <= hi)%nat.
Proof. apply dotted_versionString. Qed.

(** X22.  Whatever the pages contain, every version a listing fetch
    returns is a well-formed version string, numerals joined by dots: two
    to four of them from the redistribution listing, two or three from the
    archive page and from the opensource listing. *)
Theorem scraped_versions_well_formed (client : HttpClient)
    (log log' versions : list string) (v : string) :
  In v versions ->
  (fetchRedistribVersions client log = (Ok versions, log') ->
   versionString v = true /\ (2 <= components v <= 4)%nat)
  /\ (fetchArchiveVersions client log = (Ok versions, log') ->
      versionString v = true /\ (2 <= components v <= 3)%nat)
  /\ (fetchOpensourceVersions client log = (Ok versions, log') ->
      versionString v = true /\ (2 <= components v <= 3)%nat).
Proof.
  intro I. split; [|split]; intro H.
  - apply dotted_wellformed; [|lia]. eapply redistrib_dotted; eauto.
  - apply dotted_wellformed; [|lia]. eapply archive_dotted; eauto.
  - apply dotted_wellformed; [|lia]. eapply opensource_dotted; eauto.
Qed.

Lemma scraped_versions_well_formed_witness :
  versionString "12.4.1" = true /\ (2 <= components "12.4.1" <= 3)%nat.
Proof.
  refine (proj1 (proj2 (scraped_versions_well_formed exampleListing []
                          [archiveUrl] ["11.2.0"; "12.4.1"] "12.4.1" _)) _).
  - cbn. auto.
  - vm_compute. reflexivity.
Defined.

(** X23.  A version the opensource listing yields with major 10 or less
    has exactly two components: the listing only ever contributes
    major.minor for the legacy releases. *)
Theorem opensource_legacy_major_minor (client : HttpClient)
    (log log' versions : list string) (v : string) :
  fetchOpensourceVersions client log = (Ok versions, log') ->
  In v versions ->
  leInt (majorOf v) 10 = true ->
  components v = 2%nat.
Proof.
  intros H I. eapply opensource_dotted; eauto.
Qed.

Lemma opensource_legacy_major_minor_witness : components "10.2" = 2%nat.
Proof.
  apply (opensource_legacy_major_minor opensourceListing [] [opensourceUrl]
           ["10.2"; "11.0.3"] "10.2").
  - vm_compute. reflexivity.
  - cbn. auto.
  - vm_compute. reflexivity.
Defined.

Lemma legacy_dotted (v : string) : In v OLD_CUDA_VERSIONS -> dotted 2 3 v.
Proof.
  cbn. intros [<-|[<-|[<-|[<-|[<-|[]]]]]].
  - exists ["10"; "0"]. repeat split; auto; cbn; lia.
  - exists ["10"; "1"]. repeat split; auto; cbn; lia.
  - exists ["10"; "1"; "1"]. repeat split; auto; cbn; lia.
  - exists ["10"; "1"; "2"]. repeat split; auto; cbn; lia.
  - exists ["10"; "2"]. repeat split; auto; cbn; lia.
Qed.

(** X24.  Every entry of a discovered catalog, and so every version
    [findCudaVersion] resolves, is a well-formed version string of two to
    four numerals; on entries whose components are below 2^53 the
    comparator is the integer comparison of its specification. *)
Theorem catalog_well_formed (client : HttpClient) (catalog log : list string) :
  run (fetchAvailableCudaVersions client) = (Ok catalog, log) ->
  (forall v, In v catalog ->
             versionString v = true /\ (2 <= components v <= 4)%nat)
  /\ (forall a b, In a catalog -> In b catalog ->
                  safeVersion a = true -> safeVersion b = true ->
                  compareVersions a b = ofZ (compareSpec a b))
  /\ (forall inputVersion v,
        findCudaVersionIn catalog inputVersion = Some v ->
        versionString v = true /\ (2 <= components v <= 4)%nat).
Proof.
  intro H. unfold run in H. apply fetchAvailableCudaVersions_inv in H.
  destruct H as (rv & av & ov & log1 & log2 & H1 & H2 & H3 & ->).
  assert (W : forall v, In v (mergeVersions rv av ov) ->
                        versionString v = true /\ (2 <= components v <= 4)%nat).
  { intros v I. apply mergeVersions_In in I. destruct I as [I _].
    apply dotted_wellformed; [|lia].
    destruct I as [I|[I|[I|I]]].
    - eapply redistrib_dotted; eauto.
    - eapply dotted_weaken; [eapply archive_dotted; eauto| |]; lia.
    - eapply dotted_weaken; [eapply opensource_dotted; eauto| |]; lia.
    - eapply dotted_weaken; [apply legacy_dotted, I| |]; lia. }
  assert (P : forall v, In v (mergeVersions rv av ov) -> plainVersion v = true).
  { intros v I. unfold plainVersion, versionString in *. apply forallb_forall.
    intros c Hc. destruct (W v I) as [V _].
    rewrite forallb_forall in V. specialize (V c Hc).
    unfold numeral in V. apply andb_true_iff in V. destruct V as [V _].
    unfold plainComponent. rewrite V. reflexivity. }
  split; [exact W|]. split.
  - intros a b Ha Hb Sa Sb. apply compareVersions_plain; auto.
  - intros s v F. apply W. apply findCudaVersionIn_sound in F. apply F.
Qed.

Lemma catalog_well_formed_witness :
  versionString "11.2.0" = true /\ (2 <= components "11.2.0" <= 4)%nat.
Proof.
  refine (proj1 (catalog_well_formed exampleListing
                   ["10.0"; "10.1"; "10.1.1"; "10.1.2"; "10.2"; "11.2.0"; "12.4.1"]
                   [redistribUrl; archiveUrl; opensourceUrl] _) "11.2.0" _).
  - vm_compute. reflexivity.
  - cbn. auto 10.
Defined.

(** ** More on the manifest URL and on legacy specifiers *)

(** X25.  [fetchMd5sum] asks for exactly one URL, chosen by the major
    version: the uniform [docs/sidebar/md5sum.txt] of the release from 11
    on, the [md5sumUrl] of the entry of [CUDA_LINKS] below 11.  Below 11
    without an entry, and for a version that is not the name of a member
    every object inherits, it fails with a TypeError before any request. *)
Theorem fetchMd5sum_request (client : HttpClient) (version : string) :
  (geInt (majorOf version) 11 = true ->
   snd (run (fetchMd5sum client CUDA_LINKS version)) = [manifestOf version])
  /\ (forall link,
        geInt (majorOf version) 11 = false ->
        lookupLink CUDA_LINKS version = Some link ->
        snd (run (fetchMd5sum client CUDA_LINKS version)) = [md5sumUrl link])
  /\ (geInt (majorOf version) 11 = false ->
      lookupLink CUDA_LINKS version = None ->
      inherited version = false ->
      run (fetchMd5sum client CUDA_LINKS version) = (Throw TypeError, [])).
Proof.
  unfold run, fetchMd5sum, bind, lift, httpGet, getMd5sumUrl.
  fold (majorOf version). fold (manifestOf version).
  split; [|split].
  - intros ->. destruct (client _) as [r|e]; [|reflexivity].
    destruct (negb _); reflexivity.
  - intros link -> ->. destruct (client _) as [r|e]; [|reflexivity].
    destruct (negb _); reflexivity.
  - intros -> -> _. reflexivity.
Qed.

Lemma fetchMd5sum_request_witness :
  snd (run (fetchMd5sum offline CUDA_LINKS "12.4.1")) = [manifestOf "12.4.1"]
  /\ snd (run (fetchMd5sum offline CUDA_LINKS "10.2"))
     = ["https://developer.download.nvidia.com/compute/cuda/10.2/Prod/docs/sidebar/md5sum2.txt"]
  /\ run (fetchMd5sum offline CUDA_LINKS "9.0") = (Throw TypeError, []).
Proof.
  destruct (fetchMd5sum_request offline "12.4.1") as (A & _).
  destruct (fetchMd5sum_request offline "10.2") as (_ & B & _).
  destruct (fetchMd5sum_request offline "9.0") as (_ & _ & C).
  split; [apply A; vm_compute; reflexivity|].
  split; [|apply C; vm_compute; reflexivity].
  destruct (lookupLink CUDA_LINKS "10.2") as [link|] eqn:E; [|discriminate E].
  rewrite (B link ltac:(vm_compute; reflexivity) eq_refl).
  vm_compute in E. injection E as <-. reflexivity.
Defined.

Lemma catalog_entry_dotted (rv av ov log1 log2 log3 log4 : list string)
    (client : HttpClient) (v : string) :
  fetchRedistribVersions client log1 = (Ok rv, log2) ->
  fetchArchiveVersions client log2 = (Ok av, log3) ->
  fetchOpensourceVersions client log3 = (Ok ov, log4) ->
  In v (mergeVersions rv av ov) -> dotted 2 4 v.
Proof.
  intros H1 H2 H3 I. apply mergeVersions_In in I. destruct I as [I _].
  destruct I as [I|[I|[I|I]]].
  - eapply redistrib_dotted; eauto.
  - eapply dotted_weaken; [eapply archive_dotted; eauto| |]; lia.
  - eapply dotted_weaken; [eapply opensource_dotted; eauto| |]; lia.
  - eapply dotted_weaken; [apply legacy_dotted, I| |]; lia.
Qed.

(** X26.  After a discovery that produced a catalog, the specifier [10]
    always resolves: to an entry that starts with [10.] and that is not
    below 10.2 under the comparator. *)
Theorem legacy_major_resolves (client : HttpClient) (catalog log : list string) :
  run (fetchAvailableCudaVersions client) = (Ok catalog, log) ->
  exists v,
    run (findCudaVersion client "10") = (Ok (Some v), log)
    /\ In v catalog
    /\ hasPrefix "10." v
    /\ leZero (compareVersions "10.2" v) = true.
Proof.
  intro H. pose proof H as H'. unfold run in H'.
  apply fetchAvailableCudaVersions_inv in H'.
  destruct H' as (rv & av & ov & log1 & log2 & H1 & H2 & H3 & E).
  assert (N : ~ In "10" catalog).
  { intro I. subst catalog.
    pose proof (catalog_entry_dotted _ _ _ _ _ _ _ _ _ H1 H2 H3 I) as D.
    apply dotted_versionString in D; [|lia]. destruct D as [_ D].
    cbn in D. lia. }
  assert (L : forall w, In w OLD_CUDA_VERSIONS ->
                        In w (filter (fun v => startsWith v "10.") catalog)).
  { intros w Hw. apply filter_In. split.
    - subst catalog. apply mergeVersions_legacy, Hw.
    - cbn in Hw. repeat (destruct Hw as [<-|Hw]; [reflexivity|]). contradiction. }
  destruct (lastOf_nonempty (filter (fun v => startsWith v "10.") catalog))
    as [v Last].
  { intro F. specialize (L "10.0"). rewrite F in L. apply L. cbn. auto. }
  exists v.
  pose proof (lastOf_In _ _ Last) as I. apply filter_In in I. destruct I as [I P].
  split; [|split; [exact I|split]].
  - unfold run, findCudaVersion, bind in *. rewrite H. unfold ret.
    rewrite findCudaVersionIn_prefix by (discriminate || exact N).
    cbn [append]. rewrite Last. reflexivity.
  - apply startsWith_hasPrefix, P.
  - assert (S : StronglySorted vle (filter (fun v => startsWith v "10.") catalog))
      by (apply StronglySorted_filter; subst catalog; apply mergeVersions_sorted).
    destruct (lastOf_sorted_max vle _ v S Last "10.2") as [<-|R].
    + apply L. cbn. auto 6.
    + apply (vle_refl "10.2").
    + exact R.
Qed.

Lemma legacy_major_resolves_witness :
  exists v,
    run (findCudaVersion exampleListing "10")
    = (Ok (Some v), [redistribUrl; archiveUrl; opensourceUrl])
    /\ In v ["10.0"; "10.1"; "10.1.1"; "10.1.2"; "10.2"; "11.2.0"; "12.4.1"]
    /\ hasPrefix "10." v
    /\ leZero (compareVersions "10.2" v) = true.
Proof.
  apply (legacy_major_resolves exampleListing). vm_compute. reflexivity.
Defined.

(** ** The support check on well-formed versions *)

Lemma decimalFrom_nonneg (s : string) (acc : Z) :
  allDigits s = true -> 0 <= acc -> 0 <= decimalFrom acc s.
Proof.
  revert acc. induction s as [|c s IH]; intros acc A H; cbn [decimalFrom];
    [exact H|].
  cbn [allDigits] in A. apply andb_true_iff in A. destruct A as [C A].
  apply IH; [exact A|].
  unfold isDigit in C. apply andb_true_iff in C. destruct C as [C1 _].
  apply Nat.leb_le in C1. lia.
Qed.

Lemma componentValue_nonneg (c : string) : 0 <= componentValue c.
Proof.
  unfold componentValue. destruct (allDigits c) eqn:A; [|lia].
  apply decimalFrom_nonneg; [exact A|lia].
Qed.

Lemma firstDiffering_zeros (xs ys : list jsnum) :
  Forall (fun x => exists z, 0 <= z /\ x = ofZ z) xs ->
  Forall (fun y => y = ofZ 0) ys ->
  ltZero (firstDiffering (combine xs ys)) = false.
Proof.
  intro Hx. revert ys. induction Hx as [|x xs (z & Z0 & ->) _ IH]; intros ys Hy.
  - unfold ltZero. cbn [combine firstDiffering]. rewrite sign_ofZ. reflexivity.
  - destruct Hy as [|y ys -> Hy]; cbn [combine firstDiffering].
    + unfold ltZero. rewrite sign_ofZ. reflexivity.
    + rewrite strictNe_ofZ by reflexivity.
      destruct (Z.eqb_spec z 0) as [_|N]; cbn [negb]; [apply IH, Hy|].
      unfold ltZero. rewrite sign_sub_ofZ by reflexivity.
      destruct (Z.compare_spec z 0); try reflexivity. lia.
Qed.

(** X27.  On a well-formed version string the support check is a test of
    the major component alone: the version is below the minimum supported
    one exactly when its major is below 10. *)
Theorem support_check_is_major_check (version : string) :
  versionString version = true ->
  ltZero (compareVersions version START_SUPPORTED_CUDA_VERSION)
  = (decimal (first (split "." version)) <? 10).
Proof.
  intro V. rewrite compareVersions_padded. unfold comparePadded.
  destruct (split_cons "." version) as (c & rest & E). rewrite E.
  unfold versionString in V. rewrite E in V. cbn [forallb] in V.
  apply andb_true_iff in V. destruct V as [N R].
  assert (C : forall c', numeral c' = true -> component c' = ofZ (decimal c'))
    by (intros c' N'; unfold component; rewrite (Number_numeral c' N');
        apply orZero_ofZ).
  change (split "." START_SUPPORTED_CUDA_VERSION) with ["10"; "0"].
  cbn [map List.length first hd].
  change (Nat.max (S (List.length (map component rest))) 2)
    with (S (Nat.max (List.length (map component rest)) 1)).
  rewrite !padWith_cons. cbn [combine firstDiffering].
  rewrite !C by (exact N || reflexivity).
  change (decimal "10") with 10.
  rewrite strictNe_ofZ by reflexivity.
  destruct (Z.eqb_spec (decimal c) 10) as [Q|Q]; cbn [negb].
  - rewrite Q. change (10 <? 10) with false.
    apply firstDiffering_zeros.
    + apply Forall_padWith; [exists 0; split; [lia|reflexivity]|].
      apply Forall_forall. intros x Hx. apply in_map_iff in Hx.
      destruct Hx as (c' & <- & Hc). rewrite forallb_forall in R.
      specialize (R c' Hc). exists (decimal c'). split; [|apply C, R].
      unfold numeral in R. apply andb_true_iff in R. destruct R as [A _].
      apply decimalFrom_nonneg; [exact A|lia].
    + apply Forall_padWith; [reflexivity|].
      constructor; [reflexivity|constructor].
  - unfold ltZero. rewrite sign_sub_ofZ by reflexivity.
    destruct (Z.compare_spec (decimal c) 10), (Z.ltb_spec (decimal c) 10);
      try reflexivity; lia.
Qed.

Lemma support_check_is_major_check_witness :
  ltZero (compareVersions "9.2.148" START_SUPPORTED_CUDA_VERSION)
  = (decimal (first (split "." "9.2.148")) <? 10).
Proof. apply support_check_is_major_check. reflexivity. Defined.
